(** * LLaMA-Adapter V2 for LitGPT: a shallow embedding of [litgpt/adapter_v2.py]

    The development follows the Python module top to bottom:
    - [adapter_filter] and [mark_only_adapter_v2_as_trainable] (parameter
      marking by name),
    - [AdapterV2Linear] (scale and bias around a linear projection),
    - the constructors of [GPT], [Block], [CausalSelfAttention] and the MLP
      classes, as functions building a [torch.nn.Module] tree,
    - [GPT.forward] (guards, chunked head, soft-capping),
    - the [_load_from_state_dict] hooks (checkpoint key remapping).

    Tensors are nested lists over an abstract scalar type; Python exceptions
    are values of [Exn]; a Python [dict] keyed by strings is a [gmap]. *)

From Stdlib Require Import ZArith Lia Bool Ascii String DecimalString DecimalNat.
From stdpp Require Import gmap strings list fin_maps.

(** ** Strings: Python's [s in key] and [str(i)] *)

Module Str.

(** [s in key] for Python strings: [s] occurs at some offset of [key]. *)
Fixpoint contains (s key : string) : bool :=
  String.prefix s key ||
  match key with
  | EmptyString => false
  | String _ key' => contains s key'
  end.

(** [str(i)] for a non-negative integer. *)
Definition of_nat (n : nat) : string :=
  NilEmpty.string_of_uint (Nat.to_uint n).

(** Characters of a string, in order. *)
Fixpoint chars (s : string) : list ascii :=
  match s with
  | EmptyString => []
  | String c s' => c :: chars s'
  end.

Definition is_digit (c : ascii) : bool :=
  match Ascii.is_nat c with Some _ => true | None => false end.

Definition dot : ascii := "."%char.

End Str.

(** ** Python exceptions *)

Inductive Exn :=
| ValueError | TypeError | IndexError | RuntimeError | AttributeError
| AssertionError | NotImplementedError | ZeroDivisionError.

(** A call either returns a value or raises. *)
Inductive Result (A : Type) :=
| Ok (a : A)
| Raise (e : Exn).
Arguments Ok {A} a.
Arguments Raise {A} e.

#[global] Instance Result_ret : MRet Result := fun A a => Ok a.
#[global] Instance Result_bind : MBind Result := fun A B f r =>
  match r with
  | Ok a => f a
  | Raise e => Raise e
  end.

#[global] Instance Result_fmap : FMap Result := fun A B f r =>
  match r with
  | Ok a => Ok (f a)
  | Raise e => Raise e
  end.

Definition of_option {A} (e : Exn) (o : option A) : Result A :=
  match o with
  | Some a => Ok a
  | None => Raise e
  end.

(** Lookup in an ordered name/value table, as in [module._parameters[name]]. *)
Fixpoint assoc {A} (k : string) (l : list (string * A)) : option A :=
  match l with
  | [] => None
  | (k', a) :: l' => if String.eqb k k' then Some a else assoc k l'
  end.

(** Overwrite an existing entry in place (the order of the table is kept). *)
Fixpoint assoc_set {A} (k : string) (a : A) (l : list (string * A))
  : list (string * A) :=
  match l with
  | [] => []
  | (k', a') :: l' =>
      if String.eqb k k' then (k', a) :: l' else (k', a') :: assoc_set k a l'
  end.

(** ** Lists as tensor dimensions *)

(** [l[pos]] for a 1-D index tensor [pos]; an index outside [0, len) raises. *)
Definition select {X} (pos : list Z) (l : list X) : Result (list X) :=
  mapM (fun i : Z =>
          if (i <? 0)%Z then Raise IndexError
          else of_option IndexError (nth_error l (Z.to_nat i))) pos.

(** Number of pieces [torch.split] makes of a dimension of size [n] with
    pieces of size [c > 0]: [max(ceil(n / c), 1)]. *)
Definition num_splits (n c : nat) : nat := Nat.max ((n + c - 1) / c) 1.

(** Size of dimension 1 of a nested list (0 when dimension 0 is empty). *)
Definition size1 {X} (x : list (list X)) : nat :=
  match x with
  | [] => 0
  | r :: _ => length r
  end.

(** [x.split(c, dim=1)]: piece [k] keeps, in every entry of dimension 0, the
    slice [k*c : (k+1)*c] of dimension 1. *)
Definition split_dim1 {X} (c : nat) (x : list (list X)) : list (list (list X)) :=
  map (fun k => map (fun r => firstn c (skipn (k * c) r)) x)
      (seq 0 (num_splits (size1 x) c)).

(** [torch.cat(ts, dim=1)] on pieces that agree on dimension 0. *)
Definition cat_dim1 {X} (ts : list (list (list X))) : Result (list (list X)) :=
  match ts with
  | [] => Raise RuntimeError
  | t0 :: _ =>
      if forallb (fun t => length t =? length t0) ts
      then Ok (map (fun i => concat (map (fun t => nth i t []) ts))
                   (seq 0 (length t0)))
      else Raise RuntimeError
  end.

(** Swap the two outer dimensions of a [b x c] nested list. *)
Fixpoint transpose {X} (c : nat) (x : list (list X)) : list (list X) :=
  match c with
  | 0 => []
  | S c' => flat_map (fun r => firstn 1 r) x :: transpose c' (map (skipn 1) x)
  end.

Section Model.

(** ** Scalars

    The element type of floating-point tensors and the arithmetic used on it
    are kept abstract: no law is assumed of them unless a statement says so. *)
Variable R : Type.
Variables zero one : R.
Variables add mul div : R -> R -> R.
Variable tanh : R -> R.
(** [n ** 0.5] for an integer [n]. *)
Variable sqrt_nat : nat -> R.

(** ** Tensors

    A tensor of rank 1 to 4 is a nested list, outermost dimension first.
    These are the ranks the module uses: biases and scales are 1-D, weights
    and the rope cache 2-D, activations 3-D, the adapter gate and the mask
    cache 4-D. *)
Inductive Tensor :=
| T1 (v : list R)
| T2 (m : list (list R))
| T3 (a : list (list (list R)))
| T4 (q : list (list (list (list R)))).

(** [t.shape]; the sizes behind an empty dimension read as 0. *)
Definition shape (t : Tensor) : list nat :=
  match t with
  | T1 v => [length v]
  | T2 m => [length m; size1 m]
  | T3 a => [length a; size1 a; size1 (hd [] a)]
  | T4 q => [length q; size1 q; size1 (hd [] q); size1 (hd [] (hd [] q))]
  end.

(** [t.size(d)]; raises on a dimension the tensor does not have. *)
Definition size (d : nat) (t : Tensor) : Result nat :=
  of_option IndexError (nth_error (shape t) d).

(** [torch.zeros(n)], [torch.ones(n)] and [torch.zeros(a, b, c, d)]. *)
Definition zeros1 (n : nat) : Tensor := T1 (repeat zero n).
Definition ones1 (n : nat) : Tensor := T1 (repeat one n).
Definition zeros4 (a b c d : nat) : Tensor :=
  T4 (repeat (repeat (repeat (repeat zero d) c) b) a).

(** Apply [f] to every element, keeping the shape. *)
Definition tensor_map (f : R -> R) (t : Tensor) : Tensor :=
  match t with
  | T1 v => T1 (map f v)
  | T2 m => T2 (map (map f) m)
  | T3 a => T3 (map (map (map f)) a)
  | T4 q => T4 (map (map (map (map f))) q)
  end.

(** Apply [f] along the last dimension: to every innermost list. *)
Definition rows_map (f : list R -> Result (list R)) (t : Tensor) : Result Tensor :=
  match t with
  | T1 v => T1 <$> f v
  | T2 m => T2 <$> mapM f m
  | T3 a => T3 <$> mapM (mapM f) a
  | T4 q => T4 <$> mapM (mapM (mapM f)) q
  end.

(** Broadcasting of two sizes of the last dimension: equal sizes pair up, a
    size of 1 is repeated, anything else raises. *)
Definition broadcast_row (op : R -> R -> R) (u v : list R) : Result (list R) :=
  if length u =? length v then Ok (zip_with op u v)
  else match u, v with
       | [a], _ => Ok (map (op a) v)
       | _, [b] => Ok (map (fun a => op a b) u)
       | _, _ => Raise RuntimeError
       end.

(** [v * t] and [t + v] for a 1-D tensor [v]: [v] is broadcast along the last
    dimension of [t]. *)
Definition vec_mul_tensor (v : list R) (t : Tensor) : Result Tensor :=
  rows_map (fun r => broadcast_row mul v r) t.
Definition tensor_add_vec (t : Tensor) (v : list R) : Result Tensor :=
  rows_map (fun r => broadcast_row add r v) t.

(** Broadcasting of a dimension other than the last, with [op] combining the
    entries below it: equal sizes pair up, a size of 1 is repeated, anything
    else raises. *)
Definition broadcast_dim {X} (op : X -> X -> Result X) (u v : list X)
  : Result (list X) :=
  if length u =? length v then mapM (fun ab => op ab.1 ab.2) (zip u v)
  else match u, v with
       | [a], _ => mapM (op a) v
       | _, [b] => mapM (fun a => op a b) u
       | _, _ => Raise RuntimeError
       end.

(** [s * t] for two tensors: dimensions are aligned from the last one, and
    the tensor of lower rank counts as having leading dimensions of size 1. *)
Definition tensor_mul (s t : Tensor) : Result Tensor :=
  let mul1 := broadcast_row mul in
  let mul2 := broadcast_dim mul1 in
  let mul3 := broadcast_dim mul2 in
  let mul4 := broadcast_dim mul3 in
  match s, t with
  | T1 u, T1 v => T1 <$> mul1 u v
  | T1 u, T2 n => T2 <$> mul2 [u] n
  | T1 u, T3 b => T3 <$> mul3 [[u]] b
  | T1 u, T4 q => T4 <$> mul4 [[[u]]] q
  | T2 m, T1 v => T2 <$> mul2 m [v]
  | T2 m, T2 n => T2 <$> mul2 m n
  | T2 m, T3 b => T3 <$> mul3 [m] b
  | T2 m, T4 q => T4 <$> mul4 [[m]] q
  | T3 a, T1 v => T3 <$> mul3 a [[v]]
  | T3 a, T2 n => T3 <$> mul3 a [n]
  | T3 a, T3 b => T3 <$> mul3 a b
  | T3 a, T4 q => T4 <$> mul4 [a] q
  | T4 p, T1 v => T4 <$> mul4 p [[[v]]]
  | T4 p, T2 n => T4 <$> mul4 p [[n]]
  | T4 p, T3 b => T4 <$> mul4 p [b]
  | T4 p, T4 q => T4 <$> mul4 p q
  end.

(** A 1-D tensor as the list of its elements. *)
Definition as_vector (t : Tensor) : Result (list R) :=
  match t with
  | T1 v => Ok v
  | _ => Raise RuntimeError
  end.

(** [t.permute(0, 2, 1, 3)]; raises unless [t] has four dimensions. *)
Definition permute_0213 (t : Tensor) : Result Tensor :=
  match t with
  | T4 q => Ok (T4 (map (fun m => transpose (size1 m) m) q))
  | _ => Raise RuntimeError
  end.

(** [t.numel()] *)
Definition numel (t : Tensor) : nat := foldr Nat.mul 1 (shape t).

(** What torch raises for an index outside the selected dimension:
    [IndexError], except that on a tensor of more than one dimension that
    holds no element (a dimension of size 0) it checks the index by another
    route and raises [RuntimeError]. *)
Definition index_error (t : Tensor) : Exn :=
  match t with
  | T1 _ => IndexError
  | _ => if numel t =? 0 then RuntimeError else IndexError
  end.

(** The index check of a selection on [t]: a selection that fails raises
    [index_error t]. *)
Definition out_of_range {A} (t : Tensor) (r : Result A) : Result A :=
  match r with
  | Ok a => Ok a
  | Raise _ => Raise (index_error t)
  end.

(** [t.index_select(dim, pos)] for the dimensions the module selects on; a
    dimension that [t] does not have raises [IndexError]. *)
Definition index_select (dim : nat) (t : Tensor) (pos : list Z) : Result Tensor :=
  match dim, t with
  | 0, T1 v => T1 <$> select pos v
  | 0, T2 m => T2 <$> out_of_range t (select pos m)
  | 0, T3 a => T3 <$> out_of_range t (select pos a)
  | 0, T4 q => T4 <$> out_of_range t (select pos q)
  | 2, T3 a => T3 <$> out_of_range t (mapM (mapM (select pos)) a)
  | 2, T4 q => T4 <$> out_of_range t (mapM (mapM (select pos)) q)
  | _, _ => Raise IndexError
  end.

(** [t[:n]] on the first dimension. *)
Definition take_rows (n : nat) (t : Tensor) : Tensor :=
  match t with
  | T1 v => T1 (firstn n v)
  | T2 m => T2 (firstn n m)
  | T3 a => T3 (firstn n a)
  | T4 q => T4 (firstn n q)
  end.

(** [t.split(c, dim=1)]; a 1-D tensor has no dimension 1. *)
Definition tensor_split1 (c : nat) (t : Tensor) : Result (list Tensor) :=
  match t with
  | T1 _ => Raise IndexError
  | T2 m => Ok (map T2 (split_dim1 c m))
  | T3 a => Ok (map T3 (split_dim1 c a))
  | T4 q => Ok (map T4 (split_dim1 c q))
  end.

Definition as_T2 (t : Tensor) : Result (list (list R)) :=
  match t with T2 m => Ok m | _ => Raise RuntimeError end.
Definition as_T3 (t : Tensor) : Result (list (list (list R))) :=
  match t with T3 a => Ok a | _ => Raise RuntimeError end.
Definition as_T4 (t : Tensor) : Result (list (list (list (list R)))) :=
  match t with T4 q => Ok q | _ => Raise RuntimeError end.

(** [torch.cat(ts, dim=1)]: all pieces have the rank of the first. *)
Definition tensor_cat1 (ts : list Tensor) : Result Tensor :=
  match ts with
  | [] => Raise RuntimeError
  | T1 _ :: _ => Raise IndexError
  | T2 _ :: _ => ms ← mapM as_T2 ts; T2 <$> cat_dim1 ms
  | T3 _ :: _ => ms ← mapM as_T3 ts; T3 <$> cat_dim1 ms
  | T4 _ :: _ => ms ← mapM as_T4 ts; T4 <$> cat_dim1 ms
  end.

(** ** Configuration

    [Config] only overrides [mlp_class]; its fields are those of the base
    configuration that this module reads. [norm_class] selects
    [torch.nn.LayerNorm] or [litgpt.model.RMSNorm]; [mlp_class_name] is one of
    the four MLP classes defined below. *)

Inductive NormClassName := Name_LayerNorm | Name_RMSNorm.
Inductive MlpClassName :=
| Name_GptNeoxMLP | Name_LLaMAMLP | Name_GemmaMLP | Name_LLaMAMoE.

Record Config := {
  padded_vocab_size : option nat;
  n_embd : nat;
  n_layer : nat;
  n_head : nat;
  n_query_groups : nat;
  head_size : nat;
  block_size : nat;
  intermediate_size : nat;
  n_expert : nat;
  bias : bool;
  attn_bias : bool;
  lm_head_bias : bool;
  scale_embeddings : bool;
  parallel_residual : bool;
  shared_attention_norm : bool;
  post_attention_norm : bool;
  post_mlp_norm : bool;
  norm_class_name : NormClassName;
  norm_eps : R;
  mlp_class_name : MlpClassName;
  final_logit_softcapping : option R;
  sliding_window_size : option nat;
  sliding_window_layer_stride : nat;
  adapter_prompt_length : nat;
  adapter_start_layer : nat;
}.

(** ** Modules

    A [torch.nn.Module] is a node with a class, its own parameters and
    buffers, plain attributes, and named child modules, each table in
    registration order. *)

Inductive Cls :=
| Linear | Embedding | LayerNorm | RMSNorm | Identity | ModuleList | ModuleDict
| AdapterV2Linear | GPT | Block | CausalSelfAttention
| GptNeoxMLP | LLaMAMLP | GemmaMLP | LLaMAMoE.

(** [torch.nn.Parameter]: a tensor and its [requires_grad] flag. *)
Record Param := { data : Tensor; requires_grad : bool }.

Inductive Attr :=
| ANone
| ABool (b : bool)
| ANat (n : nat)
| AScalar (r : R)
| ATensor (t : Tensor)
| AConfig (c : Config).

Unset Elimination Schemes.
Inductive Module :=
| Mod (c : Cls)
      (ps : list (string * Param))
      (bs : list (string * Tensor))
      (ats : list (string * Attr))
      (ms : list (string * Module)).
Set Elimination Schemes.

Definition cls (m : Module) : Cls := let 'Mod c _ _ _ _ := m in c.
Definition parameters (m : Module) : list (string * Param) :=
  let 'Mod _ ps _ _ _ := m in ps.
Definition buffers (m : Module) : list (string * Tensor) :=
  let 'Mod _ _ bs _ _ := m in bs.
Definition attrs (m : Module) : list (string * Attr) :=
  let 'Mod _ _ _ ats _ := m in ats.
Definition children (m : Module) : list (string * Module) :=
  let 'Mod _ _ _ _ ms := m in ms.

(** Attribute access; a missing name raises [AttributeError]. *)
Definition get_parameter (m : Module) (k : string) : Result Param :=
  of_option AttributeError (assoc k (parameters m)).
Definition get_buffer (m : Module) (k : string) : Result Tensor :=
  of_option AttributeError (assoc k (buffers m)).
Definition get_attr (m : Module) (k : string) : Result Attr :=
  of_option AttributeError (assoc k (attrs m)).
Definition get_child (m : Module) (k : string) : Result Module :=
  of_option AttributeError (assoc k (children m)).

Definition get_config (m : Module) : Result Config :=
  a ← get_attr m "config";
  match a with AConfig c => Ok c | _ => Raise AttributeError end.

(** Rebinding a registered parameter or submodule. *)
Definition set_parameter (m : Module) (k : string) (p : Param) : Module :=
  let 'Mod c ps bs ats ms := m in Mod c (assoc_set k p ps) bs ats ms.
Definition set_child (m : Module) (k : string) (c' : Module) : Module :=
  let 'Mod c ps bs ats ms := m in Mod c ps bs ats (assoc_set k c' ms).

(** [prefix + ("." if prefix else "") + name] *)
Definition qualify (prefix name : string) : string :=
  if String.eqb prefix "" then name else prefix +:+ String Str.dot name.

(** [module.named_modules(prefix=prefix)]: the module itself, then its
    descendants, depth first. *)
Fixpoint named_modules (prefix : string) (m : Module) : list (string * Module) :=
  (prefix, m) ::
  match m with
  | Mod _ _ _ _ ms =>
      (fix go (l : list (string * Module)) : list (string * Module) :=
         match l with
         | [] => []
         | (k, c) :: l' => named_modules (qualify prefix k) c ++ go l'
         end) ms
  end.

(** [module.named_parameters(prefix=prefix)]: for every module in
    [named_modules] order, its own parameters under their qualified names. *)
Definition named_parameters (prefix : string) (m : Module)
  : list (string * Param) :=
  flat_map (fun '(path, sub) =>
              map (fun '(k, p) => (qualify path k, p)) (parameters sub))
           (named_modules prefix m).

(** ** Construction

    Constructors draw their random initial weights from the generator state,
    and may raise. *)
Variable Rng : Type.
Variable draw : Rng -> R * Rng.

Definition Init (A : Type) : Type := Rng -> Result (A * Rng).

#[local] Instance Init_ret : MRet Init := fun A a g => Ok (a, g).
#[local] Instance Init_bind : MBind Init := fun A B f m g =>
  match m g with
  | Ok (a, g') => f a g'
  | Raise e => Raise e
  end.

Definition raise {A} (e : Exn) : Init A := fun _ => Raise e.

Fixpoint draw_vector (n : nat) : Init (list R) :=
  match n with
  | 0 => mret []
  | S n' => fun g => let '(x, g') := draw g in (v ← draw_vector n'; mret (x :: v)) g'
  end.

Fixpoint draw_matrix (rows cols : nat) : Init (list (list R)) :=
  match rows with
  | 0 => mret []
  | S rows' => r ← draw_vector cols; m ← draw_matrix rows' cols; mret (r :: m)
  end.

(** [torch.nn.Linear(in_features, out_features, bias=bias)] *)
Definition Linear_init (in_features out_features : nat) (bias : bool) : Init Module :=
  w ← draw_matrix out_features in_features;
  b ← (if bias
       then v ← draw_vector out_features; mret [("bias", {| data := T1 v; requires_grad := true |})]
       else mret []);
  mret (Mod Linear
            (("weight", {| data := T2 w; requires_grad := true |}) :: b)
            []
            [("in_features", ANat in_features); ("out_features", ANat out_features)]
            []).

(** [torch.nn.Embedding(num_embeddings, embedding_dim)] *)
Definition Embedding_init (num_embeddings embedding_dim : nat) : Init Module :=
  w ← draw_matrix num_embeddings embedding_dim;
  mret (Mod Embedding
            [("weight", {| data := T2 w; requires_grad := true |})]
            []
            [("num_embeddings", ANat num_embeddings); ("embedding_dim", ANat embedding_dim)]
            []).

(** [config.norm_class(size, eps=eps)]: a leaf module with a weight of ones
    and, for [LayerNorm], a bias of zeros. *)
Definition norm_class (config : Config) (size : nat) (eps : R) : Init Module :=
  mret (match norm_class_name config with
        | Name_LayerNorm =>
            Mod LayerNorm
                [("weight", {| data := ones1 size; requires_grad := true |});
                 ("bias", {| data := zeros1 size; requires_grad := true |})]
                [] [("eps", AScalar eps)] []
        | Name_RMSNorm =>
            Mod RMSNorm
                [("weight", {| data := ones1 size; requires_grad := true |})]
                [] [("eps", AScalar eps)] []
        end).

(** [torch.nn.Identity()] *)
Definition Identity_init : Init Module := mret (Mod Identity [] [] [] []).

(** [torch.nn.ModuleList(ms)]: children are named by their index. *)
Definition ModuleList_init (ms : list Module) : Module :=
  Mod ModuleList [] [] [] (imap (fun i m => (Str.of_nat i, m)) ms).

(** [torch.nn.ModuleDict(d)] *)
Definition ModuleDict_init (d : list (string * Module)) : Module :=
  Mod ModuleDict [] [] [] d.

(** ** [adapter_filter] *)

Definition adapter_substrings : list string :=
  [ (* regular adapter v1 parameters *)
    "adapter_wte";
    "gating_factor";
    (* adapter v2: new bias and scale used in Linear *)
    "adapter_scale";
    "adapter_bias";
    (* adapter v2: Norm parameters are now trainable *)
    "norm_1";
    "norm_2";
    "ln_f" ].

Definition adapter_filter {V} (key : string) (value : V) : bool :=
  existsb (fun s => Str.contains s key) adapter_substrings.

(** ** [AdapterV2Linear] *)

Definition AdapterV2Linear_init (in_features out_features : nat) (bias : bool)
  : Init Module :=
  linear ← Linear_init in_features out_features bias;
  mret (Mod AdapterV2Linear
            [("adapter_bias", {| data := zeros1 out_features; requires_grad := false |});
             ("adapter_scale", {| data := ones1 out_features; requires_grad := false |})]
            [] []
            [("linear", linear)]).

(** Sum of the products of paired entries, accumulated from the first
    product on; 0 when there is no entry. *)
Definition dot (u v : list R) : R :=
  match zip_with mul u v with
  | [] => zero
  | p :: ps => foldl add p ps
  end.

(** The second dimension of a weight: the length of its rows. A weight
    without rows ([out_features = 0]) shows it only in the module's
    [in_features]. *)
Definition weight_width (self : Module) (w : list (list R)) : Result nat :=
  match w with
  | r :: _ => Ok (length r)
  | [] =>
      a ← get_attr self "in_features";
      match a with ANat n => Ok n | _ => Raise AttributeError end
  end.

(** [torch.nn.Linear.forward]: every vector along the last dimension of [x]
    is multiplied by the transposed weight, and the bias, when there is one,
    is added. A last dimension other than the weight's raises. *)
Definition Linear_forward (self : Module) (x : Tensor) : Result Tensor :=
  weight ← get_parameter self "weight";
  w ← as_T2 (data weight);
  width ← weight_width self w;
  match assoc "bias" (parameters self) with
  | None =>
      rows_map (fun r => if (length r =? width) &&
                            forallb (fun wj => length wj =? length r) w
                         then Ok (map (dot r) w) else Raise RuntimeError) x
  | Some b =>
      bv ← as_vector (data b);
      rows_map (fun r => if (length r =? width) &&
                            forallb (fun wj => length wj =? length r) w
                         then broadcast_row add (map (dot r) w) bv
                         else Raise RuntimeError) x
  end.

Definition AdapterV2Linear_forward (self : Module) (x : Tensor) : Result Tensor :=
  adapter_scale ← get_parameter self "adapter_scale";
  linear ← get_child self "linear";
  adapter_bias ← get_parameter self "adapter_bias";
  scale ← as_vector (data adapter_scale);
  y ← Linear_forward linear x;
  shift ← as_vector (data adapter_bias);
  z ← tensor_add_vec y shift;
  vec_mul_tensor scale z.

(** [nn.init.zeros_] and [nn.init.ones_] overwrite the values in place. *)
Definition init_zeros_ (p : Param) : Param :=
  {| data := tensor_map (fun _ => zero) (data p); requires_grad := requires_grad p |}.
Definition init_ones_ (p : Param) : Param :=
  {| data := tensor_map (fun _ => one) (data p); requires_grad := requires_grad p |}.

Definition AdapterV2Linear_reset_parameters (self : Module) : Result Module :=
  adapter_bias ← get_parameter self "adapter_bias";
  let self := set_parameter self "adapter_bias" (init_zeros_ adapter_bias) in
  adapter_scale ← get_parameter self "adapter_scale";
  Ok (set_parameter self "adapter_scale" (init_ones_ adapter_scale)).

(** ** [CausalSelfAttention] *)

Definition CausalSelfAttention_init (config : Config) (block_idx : nat) : Init Module :=
  let shape := (n_head config + 2 * n_query_groups config) * head_size config in
  (* key, query, value projections for all heads, but in a batch *)
  qkv ← AdapterV2Linear_init (n_embd config) shape (bias config || attn_bias config);
  (* output projection *)
  proj ← AdapterV2Linear_init (head_size config * n_head config) (n_embd config) (bias config);
  adapter ←
    (if adapter_start_layer config <=? block_idx
     then
       (* adapter embedding layer *)
       adapter_wte ← Embedding_init (adapter_prompt_length config) (n_embd config);
       mret ([("adapter_wte", adapter_wte)],
             (* gate for adaption *)
             [("gating_factor",
               {| data := zeros4 1 1 (n_head config) 1; requires_grad := true |})],
             (* kv cache for inference *)
             [("adapter_kv_cache", ANone)])
     else mret ([], [], []));
  let '(adapter_modules, adapter_parameters, adapter_attrs) := adapter in
  apply_sliding_window_attention ←
    match sliding_window_size config with
    | None => mret false
    | Some _ =>
        if sliding_window_layer_stride config =? 0 then raise ZeroDivisionError
        else mret (block_idx mod sliding_window_layer_stride config =? 0)
    end;
  mret (Mod CausalSelfAttention
            adapter_parameters
            []
            ([("kv_cache", ANone)] ++ adapter_attrs ++
             [("block_idx", ANat block_idx);
              ("apply_sliding_window_attention", ABool apply_sliding_window_attention);
              ("config", AConfig config)])
            ([("qkv", qkv); ("proj", proj)] ++ adapter_modules)).

(** ** MLP classes *)

Definition GptNeoxMLP_init (config : Config) : Init Module :=
  fc ← AdapterV2Linear_init (n_embd config) (intermediate_size config) (bias config);
  proj ← AdapterV2Linear_init (intermediate_size config) (n_embd config) (bias config);
  mret (Mod GptNeoxMLP [] [] [("config", AConfig config)] [("fc", fc); ("proj", proj)]).

(** [LLaMAMLP.__init__], which [GemmaMLP] inherits: [c] is the class being
    instantiated. *)
Definition LLaMAMLP_init (c : Cls) (config : Config) : Init Module :=
  fc_1 ← AdapterV2Linear_init (n_embd config) (intermediate_size config) (bias config);
  fc_2 ← AdapterV2Linear_init (n_embd config) (intermediate_size config) (bias config);
  proj ← AdapterV2Linear_init (intermediate_size config) (n_embd config) (bias config);
  mret (Mod c [] [] [("config", AConfig config)]
            [("fc_1", fc_1); ("fc_2", fc_2); ("proj", proj)]).

Definition LLaMAMoE_init (config : Config) : Init Module :=
  gate ← AdapterV2Linear_init (n_embd config) (n_expert config) false;
  experts ← mapM (fun _ => LLaMAMLP_init LLaMAMLP config) (seq 0 (n_expert config));
  mret (Mod LLaMAMoE [] [] [("config", AConfig config)]
            [("gate", gate); ("experts", ModuleList_init experts)]).

(** [Config.mlp_class]: the class of this module named by [mlp_class_name],
    called with the configuration. *)
Definition mlp_class (config : Config) : Init Module :=
  match mlp_class_name config with
  | Name_GptNeoxMLP => GptNeoxMLP_init config
  | Name_LLaMAMLP => LLaMAMLP_init LLaMAMLP config
  | Name_GemmaMLP => LLaMAMLP_init GemmaMLP config
  | Name_LLaMAMoE => LLaMAMoE_init config
  end.

(** [torch.nn.functional.gelu(x, approximate=mode)] on one element, and the
    field [gelu_approximate] of the base configuration that names the mode. *)
Variable gelu : string -> R -> R.
Variable gelu_approximate : Config -> string.

(** [GemmaMLP.forward] *)
Definition GemmaMLP_forward (self : Module) (x : Tensor) : Result Tensor :=
  fc_1 ← get_child self "fc_1";
  x_fc_1 ← AdapterV2Linear_forward fc_1 x;
  fc_2 ← get_child self "fc_2";
  x_fc_2 ← AdapterV2Linear_forward fc_2 x;
  config ← get_config self;
  x ← tensor_mul (tensor_map (gelu (gelu_approximate config)) x_fc_1) x_fc_2;
  proj ← get_child self "proj";
  AdapterV2Linear_forward proj x.

(** ** [Block] *)

Definition Block_init (config : Config) (block_idx : nat) : Init Module :=
  if negb (parallel_residual config) && shared_attention_norm config
  then raise NotImplementedError
  else
    norm_1 ← norm_class config (n_embd config) (norm_eps config);
    attn ← CausalSelfAttention_init config block_idx;
    post_attention_norm ←
      (if post_attention_norm config
       then norm_class config (n_embd config) (norm_eps config)
       else Identity_init);
    norm_2 ←
      (if shared_attention_norm config then mret ([], [("norm_2", ANone)])
       else n ← norm_class config (n_embd config) (norm_eps config);
            mret ([("norm_2", n)], []));
    mlp ← mlp_class config;
    post_mlp_norm ←
      (if post_mlp_norm config
       then norm_class config (n_embd config) (norm_eps config)
       else Identity_init);
    mret (Mod Block [] []
              (norm_2.2 ++ [("config", AConfig config)])
              ([("norm_1", norm_1); ("attn", attn);
                ("post_attention_norm", post_attention_norm)] ++
               norm_2.1 ++
               [("mlp", mlp); ("post_mlp_norm", post_mlp_norm)])).

(** ** [GPT] *)

(** The rope cache [(cos, sin)] that the base class builds when
    [max_seq_length] is assigned; its computation belongs to the base model. *)
Variable rope_cache : Config -> nat -> Tensor * Tensor.

Definition GPT_init (config : Config) : Init Module :=
  match padded_vocab_size config with
  | None => raise AssertionError
  | Some vocab =>
      lm_head ← AdapterV2Linear_init (n_embd config) vocab (lm_head_bias config);
      wte ← Embedding_init vocab (n_embd config);
      h ← mapM (Block_init config) (seq 0 (n_layer config));
      ln_f ← norm_class config (n_embd config) (norm_eps config);
      let transformer :=
        ModuleDict_init [("wte", wte); ("h", ModuleList_init h); ("ln_f", ln_f)] in
      let '(cos, sin) := rope_cache config (block_size config) in
      mret (Mod GPT []
                [("cos", cos); ("sin", sin)]
                [("config", AConfig config);
                 ("max_seq_length", ANat (block_size config));
                 ("mask_cache", ANone)]
                [("lm_head", lm_head); ("transformer", transformer)])
  end.

(** *** [GPT.forward]

    A forward pass reads the module and may update it (the blocks write
    their key/value caches); when it raises, the module is left as it was at
    that point. *)
Definition Fwd (A : Type) : Type := Module -> Result A * Module.

#[local] Instance Fwd_ret : MRet Fwd := fun A a self => (Ok a, self).
#[local] Instance Fwd_bind : MBind Fwd := fun A B f m self =>
  match m self with
  | (Ok a, self') => f a self'
  | (Raise e, self') => (Raise e, self')
  end.

(** Evaluate an expression that only reads [self]. *)
Definition reading {A} (f : Module -> Result A) : Fwd A := fun self => (f self, self).
(** Lift a computation that does not involve [self]. *)
Definition pure {A} (r : Result A) : Fwd A := fun self => (r, self).

(** The forward pass of a block and of the final norm are inherited from the
    base model; a block returns its output together with its updated self. *)
Variable Block_forward :
  Module -> Tensor -> Tensor -> Tensor -> option Tensor -> option (list Z) ->
  Result Tensor * Module.
Variable norm_forward : Module -> Tensor -> Result Tensor.

(** [torch.nn.Embedding.forward] on a [(b, t)] tensor of token ids: the
    rows of the weight selected by the ids, with the index check of
    [index_select]. *)
Definition Embedding_forward (self : Module) (idx : list (list Z)) : Result Tensor :=
  weight ← get_parameter self "weight";
  w ← as_T2 (data weight);
  T3 <$> out_of_range (T2 w) (mapM (fun ids => select ids w) idx).

(** [for block in blocks: x = block(x, cos, sin, mask, input_pos)], returning
    the blocks as the loop leaves them. *)
Fixpoint run_blocks (blocks : list (string * Module)) (x cos sin : Tensor)
    (mask : option Tensor) (input_pos : option (list Z))
  : Result Tensor * list (string * Module) :=
  match blocks with
  | [] => (Ok x, [])
  | (k, block) :: rest =>
      match Block_forward block x cos sin mask input_pos with
      | (Ok x', block') =>
          let '(r, rest') := run_blocks rest x' cos sin mask input_pos in
          (r, (k, block') :: rest')
      | (Raise e, block') => (Raise e, (k, block') :: rest)
      end
  end.

(** The effect of the block loop on [self.transformer.h]. *)
Definition with_blocks (self : Module) (blocks : list (string * Module)) : Module :=
  match get_child self "transformer" with
  | Ok transformer =>
      match get_child transformer "h" with
      | Ok (Mod c ps bs ats _) =>
          set_child self "transformer" (set_child transformer "h" (Mod c ps bs ats blocks))
      | Raise _ => self
      end
  | Raise _ => self
  end.

(** [GPT.forward] in three consecutive parts. First the guards: the length
    check and the selection of the rope cache and mask. *)
Definition GPT_forward_guards (idx : list (list Z)) (input_pos : option (list Z))
  : Fwd (Tensor * Tensor * option Tensor) :=
  let T := size1 idx in
  max_seq_length ← reading (fun self =>
    a ← get_attr self "max_seq_length";
    match a with ANat n => Ok n | _ => Raise AttributeError end);
  if max_seq_length <? T then pure (Raise ValueError)
  else
    match input_pos with
    | Some pos => (* use the kv cache *)
        cos ← reading (fun self => c ← get_buffer self "cos"; index_select 0 c pos);
        sin ← reading (fun self => s ← get_buffer self "sin"; index_select 0 s pos);
        mask_cache ← reading (fun self => get_attr self "mask_cache");
        match mask_cache with
        | ANone => pure (Raise TypeError)
        | ATensor mask_cache =>
            mask ← pure (index_select 2 mask_cache pos);
            mret (cos, sin, Some mask)
        | _ => pure (Raise AttributeError)
        end
    | None =>
        cos ← reading (fun self => c ← get_buffer self "cos"; Ok (take_rows T c));
        sin ← reading (fun self => s ← get_buffer self "sin"; Ok (take_rows T s));
        mret (cos, sin, None)
    end.

(** Then the embedding, the blocks and the final norm. *)
Definition GPT_forward_hidden (idx : list (list Z)) (input_pos : option (list Z))
    (cos sin : Tensor) (mask : option Tensor) : Fwd Tensor :=
  transformer ← reading (fun self => get_child self "transformer");
  (* token embeddings of shape (b, t, n_embd) *)
  x ← pure (wte ← get_child transformer "wte"; Embedding_forward wte idx);
  config ← reading get_config;
  let x := if scale_embeddings config
           then tensor_map (fun v => mul v (sqrt_nat (n_embd config))) x
           else x in
  h ← pure (get_child transformer "h");
  x ← (fun self =>
         let '(r, blocks) := run_blocks (children h) x cos sin mask input_pos in
         (r, with_blocks self blocks));
  pure (ln_f ← get_child transformer "ln_f"; norm_forward ln_f x).

(** [torch.tanh(x / c) * c] *)
Definition softcap (c : R) (x : Tensor) : Tensor :=
  tensor_map (fun v => mul (tanh (div v c)) c) x.

(** Last the head: chunked, or whole and soft-capped. *)
Definition GPT_forward_logits (x : Tensor) (lm_head_chunk_size : Z)
  : Fwd (Tensor + list Tensor) :=
  lm_head ← reading (fun self => get_child self "lm_head");
  if (lm_head_chunk_size >? 0)%Z then
    (* chunk the lm head logits to reduce the peak memory used by autograd *)
    pieces ← pure (tensor_split1 (Z.to_nat lm_head_chunk_size) x);
    logits ← pure (mapM (AdapterV2Linear_forward lm_head) pieces);
    mret (inr logits)
  else
    x ← pure (AdapterV2Linear_forward lm_head x); (* (b, t, vocab_size) *)
    config ← reading get_config;
    let x := match final_logit_softcapping config with
             | Some c => softcap c x
             | None => x
             end in
    mret (inl x).

Definition GPT_forward (idx : list (list Z)) (input_pos : option (list Z))
    (lm_head_chunk_size : Z) : Fwd (Tensor + list Tensor) :=
  '(cos, sin, mask) ← GPT_forward_guards idx input_pos;
  x ← GPT_forward_hidden idx input_pos cos sin mask;
  GPT_forward_logits x lm_head_chunk_size.

(** ** [mark_only_adapter_v2_as_trainable]

    The loop assigns [requires_grad] of every parameter from its qualified
    name; on the module tree this is a traversal carrying the prefix. *)
Fixpoint mark_from (prefix : string) (m : Module) : Module :=
  match m with
  | Mod c ps bs ats ms =>
      Mod c
          (map (fun '(k, param) =>
                  (k, {| data := data param;
                         requires_grad := adapter_filter (qualify prefix k) param |}))
               ps)
          bs ats
          ((fix go (l : list (string * Module)) : list (string * Module) :=
              match l with
              | [] => []
              | (k, c) :: l' => (k, mark_from (qualify prefix k) c) :: go l'
              end) ms)
  end.

Definition mark_only_adapter_v2_as_trainable (model : Module) : Module :=
  mark_from "" model.

(** ** Checkpoint loading hooks

    A state dict maps qualified names to tensors. Each hook rewrites the
    state dict it is given and then defers to the loader of its base class. *)

(** Modelled from the spec: [litgpt.utils.map_old_state_dict_weights] is not
    part of this file. The spec describes it as "checkpoint key remapping for
    backward compatibility with differently-named frozen-model checkpoints":
    for every entry [old: new] of the mapping, in order, a tensor stored under
    [prefix + old] is moved to [prefix + new]. *)
Definition map_old_state_dict_weights (state_dict : gmap string Tensor)
    (mapping : list (string * string)) (prefix : string) : gmap string Tensor :=
  foldl (fun sd '(checkpoint_name, attribute_name) =>
           let full_checkpoint_name := prefix +:+ checkpoint_name in
           match sd !! full_checkpoint_name with
           | Some t => <[prefix +:+ attribute_name := t]> (delete full_checkpoint_name sd)
           | None => sd
           end)
        state_dict mapping.

(** [litgpt.scripts.convert_hf_checkpoint.qkv_reassemble], which reorders a
    fused legacy attention tensor; defined outside this file. *)
Variable qkv_reassemble : Tensor -> Config -> Tensor.

(** The remaining arguments of [_load_from_state_dict] (metadata, strictness
    and the lists that collect problems), passed through unchanged. *)
Variable LoadArgs : Type.

(** [super()._load_from_state_dict] as seen from class [c]: the loader of the
    base model and of [torch.nn.Module]. It returns the module, the state
    dict and the collected problems as it leaves them. *)
Variable super_load_from_state_dict :
  Cls -> Module -> gmap string Tensor -> string -> LoadArgs ->
  Module * gmap string Tensor * LoadArgs.

Definition GPT_mapping : list (string * string) :=
  [("lm_head.weight", "lm_head.linear.weight");
   ("lm_head.bias", "lm_head.linear.bias")].

(** For compatibility with base checkpoints. *)
Definition GPT_load_from_state_dict (self : Module) (state_dict : gmap string Tensor)
    (prefix : string) (args : LoadArgs) : Module * gmap string Tensor * LoadArgs :=
  let state_dict := map_old_state_dict_weights state_dict GPT_mapping prefix in
  super_load_from_state_dict GPT self state_dict prefix args.

Definition CausalSelfAttention_mapping : list (string * string) :=
  [("qkv.weight", "qkv.linear.weight");
   ("qkv.bias", "qkv.linear.bias");
   ("proj.weight", "proj.linear.weight");
   ("proj.bias", "proj.linear.bias")].

(** The body of the loop over [attr]: a tensor under the legacy key is
    reassembled and filed under the current key. *)
Definition legacy_to_current (config : Config) (prefix : string)
    (state_dict : gmap string Tensor) (attr : string) : gmap string Tensor :=
  let legacy_key := prefix +:+ "attn.linear." +:+ attr in
  let current_key := prefix +:+ "qkv.linear." +:+ attr in
  match state_dict !! legacy_key with
  | Some t => <[current_key := qkv_reassemble t config]> (delete legacy_key state_dict)
  | None => state_dict
  end.

(** The state dict that [CausalSelfAttention._load_from_state_dict] hands to
    its base class. *)
Definition CausalSelfAttention_state_dict (self : Module)
    (state_dict : gmap string Tensor) (prefix : string)
  : Result (gmap string Tensor) :=
  let state_dict :=
    map_old_state_dict_weights state_dict CausalSelfAttention_mapping prefix in
  (* For compatibility with older checkpoints *)
  let key := prefix +:+ "gating_factor" in
  state_dict ←
    match state_dict !! key with
    | Some t =>
        n ← size 1 t;
        config ← get_config self;
        if n =? n_head config
        then t' ← permute_0213 t; Ok (<[key := t']> state_dict)
        else Ok state_dict
    | None => Ok state_dict
    end;
  config ← get_config self;
  Ok (foldl (legacy_to_current config prefix) state_dict ["weight"; "bias"]).

(** For compatibility with base and/or legacy checkpoints. *)
Definition CausalSelfAttention_load_from_state_dict (self : Module)
    (state_dict : gmap string Tensor) (prefix : string) (args : LoadArgs)
  : Result (Module * gmap string Tensor * LoadArgs) :=
  state_dict ← CausalSelfAttention_state_dict self state_dict prefix;
  Ok (super_load_from_state_dict CausalSelfAttention self state_dict prefix args).

Definition GptNeoxMLP_mapping : list (string * string) :=
  [("fc.weight", "fc.linear.weight");
   ("fc.bias", "fc.linear.bias");
   ("proj.weight", "proj.linear.weight");
   ("proj.bias", "proj.linear.bias")].

(** For compatibility with base checkpoints. *)
Definition GptNeoxMLP_load_from_state_dict (self : Module)
    (state_dict : gmap string Tensor) (prefix : string) (args : LoadArgs)
  : Module * gmap string Tensor * LoadArgs :=
  let state_dict := map_old_state_dict_weights state_dict GptNeoxMLP_mapping prefix in
  super_load_from_state_dict GptNeoxMLP self state_dict prefix args.

Definition LLaMAMLP_mapping : list (string * string) :=
  [("fc_1.weight", "fc_1.linear.weight");
   ("fc_1.bias", "fc_1.linear.bias");
   ("fc_2.weight", "fc_2.linear.weight");
   ("fc_2.bias", "fc_2.linear.bias");
   ("proj.weight", "proj.linear.weight");
   ("proj.bias", "proj.linear.bias")].

(** For compatibility with base checkpoints. *)
Definition LLaMAMLP_load_from_state_dict (self : Module)
    (state_dict : gmap string Tensor) (prefix : string) (args : LoadArgs)
  : Module * gmap string Tensor * LoadArgs :=
  let state_dict := map_old_state_dict_weights state_dict LLaMAMLP_mapping prefix in
  super_load_from_state_dict LLaMAMLP self state_dict prefix args.

Definition LLaMAMoE_mapping : list (string * string) :=
  [("gate.weight", "gate.linear.weight")].

(** For compatibility with base checkpoints. *)
Definition LLaMAMoE_load_from_state_dict (self : Module)
    (state_dict : gmap string Tensor) (prefix : string) (args : LoadArgs)
  : Module * gmap string Tensor * LoadArgs :=
  let state_dict := map_old_state_dict_weights state_dict LLaMAMoE_mapping prefix in
  super_load_from_state_dict LLaMAMoE self state_dict prefix args.

(** ** Shapes used in the statements *)

(** Every vector along the last dimension of [t] has [n] entries. *)
Definition last_dim (n : nat) (t : Tensor) : Prop :=
  match t with
  | T1 v => length v = n
  | T2 m => Forall (fun r => length r = n) m
  | T3 a => Forall (Forall (fun r => length r = n)) a
  | T4 q => Forall (Forall (Forall (fun r => length r = n))) q
  end.

(** [g] applied to every vector along the last dimension. *)
Definition along_last (g : list R -> list R) (t : Tensor) : Tensor :=
  match t with
  | T1 v => T1 (g v)
  | T2 m => T2 (map g m)
  | T3 a => T3 (map (map g) a)
  | T4 q => T4 (map (map (map g)) q)
  end.

(** The shape invariant of an [AdapterV2Linear] with [out] output features:
    what [__init__] creates and what in-place updates of parameters keep. *)
Record AdapterV2Linear_wf (out : nat) (self linear : Module)
    (scale shift : list R) : Prop := {
  wf_linear : get_child self "linear" = Ok linear;
  wf_scale : exists p, get_parameter self "adapter_scale" = Ok p /\ data p = T1 scale;
  wf_shift : exists p, get_parameter self "adapter_bias" = Ok p /\ data p = T1 shift;
  wf_scale_len : length scale = out;
  wf_shift_len : length shift = out;
  wf_weight : exists p w, get_parameter linear "weight" = Ok p /\ data p = T2 w /\
                          length w = out;
  wf_bias : forall p, assoc "bias" (parameters linear) = Some p ->
                      exists v, data p = T1 v /\ length v = out;
}.

(** ** Vocabulary of the statements *)

(** The flag that the marking loop assigns to a parameter. *)
Definition marked (np : string * Param) : string * Param :=
  (np.1, {| data := data np.2; requires_grad := adapter_filter np.1 np.2 |}).

(** The adapter prefix attributes of an attention module: the prompt
    embedding, the gate and the cache slot. *)
Definition has_adapter_prefix (config : Config) (attn : Module) : Prop :=
  (exists wte p w,
     get_child attn "adapter_wte" = Ok wte /\ cls wte = Embedding /\
     get_parameter wte "weight" = Ok p /\ data p = T2 w /\
     length w = adapter_prompt_length config /\
     Forall (fun r => length r = n_embd config) w) /\
  get_parameter attn "gating_factor" =
    Ok {| data := zeros4 1 1 (n_head config) 1; requires_grad := true |} /\
  get_attr attn "adapter_kv_cache" = Ok ANone.

Definition no_adapter_prefix (attn : Module) : Prop :=
  get_child attn "adapter_wte" = Raise AttributeError /\
  get_parameter attn "gating_factor" = Raise AttributeError /\
  get_attr attn "adapter_kv_cache" = Raise AttributeError.

Definition is_cls (c c' : Cls) : bool :=
  match c, c' with
  | Linear, Linear | Embedding, Embedding | LayerNorm, LayerNorm
  | RMSNorm, RMSNorm | Identity, Identity | ModuleList, ModuleList
  | ModuleDict, ModuleDict | AdapterV2Linear, AdapterV2Linear | GPT, GPT
  | Block, Block | CausalSelfAttention, CausalSelfAttention
  | GptNeoxMLP, GptNeoxMLP | LLaMAMLP, LLaMAMLP | GemmaMLP, GemmaMLP
  | LLaMAMoE, LLaMAMoE => true
  | _, _ => false
  end.

(** [module.get_submodule(".".join(path))] *)
Fixpoint get_submodule (m : Module) (path : list string) : Result Module :=
  match path with
  | [] => Ok m
  | k :: path' => c ← get_child m k; get_submodule c path'
  end.

(** Some module of the tree is a [torch.nn.Linear]. *)
Fixpoint has_linear (m : Module) : bool :=
  match m with
  | Mod c _ _ _ ms =>
      is_cls c Linear ||
      (fix go (l : list (string * Module)) : bool :=
         match l with
         | [] => false
         | (_, sub) :: l' => has_linear sub || go l'
         end) ms
  end.

(** Every [torch.nn.Linear] below the root is the attribute [linear] of an
    [AdapterV2Linear]. *)
Fixpoint linears_wrapped (m : Module) : bool :=
  match m with
  | Mod c _ _ _ ms =>
      (fix go (l : list (string * Module)) : bool :=
         match l with
         | [] => true
         | (k, sub) :: l' =>
             (negb (is_cls (cls sub) Linear) ||
              (is_cls c AdapterV2Linear && String.eqb k "linear")) &&
             linears_wrapped sub && go l'
         end) ms
  end.

(** No attribute name on the way to a [torch.nn.Linear], and none of its
    parameter names, passes [adapter_filter]. *)
Fixpoint linear_names_clean (m : Module) : bool :=
  match m with
  | Mod c ps _ _ ms =>
      (negb (is_cls c Linear) || forallb (fun kp => negb (adapter_filter kp.1 kp.2)) ps) &&
      (fix go (l : list (string * Module)) : bool :=
         match l with
         | [] => true
         | (k, sub) :: l' =>
             (negb (has_linear sub) ||
              (negb (adapter_filter k sub) && linear_names_clean sub)) && go l'
         end) ms
  end.

Definition dot_free (s : string) : bool :=
  forallb (fun c => negb (Ascii.eqb c Str.dot)) (Str.chars s).

(** What every module built in this file satisfies: it is no bare
    [torch.nn.Linear], the projections below it are wrapped, and their names
    do not pass [adapter_filter]. *)
Definition built (m : Module) : Prop :=
  cls m <> Linear /\ linears_wrapped m = true /\ linear_names_clean m = true.

(** The module at [path] below [m] is an [AdapterV2Linear]. *)
Definition wrapped_at (m : Module) (path : list string) : Prop :=
  exists sub, get_submodule m path = Ok sub /\ cls sub = AdapterV2Linear.

(** The projections of the MLP selected by [mlp_class_name]. *)
Definition mlp_projections (config : Config) (mlp : Module) : Prop :=
  match mlp_class_name config with
  | Name_GptNeoxMLP =>
      cls mlp = GptNeoxMLP /\ wrapped_at mlp ["fc"] /\ wrapped_at mlp ["proj"]
  | Name_LLaMAMLP =>
      cls mlp = LLaMAMLP /\
      wrapped_at mlp ["fc_1"] /\ wrapped_at mlp ["fc_2"] /\ wrapped_at mlp ["proj"]
  | Name_GemmaMLP =>
      cls mlp = GemmaMLP /\
      wrapped_at mlp ["fc_1"] /\ wrapped_at mlp ["fc_2"] /\ wrapped_at mlp ["proj"]
  | Name_LLaMAMoE =>
      cls mlp = LLaMAMoE /\ wrapped_at mlp ["gate"] /\
      forall j, j < n_expert config ->
        wrapped_at mlp ["experts"; Str.of_nat j; "fc_1"] /\
        wrapped_at mlp ["experts"; Str.of_nat j; "fc_2"] /\
        wrapped_at mlp ["experts"; Str.of_nat j; "proj"]
  end.

(** One entry of a mapping applied to a state dict. *)
Definition move_key (prefix : string) (sd : gmap string Tensor)
    (entry : string * string) : gmap string Tensor :=
  match sd !! (prefix +:+ entry.1) with
  | Some t => <[prefix +:+ entry.2 := t]> (delete (prefix +:+ entry.1) sd)
  | None => sd
  end.

(** The qualified names a mapping mentions. *)
Definition mapping_keys (prefix : string) (mapping : list (string * string))
  : list string :=
  flat_map (fun e => [prefix +:+ e.1; prefix +:+ e.2]) mapping.

(** The same tensors stored under the old names: every mapped tensor found
    under its new name is filed under the old one. *)
Definition old_names (mapping : list (string * string)) (prefix : string)
    (sd : gmap string Tensor) : gmap string Tensor :=
  map_old_state_dict_weights sd (map (fun e => (e.2, e.1)) mapping) prefix.

(** [sd'] holds under its new name every tensor that [sd] held under an old
    name, and no longer holds the old name. *)
Definition remaps (mapping : list (string * string)) (prefix : string)
    (sd sd' : gmap string Tensor) : Prop :=
  forall old new t,
    In (old, new) mapping -> sd !! (prefix +:+ old) = Some t ->
    sd' !! (prefix +:+ new) = Some t /\ sd' !! (prefix +:+ old) = None.

(** The old and new names of a mapping are pairwise different, also when the
    mapping is read backwards. *)
Definition independent (mapping : list (string * string)) : Prop :=
  NoDup (mapping_keys "" mapping) /\
  NoDup (mapping_keys "" (map (fun e => (e.2, e.1)) mapping)).

(** The step that brings an older gate layout to the current one. *)
Definition gating_layout (config : Config) (prefix : string)
    (sd : gmap string Tensor) : Result (gmap string Tensor) :=
  match sd !! (prefix +:+ "gating_factor") with
  | Some t =>
      n ← size 1 t;
      if n =? n_head config
      then t' ← permute_0213 t; Ok (<[prefix +:+ "gating_factor" := t']> sd)
      else Ok sd
  | None => Ok sd
  end.

(** The hooks that only rename keys, with their mapping and class. *)
Definition renaming_hooks :
  list ((Module -> gmap string Tensor -> string -> LoadArgs ->
         Module * gmap string Tensor * LoadArgs) *
        list (string * string) * Cls) :=
  [(GPT_load_from_state_dict, GPT_mapping, GPT);
   (GptNeoxMLP_load_from_state_dict, GptNeoxMLP_mapping, GptNeoxMLP);
   (LLaMAMLP_load_from_state_dict, LLaMAMLP_mapping, LLaMAMLP);
   (LLaMAMoE_load_from_state_dict, LLaMAMoE_mapping, LLaMAMoE)].

(** A gate with one value per head in the older layout (1, n_head, 1, 1) and
    in the current layout (1, 1, n_head, 1). *)
Definition old_gate (vs : list R) : Tensor := T4 [map (fun v => [[v]]) vs].

Definition current_gate (vs : list R) : Tensor := T4 [[map (fun v => [v]) vs]].

(** The rows of the rope cache that [input_pos] selects exist. *)
Definition rope_selected (self : Module) (pos : list Z) : Prop :=
  (exists c cos, get_buffer self "cos" = Ok c /\ index_select 0 c pos = Ok cos) /\
  (exists s sin, get_buffer self "sin" = Ok s /\ index_select 0 s pos = Ok sin).

(** Piece [k] of a split into pieces of size [c]. *)
Definition piece {X} (c k : nat) (x : list (list X)) : list (list X) :=
  map (fun r => firstn c (skipn (k * c) r)) x.

(** [F] acts on each vector along the last dimension on its own: a 3-D
    result has a 3-D argument of the same extent along dimension 1, and [F]
    maps every piece of the argument to the same piece of the result. *)
Definition rowwise (F : Tensor -> Result Tensor) : Prop :=
  forall x b, F x = Ok (T3 b) ->
    exists a, x = T3 a /\ size1 a = size1 b /\
      forall c k, F (T3 (piece c k a)) = Ok (T3 (piece c k b)).

(** A tensor with its vectors along the last dimension emptied: two tensors
    with the same one have the same rank and agree on every dimension before
    the last. *)
Definition leading_dims (t : Tensor) : Tensor := along_last (fun _ => []) t.

(** An [AdapterV2Linear] from [inp] to [out] features, whatever the values
    of its parameters: the weight of the wrapped layer is [out] by [inp]. *)
Definition AdapterV2Linear_dims (inp out : nat) (self : Module) : Prop :=
  exists linear scale shift,
    AdapterV2Linear_wf out self linear scale shift /\
    exists p w, get_parameter linear "weight" = Ok p /\ data p = T2 w /\
                Forall (fun r => length r = inp) w /\
                weight_width linear w = Ok inp.

(** A norm layer as [config.norm_class(config.n_embd, eps=config.norm_eps)]
    builds it. *)
Definition is_norm (config : Config) (norm : Module) : Prop :=
  exists g g', norm_class config (n_embd config) (norm_eps config) g = Ok (norm, g').

(** The module at [path] below [m] has parameters, and all of them require
    gradient; the module at [path] has parameters, and none of them requires
    gradient. *)
Definition trainable_at (m : Module) (path : list string) : Prop :=
  exists sub, get_submodule m path = Ok sub /\ parameters sub <> [] /\
              Forall (fun kp => requires_grad kp.2 = true) (parameters sub).

Definition frozen_at (m : Module) (path : list string) : Prop :=
  exists sub, get_submodule m path = Ok sub /\ parameters sub <> [] /\
              Forall (fun kp => requires_grad kp.2 = false) (parameters sub).

(** The two configurations that the constructors refuse: a shared attention
    norm without parallel residual, and a sliding window whose layer stride
    is zero. *)
Definition unsupported_norm (config : Config) : bool :=
  negb (parallel_residual config) && shared_attention_norm config.

Definition zero_stride (config : Config) : bool :=
  match sliding_window_size config with
  | Some _ => sliding_window_layer_stride config =? 0
  | None => false
  end.

(** The projection wrapped by the [AdapterV2Linear] at [path] has a bias, a
    1-D parameter, exactly when [b] is true. *)
Definition linear_bias_is (b : bool) (m : Module) (path : list string) : Prop :=
  exists linear,
    get_submodule m (path ++ ["linear"]) = Ok linear /\
    if b then exists p v, get_parameter linear "bias" = Ok p /\ data p = T1 v
    else get_parameter linear "bias" = Raise AttributeError.

(** The entries of a tensor, in order. *)
Definition entries (t : Tensor) : list R :=
  match t with
  | T1 v => v
  | T2 m => concat m
  | T3 a => concat (concat a)
  | T4 q => concat (concat (concat q))
  end.

(** What a bias of zero and a scale of one make of an entry [v] of
    [linear(x)]: [1 * (v + 0)]. *)
Definition unit_scale_shift (v : R) : R := mul one (add v zero).

(** * Proofs *)

(** ** Strings *)

Lemma str_append_cons (c : ascii) (a b : string) :
  String c a +:+ b = String c (a +:+ b).
Proof. reflexivity. Qed.

Lemma str_append_nil_l (s : string) : "" +:+ s = s.
Proof. reflexivity. Qed.

Lemma str_append_nil_r (s : string) : s +:+ "" = s.
Proof.
  induction s as [|c s IH]; [reflexivity|]. now rewrite str_append_cons, IH.
Qed.

Lemma str_append_assoc (a b c : string) : (a +:+ b) +:+ c = a +:+ (b +:+ c).
Proof.
  induction a as [|x a IH]; [reflexivity|]. now rewrite !str_append_cons, IH.
Qed.

Lemma str_append_inj_l (p a b : string) : p +:+ a = p +:+ b -> a = b.
Proof.
  induction p as [|c p IH]; [trivial|].
  rewrite !str_append_cons. intros H. injection H as H. auto.
Qed.

Lemma str_chars_app (a b : string) : Str.chars (a +:+ b) = Str.chars a ++ Str.chars b.
Proof.
  induction a as [|c a IH]; [reflexivity|].
  rewrite str_append_cons. cbn. now rewrite IH.
Qed.

Lemma str_prefix_spec (s key : string) :
  String.prefix s key = true <-> exists r, key = s +:+ r.
Proof.
  revert key. induction s as [|c s IH]; intros key.
  - cbn. split; [intros _; now exists key | now destruct key].
  - destruct key as [|d key]; cbn.
    + split; [discriminate | intros [r Hr]; discriminate].
    + destruct (ascii_dec c d) as [->|Hne].
      * rewrite IH. split; intros [r Hr]; exists r.
        -- now rewrite Hr.
        -- now injection Hr.
      * split; [discriminate|]. intros [r Hr]. injection Hr as Hc _.
        now destruct Hne.
Qed.

(** [contains] is substring occurrence. *)
Lemma str_contains_spec (s key : string) :
  Str.contains s key = true <-> exists a b, key = a +:+ s +:+ b.
Proof.
  induction key as [|c key IH]; cbn [Str.contains].
  - rewrite orb_false_r, str_prefix_spec. split.
    + intros [r Hr]. now exists "", r.
    + intros [a [b Hab]]. destruct a; [now exists b|discriminate].
  - rewrite orb_true_iff, str_prefix_spec, IH. split.
    + intros [[r Hr]|[a [b Hab]]].
      * now exists "", r.
      * exists (String c a), b. now rewrite Hab.
    + intros [a [b Hab]]. destruct a as [|d a].
      * left. now exists b.
      * right. exists a, b. rewrite str_append_cons in Hab. now injection Hab.
Qed.

(** ** The result monad *)

Lemma mapM_Ok_map {A B} (f : A -> Result B) (g : A -> B) (l : list A) :
  Forall (fun x => f x = Ok (g x)) l -> mapM f l = Ok (map g l).
Proof.
  induction 1 as [|x l Hx _ IH]; [reflexivity|].
  cbn. rewrite Hx. cbn. rewrite IH. reflexivity.
Qed.

Lemma mapM_map_Ok {A B C} (f : B -> Result C) (h : A -> B) (g : A -> C) (l : list A) :
  Forall (fun x => f (h x) = Ok (g x)) l -> mapM f (map h l) = Ok (map g l).
Proof.
  induction 1 as [|x l Hx _ IH]; [reflexivity|].
  cbn. rewrite Hx. cbn. rewrite IH. reflexivity.
Qed.

Lemma mapM_Ok_Forall2 {A B} (f : A -> Result B) (l : list A) (k : list B) :
  mapM f l = Ok k -> Forall2 (fun x y => f x = Ok y) l k.
Proof.
  revert k. induction l as [|x l IH]; intros k; cbn.
  - intros [= <-]. constructor.
  - destruct (f x) as [y|e] eqn:Hx; cbn; [|discriminate].
    destruct (mapM f l) as [k'|e]; cbn; [|discriminate].
    intros [= <-]. constructor; auto.
Qed.

Lemma mapM_Ok_Forall {A B} (f : A -> Result B) (P : B -> Prop) l k :
  mapM f l = Ok k -> (forall x y, f x = Ok y -> P y) -> Forall P k.
Proof.
  intros H HP. apply mapM_Ok_Forall2 in H.
  induction H; constructor; eauto.
Qed.

(** ** Vectors along the last dimension *)

Lemma rows_map_last_dim (f : list R -> Result (list R)) (n : nat) (x y : Tensor) :
  (forall r r', f r = Ok r' -> length r' = n) ->
  rows_map f x = Ok y -> last_dim n y.
Proof.
  intros Hf. destruct x as [v|m|a|q]; cbn.
  - destruct (f v) as [r'|] eqn:Hv; cbn; [|discriminate]. intros [= <-]. cbn. eauto.
  - destruct (mapM f m) as [k|] eqn:Hm; cbn; [|discriminate]. intros [= <-]. cbn.
    eapply mapM_Ok_Forall; eauto.
  - destruct (mapM (mapM f) a) as [k|] eqn:Hm; cbn; [|discriminate]. intros [= <-]. cbn.
    eapply mapM_Ok_Forall; [exact Hm|]. intros ? ? ?.
    eapply mapM_Ok_Forall; eauto.
  - destruct (mapM (mapM (mapM f)) q) as [k|] eqn:Hm; cbn; [|discriminate].
    intros [= <-]. cbn.
    eapply mapM_Ok_Forall; [exact Hm|]. intros ? ? ?.
    eapply mapM_Ok_Forall; [eassumption|]. intros ? ? ?.
    eapply mapM_Ok_Forall; eauto.
Qed.

Lemma rows_map_along_last (f : list R -> Result (list R)) (g : list R -> list R)
    (n : nat) (y : Tensor) :
  (forall r, length r = n -> f r = Ok (g r)) ->
  last_dim n y -> rows_map f y = Ok (along_last g y).
Proof.
  intros Hf. destruct y as [v|m|a|q]; cbn; intros Hy.
  - now rewrite Hf.
  - erewrite mapM_Ok_map; [reflexivity|]. eapply Forall_impl; [exact Hy|]. auto.
  - erewrite mapM_Ok_map; [reflexivity|]. eapply Forall_impl; [exact Hy|].
    intros m Hm. cbn. apply mapM_Ok_map. eapply Forall_impl; [exact Hm|]. auto.
  - erewrite mapM_Ok_map; [reflexivity|]. eapply Forall_impl; [exact Hy|].
    intros a Ha. cbn. apply mapM_Ok_map. eapply Forall_impl; [exact Ha|].
    intros m Hm. cbn. apply mapM_Ok_map. eapply Forall_impl; [exact Hm|]. auto.
Qed.

Lemma along_last_last_dim (g : list R -> list R) (n k : nat) (y : Tensor) :
  (forall r, length r = n -> length (g r) = k) ->
  last_dim n y -> last_dim k (along_last g y).
Proof.
  intros Hg. destruct y as [v|m|a|q]; cbn; intros Hy; auto.
  - rewrite Forall_map. eapply Forall_impl; [exact Hy|]. auto.
  - rewrite Forall_map. eapply Forall_impl; [exact Hy|]. intros m Hm. cbn.
    rewrite Forall_map. eapply Forall_impl; [exact Hm|]. auto.
  - rewrite Forall_map. eapply Forall_impl; [exact Hy|]. intros a Ha. cbn.
    rewrite Forall_map. eapply Forall_impl; [exact Ha|]. intros m Hm. cbn.
    rewrite Forall_map. eapply Forall_impl; [exact Hm|]. auto.
Qed.

Lemma along_last_compose (g1 g2 : list R -> list R) (y : Tensor) :
  along_last g2 (along_last g1 y) = along_last (fun r => g2 (g1 r)) y.
Proof.
  destruct y; cbn; f_equal; rewrite ?map_map; try reflexivity.
  - apply map_ext. intros. now rewrite map_map.
  - apply map_ext. intros. rewrite map_map. apply map_ext. intros. now rewrite map_map.
Qed.

Lemma along_last_ext (g1 g2 : list R -> list R) (n : nat) (y : Tensor) :
  (forall r, length r = n -> g1 r = g2 r) ->
  last_dim n y -> along_last g1 y = along_last g2 y.
Proof.
  intros Hg. destruct y as [v|m|a|q]; cbn; intros Hy; f_equal; auto.
  - apply map_ext_Forall. eapply Forall_impl; [exact Hy|]. auto.
  - apply map_ext_Forall. eapply Forall_impl; [exact Hy|]. intros m Hm. cbn.
    apply map_ext_Forall. eapply Forall_impl; [exact Hm|]. auto.
  - apply map_ext_Forall. eapply Forall_impl; [exact Hy|]. intros a Ha. cbn.
    apply map_ext_Forall. eapply Forall_impl; [exact Ha|]. intros m Hm. cbn.
    apply map_ext_Forall. eapply Forall_impl; [exact Hm|]. auto.
Qed.


Lemma broadcast_row_same (op : R -> R -> R) (u v : list R) :
  length u = length v -> broadcast_row op u v = Ok (zip_with op u v).
Proof. intros H. unfold broadcast_row. now rewrite H, Nat.eqb_refl. Qed.

(** ** Random initial weights *)

Lemma draw_vector_ok (n : nat) (g : Rng) :
  exists v g', draw_vector n g = Ok (v, g') /\ length v = n.
Proof.
  revert g. induction n as [|n IH]; intros g; cbn.
  - now exists [], g.
  - destruct (draw g) as [x g1]. destruct (IH g1) as (v & g2 & Hv & Hlen).
    exists (x :: v), g2. unfold mbind, Init_bind. rewrite Hv. cbn. auto.
Qed.

Lemma draw_matrix_ok (rows cols : nat) (g : Rng) :
  exists m g', draw_matrix rows cols g = Ok (m, g') /\ length m = rows /\
               Forall (fun r => length r = cols) m.
Proof.
  revert g. induction rows as [|rows IH]; intros g; cbn.
  - exists [], g. auto.
  - destruct (draw_vector_ok cols g) as (v & g1 & Hv & Hlen).
    destruct (IH g1) as (m & g2 & Hm & Hrows & Hcols).
    exists (v :: m), g2. unfold mbind, Init_bind. rewrite Hv, Hm. cbn. auto.
Qed.

(** [torch.nn.Linear] always constructs, with a weight of [out_features]
    rows and, when asked, a bias of [out_features] entries. *)
Lemma Linear_init_ok (i o : nat) (b : bool) (g : Rng) :
  exists w bs g',
    Linear_init i o b g =
      Ok (Mod Linear (("weight", {| data := T2 w; requires_grad := true |}) :: bs) []
              [("in_features", ANat i); ("out_features", ANat o)] [], g') /\
    length w = o /\ Forall (fun r => length r = i) w /\
    (if b then exists v, bs = [("bias", {| data := T1 v; requires_grad := true |})] /\
                         length v = o
     else bs = []).
Proof.
  unfold Linear_init. destruct (draw_matrix_ok o i g) as (w & g1 & Hw & Hlen & Hcols).
  destruct b.
  - destruct (draw_vector_ok o g1) as (v & g2 & Hv & Hvlen).
    exists w, [("bias", {| data := T1 v; requires_grad := true |})], g2.
    unfold mbind, Init_bind. rewrite Hw. cbn. rewrite Hv. cbn. eauto 10.
  - exists w, [], g1. unfold mbind, Init_bind. rewrite Hw. cbn. auto.
Qed.

Lemma AdapterV2Linear_init_ok (i o : nat) (b : bool) (g : Rng) :
  exists linear g',
    AdapterV2Linear_init i o b g =
      Ok (Mod AdapterV2Linear
              [("adapter_bias", {| data := zeros1 o; requires_grad := false |});
               ("adapter_scale", {| data := ones1 o; requires_grad := false |})]
              [] [] [("linear", linear)], g') /\
    Linear_init i o b g = Ok (linear, g').
Proof.
  unfold AdapterV2Linear_init.
  destruct (Linear_init_ok i o b g) as (w & bs & g1 & Hlin & _).
  eexists _, g1. unfold mbind, Init_bind. rewrite Hlin. cbn. auto.
Qed.

(** ** [AdapterV2Linear]: shapes *)

Lemma AdapterV2Linear_init_wf (i o : nat) (b : bool) (g g' : Rng) (m : Module) :
  AdapterV2Linear_init i o b g = Ok (m, g') ->
  exists linear, AdapterV2Linear_wf o m linear (repeat one o) (repeat zero o).
Proof.
  destruct (AdapterV2Linear_init_ok i o b g) as (linear & g1 & Hm & Hlin).
  rewrite Hm. intros [= <- <-]. exists linear.
  destruct (Linear_init_ok i o b g) as (w & bs & g2 & Hlin' & Hw & _ & Hb).
  rewrite Hlin in Hlin'. injection Hlin' as -> _.
  split; cbn; try reflexivity; try (eexists; split; reflexivity);
    try apply repeat_length.
  - now exists {| data := T2 w; requires_grad := true |}, w.
  - intros p. destruct b.
    + destruct Hb as (v & -> & Hv). cbn. intros [= <-]. now exists v.
    + rewrite Hb. discriminate.
Qed.

Lemma Linear_forward_last_dim (out : nat) (self linear : Module)
    (scale shift : list R) (x y : Tensor) :
  AdapterV2Linear_wf out self linear scale shift ->
  Linear_forward linear x = Ok y -> last_dim out y.
Proof.
  intros [_ _ _ _ _ (p & w & Hp & Hw & Hlen) Hbias].
  unfold Linear_forward. rewrite Hp. cbn. rewrite Hw. cbn.
  destruct (weight_width linear w) as [width|]; cbn; [|discriminate].
  destruct (assoc "bias" (parameters linear)) as [b|] eqn:Hb.
  - destruct (Hbias b eq_refl) as (v & Hv & Hvlen). rewrite Hv. cbn.
    apply rows_map_last_dim. intros r r'.
    destruct (_ && forallb _ w); [|discriminate].
    rewrite broadcast_row_same by (rewrite length_map; lia).
    intros [= <-]. rewrite length_zip_with, length_map. lia.
  - apply rows_map_last_dim. intros r r'.
    destruct (_ && forallb _ w); [|discriminate].
    intros [= <-]. now rewrite length_map.
Qed.

(** ** [AdapterV2Linear.forward] *)

(** The broadcasts of [forward] resolve to entrywise operations on the
    output features. *)
Lemma AdapterV2Linear_forward_rows (out : nat) (self linear : Module)
    (scale shift : list R) (x : Tensor) :
  AdapterV2Linear_wf out self linear scale shift ->
  AdapterV2Linear_forward self x =
    (y ← Linear_forward linear x;
     Ok (along_last (fun r => zip_with mul scale (zip_with add r shift)) y)).
Proof.
  intros Hwf.
  pose proof (fun y => Linear_forward_last_dim out self linear scale shift x y Hwf)
    as Hout.
  destruct Hwf as [Hlin (ps & Hps & Hsd) (pb & Hpb & Hbd) Hslen Hblen _ _].
  unfold AdapterV2Linear_forward. rewrite Hps, Hlin, Hpb. cbn.
  rewrite Hsd, Hbd. cbn.
  destruct (Linear_forward linear x) as [y|e]; cbn; [|reflexivity].
  specialize (Hout y eq_refl).
  unfold tensor_add_vec.
  rewrite (rows_map_along_last _ (fun r => zip_with add r shift) out) by
    (auto; intros r Hr; apply broadcast_row_same; lia).
  cbn. unfold vec_mul_tensor.
  rewrite (rows_map_along_last _ (fun r => zip_with mul scale r) out).
  - now rewrite along_last_compose.
  - intros r Hr. apply broadcast_row_same. lia.
  - eapply along_last_last_dim; [|exact Hout].
    intros r Hr. rewrite length_zip_with. lia.
Qed.



(** C1. For every input tensor [x], [AdapterV2Linear.forward(x)] is
    [adapter_scale * (linear(x) + adapter_bias)]: on every vector [r] of
    output features of the wrapped projection, entry [j] of the result is
    [adapter_scale[j] * (r[j] + adapter_bias[j])], the bias being added before
    the scale is applied; when the projection raises, so does the wrapper. *)
Theorem AdapterV2Linear_forward_scale_bias (out : nat) (self linear : Module)
    (scale shift : list R) (x : Tensor) :
  AdapterV2Linear_wf out self linear scale shift ->
  AdapterV2Linear_forward self x =
    (y ← Linear_forward linear x;
     Ok (along_last (fun r => zip_with mul scale (zip_with add r shift)) y)) /\
  (forall (r : list R) (j : nat) (s_j r_j b_j : R),
     scale !! j = Some s_j -> r !! j = Some r_j -> shift !! j = Some b_j ->
     zip_with mul scale (zip_with add r shift) !! j = Some (mul s_j (add r_j b_j))).
Proof.
  intros Hwf. split.
  - now apply (AdapterV2Linear_forward_rows out).
  - intros r j s_j r_j b_j Hs Hr Hb.
    rewrite !lookup_zip_with, Hs, Hr, Hb. reflexivity.
Qed.

(** ** Name/value tables *)

Lemma assoc_set_eq {A} (k : string) (a b : A) (l : list (string * A)) :
  assoc k l = Some b -> assoc k (assoc_set k a l) = Some a.
Proof.
  induction l as [|[k' a'] l IH]; cbn; [discriminate|].
  destruct (String.eqb k k') eqn:E; cbn; rewrite E; auto.
Qed.

Lemma assoc_set_ne {A} (k k' : string) (a : A) (l : list (string * A)) :
  k <> k' -> assoc k' (assoc_set k a l) = assoc k' l.
Proof.
  intros Hne. induction l as [|[k1 a1] l IH]; cbn; [reflexivity|].
  destruct (String.eqb k k1) eqn:E; cbn.
  - apply String.eqb_eq in E as <-.
    now destruct (String.eqb k' k) eqn:E'; [apply String.eqb_eq in E' as ->|].
  - now rewrite IH.
Qed.

Lemma assoc_set_same {A} (k : string) (a : A) (l : list (string * A)) :
  assoc k l = Some a -> assoc_set k a l = l.
Proof.
  induction l as [|[k' a'] l IH]; cbn; [reflexivity|].
  destruct (String.eqb k k') eqn:E.
  - now intros [= ->].
  - intros H. now rewrite IH.
Qed.

(** ** [AdapterV2Linear.reset_parameters] *)

Lemma Forall_eq_repeat {A} (c : A) (n : nat) : Forall (eq c) (repeat c n).
Proof. induction n; cbn; constructor; auto. Qed.

Lemma Forall_eq_map_const {A B} (c : A) (l : list B) :
  Forall (eq c) (map (fun _ => c) l).
Proof. induction l; cbn; constructor; auto. Qed.

Lemma tensor_map_const_twice (c : R) (t : Tensor) :
  tensor_map (fun _ => c) (tensor_map (fun _ => c) t) = tensor_map (fun _ => c) t.
Proof.
  destruct t; cbn; f_equal; rewrite ?map_map; try reflexivity.
  - apply map_ext. intros. now rewrite map_map.
  - apply map_ext. intros. rewrite map_map. apply map_ext. intros. now rewrite map_map.
  - apply map_ext. intros. rewrite map_map. apply map_ext. intros. rewrite map_map.
    apply map_ext. intros. now rewrite map_map.
Qed.

Lemma reset_parameters_unfold (self self' : Module) :
  AdapterV2Linear_reset_parameters self = Ok self' ->
  exists c ps bs ats ms pb psc,
    self = Mod c ps bs ats ms /\
    assoc "adapter_bias" ps = Some pb /\
    assoc "adapter_scale" ps = Some psc /\
    self' = Mod c (assoc_set "adapter_scale" (init_ones_ psc)
                     (assoc_set "adapter_bias" (init_zeros_ pb) ps)) bs ats ms.
Proof.
  destruct self as [c ps bs ats ms].
  unfold AdapterV2Linear_reset_parameters, get_parameter.
  cbn [parameters set_parameter].
  destruct (assoc "adapter_bias" ps) as [pb|] eqn:Hb; cbn; [|discriminate].
  rewrite assoc_set_ne by discriminate.
  destruct (assoc "adapter_scale" ps) as [psc|] eqn:Hs; cbn; [|discriminate].
  intros [= <-]. now exists c, ps, bs, ats, ms, pb, psc.
Qed.

Lemma reset_parameters_wf (out : nat) (self linear : Module) (scale shift : list R) :
  AdapterV2Linear_wf out self linear scale shift ->
  exists self',
    AdapterV2Linear_reset_parameters self = Ok self' /\
    AdapterV2Linear_wf out self' linear
      (map (fun _ => one) scale) (map (fun _ => zero) shift).
Proof.
  intros [Hlin (psc & Hps & Hsd) (pb & Hpb & Hbd) Hslen Hblen Hw Hbias].
  destruct self as [c ps bs ats ms].
  unfold get_parameter in Hps, Hpb. cbn [parameters] in Hps, Hpb.
  destruct (assoc "adapter_scale" ps) as [psc'|] eqn:Hs; [|discriminate].
  destruct (assoc "adapter_bias" ps) as [pb'|] eqn:Hb; [|discriminate].
  injection Hps as ->. injection Hpb as ->.
  eexists. split.
  - unfold AdapterV2Linear_reset_parameters, get_parameter. cbn [parameters].
    rewrite Hb. cbn [mbind Result_bind of_option set_parameter parameters].
    rewrite (assoc_set_ne "adapter_bias" "adapter_scale") by discriminate.
    rewrite Hs. reflexivity.
  - split; auto; try now rewrite length_map.
    + eexists. split.
      * unfold get_parameter. cbn [parameters].
        erewrite assoc_set_eq; [reflexivity|].
        rewrite assoc_set_ne by discriminate. exact Hs.
      * cbn. now rewrite Hsd.
    + eexists. split.
      * unfold get_parameter. cbn [parameters].
        rewrite assoc_set_ne by discriminate.
        erewrite assoc_set_eq; [reflexivity|exact Hb].
      * cbn. now rewrite Hbd.
Qed.

Lemma zip_with_ones_zeros (scale shift r : list R) :
  Forall (eq one) scale -> Forall (eq zero) shift ->
  length scale = length r -> length shift = length r ->
  zip_with mul scale (zip_with add r shift) = map unit_scale_shift r.
Proof.
  intros Hs. revert shift r.
  induction Hs as [|s scale <- _ IH]; intros shift r Hb Hl1 Hl2.
  - destruct r; [reflexivity|discriminate].
  - destruct r as [|a r]; [discriminate|].
    destruct Hb as [|b shift <- Hb]; [discriminate|].
    cbn. f_equal. apply IH; auto.
Qed.

Lemma along_last_map (f : R -> R) (y : Tensor) :
  along_last (map f) y = tensor_map f y.
Proof. now destruct y. Qed.

(** With a scale of ones and a bias of zeros the wrapper returns the output
    of the wrapped projection with [1 * (v + 0)] for every entry [v]. *)
Lemma AdapterV2Linear_forward_ones_zeros (out : nat) (self linear : Module)
    (scale shift : list R) (x : Tensor) :
  AdapterV2Linear_wf out self linear scale shift ->
  Forall (eq one) scale -> Forall (eq zero) shift ->
  AdapterV2Linear_forward self x =
    tensor_map unit_scale_shift <$> Linear_forward linear x.
Proof.
  intros Hwf Hs Hb.
  rewrite (AdapterV2Linear_forward_rows out self linear scale shift) by exact Hwf.
  destruct (Linear_forward linear x) as [y|e] eqn:Hy; cbn; [|reflexivity].
  f_equal. pose proof (Linear_forward_last_dim _ _ _ _ _ _ _ Hwf Hy) as Hout.
  rewrite <- along_last_map. apply (along_last_ext _ _ out); [|exact Hout].
  intros r Hr. destruct Hwf. apply zip_with_ones_zeros; auto; lia.
Qed.

Lemma map_fixed {A} (f : A -> A) (P : A -> Prop) (l : list A) :
  (forall a, f a = a <-> P a) -> map f l = l <-> Forall P l.
Proof.
  intros Hf. induction l as [|a l IH]; cbn.
  - split; [constructor|reflexivity].
  - rewrite Forall_cons, <- IH, <- Hf. split.
    + now intros [= -> ->].
    + now intros [-> ->].
Qed.

Lemma tensor_map_fixed (f : R -> R) (y : Tensor) :
  tensor_map f y = y <-> Forall (fun v => f v = v) (entries y).
Proof.
  assert (H1 : forall v : list R, map f v = v <-> Forall (fun a => f a = a) v).
  { intros v. now apply map_fixed. }
  assert (H2 : forall m : list (list R),
             map (map f) m = m <-> Forall (fun a => f a = a) (concat m)).
  { intros m. rewrite Forall_concat. now apply map_fixed. }
  assert (H3 : forall a : list (list (list R)),
             map (map (map f)) a = a <-> Forall (fun a => f a = a) (concat (concat a))).
  { intros a. rewrite Forall_concat, Forall_concat. apply map_fixed.
    intros m. rewrite <- Forall_concat. apply H2. }
  assert (H4 : forall q : list (list (list (list R))),
             map (map (map (map f))) q = q <->
             Forall (fun a => f a = a) (concat (concat (concat q)))).
  { intros q. rewrite Forall_concat, Forall_concat, Forall_concat. apply map_fixed.
    intros a. rewrite <- Forall_concat, <- Forall_concat. apply H3. }
  destruct y as [v|m|a|q]; cbn [tensor_map entries].
  - rewrite <- H1. split; [now intros [= ->]|now intros ->].
  - rewrite <- H2. split; [now intros [= ->]|now intros ->].
  - rewrite <- H3. split; [now intros [= ->]|now intros ->].
  - rewrite <- H4. split; [now intros [= ->]|now intros ->].
Qed.

(** C8, as the code has it. At construction, and again after any call to
    [reset_parameters] (which sets [adapter_bias] to zeros and
    [adapter_scale] to ones), [forward(x)] is the result of the wrapped
    [linear(x)] with [1 * (v + 0)] in place of every entry [v], and raises
    what [linear(x)] raises. It is therefore [linear(x)] itself exactly when
    [1 * (v + 0) = v] for every entry [v] of [linear(x)], which floating-point
    arithmetic grants for every [v] but the negative zero, returned as the
    positive zero. [reset_parameters] is idempotent. *)
Theorem AdapterV2Linear_identity_wrapper :
  (forall i o b g m g',
     AdapterV2Linear_init i o b g = Ok (m, g') ->
     exists linear,
       get_child m "linear" = Ok linear /\
       forall x, AdapterV2Linear_forward m x =
                 tensor_map (fun v => mul one (add v zero)) <$> Linear_forward linear x) /\
  (forall out self linear scale shift,
     AdapterV2Linear_wf out self linear scale shift ->
     exists self',
       AdapterV2Linear_reset_parameters self = Ok self' /\
       get_child self' "linear" = Ok linear /\
       forall x, AdapterV2Linear_forward self' x =
                 tensor_map (fun v => mul one (add v zero)) <$> Linear_forward linear x) /\
  (forall y,
     tensor_map (fun v => mul one (add v zero)) y = y <->
     Forall (fun v => mul one (add v zero) = v) (entries y)) /\
  (forall self self',
     AdapterV2Linear_reset_parameters self = Ok self' ->
     AdapterV2Linear_reset_parameters self' = Ok self').
Proof.
  split; [|split; [|split]].
  - intros i o b g m g' Hinit.
    destruct (AdapterV2Linear_init_wf _ _ _ _ _ _ Hinit) as (linear & Hwf).
    exists linear. split; [apply Hwf|]. intros x.
    apply (AdapterV2Linear_forward_ones_zeros o _ _ (repeat one o) (repeat zero o)); auto.
    + apply Forall_eq_repeat.
    + apply Forall_eq_repeat.
  - intros out self linear scale shift Hwf.
    destruct (reset_parameters_wf _ _ _ _ _ Hwf) as (self' & Hreset & Hwf').
    exists self'. split; [exact Hreset|]. split; [apply Hwf'|]. intros x.
    eapply AdapterV2Linear_forward_ones_zeros; eauto.
    + apply Forall_eq_map_const.
    + apply Forall_eq_map_const.
  - intros y. apply tensor_map_fixed.
  - intros self self' Hreset.
    apply reset_parameters_unfold in Hreset
      as (c & ps & bs & ats & ms & pb & psc & -> & Hb & Hs & ->).
    assert (Hb' : assoc "adapter_bias"
                    (assoc_set "adapter_scale" (init_ones_ psc)
                       (assoc_set "adapter_bias" (init_zeros_ pb) ps))
                  = Some (init_zeros_ pb)).
    { rewrite assoc_set_ne by discriminate. now apply assoc_set_eq with pb. }
    assert (Hs' : assoc "adapter_scale"
                    (assoc_set "adapter_scale" (init_ones_ psc)
                       (assoc_set "adapter_bias" (init_zeros_ pb) ps))
                  = Some (init_ones_ psc)).
    { apply assoc_set_eq with psc. now rewrite assoc_set_ne by discriminate. }
    unfold AdapterV2Linear_reset_parameters, get_parameter. cbn [parameters].
    rewrite Hb'. cbn [mbind Result_bind of_option set_parameter parameters].
    assert (Hz : init_zeros_ (init_zeros_ pb) = init_zeros_ pb).
    { unfold init_zeros_. cbn. now rewrite tensor_map_const_twice. }
    assert (Ho : init_ones_ (init_ones_ psc) = init_ones_ psc).
    { unfold init_ones_. cbn. now rewrite tensor_map_const_twice. }
    rewrite Hz. rewrite (assoc_set_same _ _ _ Hb'). rewrite Hs'.
    cbn [mbind Result_bind of_option set_parameter parameters].
    rewrite Ho. now rewrite (assoc_set_same _ _ _ Hs').
Qed.

(** ** Module trees *)

Lemma Module_ind (P : Module -> Prop) :
  (forall c ps bs ats ms, Forall (fun km => P km.2) ms -> P (Mod c ps bs ats ms)) ->
  forall m, P m.
Proof.
  intros H. fix IH 1. intros [c ps bs ats ms]. apply H.
  induction ms as [|[k m] ms IHms]; constructor; [apply IH|exact IHms].
Qed.

Lemma named_modules_unfold (prefix : string) c ps bs ats ms :
  named_modules prefix (Mod c ps bs ats ms) =
    (prefix, Mod c ps bs ats ms) ::
    flat_map (fun km => named_modules (qualify prefix km.1) km.2) ms.
Proof.
  cbn [named_modules]. f_equal.
  induction ms as [|[k m] ms IH]; [reflexivity|]. cbn [flat_map fst snd].
  now rewrite <- IH.
Qed.

Lemma mark_from_unfold (prefix : string) c ps bs ats ms :
  mark_from prefix (Mod c ps bs ats ms) =
    Mod c
        (map (fun kp => (kp.1, {| data := data kp.2;
                                   requires_grad := adapter_filter (qualify prefix kp.1) kp.2 |}))
             ps)
        bs ats
        (map (fun km => (km.1, mark_from (qualify prefix km.1) km.2)) ms).
Proof.
  cbn [mark_from]. f_equal.
  - apply map_ext. now intros [k q].
  - induction ms as [|[k m] ms IH]; [reflexivity|]. cbn [map fst snd].
    now rewrite <- IH.
Qed.

Lemma named_parameters_unfold (prefix : string) c ps bs ats ms :
  named_parameters prefix (Mod c ps bs ats ms) =
    map (fun kp => (qualify prefix kp.1, kp.2)) ps ++
    flat_map (fun km => named_parameters (qualify prefix km.1) km.2) ms.
Proof.
  unfold named_parameters. rewrite named_modules_unfold.
  cbn [flat_map parameters]. f_equal.
  - apply map_ext. now intros [k q].
  - induction ms as [|[k m] ms IH]; [reflexivity|].
    cbn [flat_map fst snd]. rewrite flat_map_app. now rewrite IH.
Qed.

(** After the traversal every parameter carries the flag computed from its
    own qualified name, as in the loop over [named_parameters]. *)
Lemma named_parameters_mark_from (prefix : string) (m : Module) :
  named_parameters prefix (mark_from prefix m) =
    map marked (named_parameters prefix m).
Proof.
  revert prefix. induction m as [c ps bs ats ms IH] using Module_ind.
  intros prefix. rewrite mark_from_unfold, !named_parameters_unfold.
  rewrite map_app. f_equal.
  - rewrite !map_map. apply map_ext. now intros [k q].
  - induction IH as [|[k m] ms Hm _ IHms]; [reflexivity|].
    cbn [map flat_map fst snd]. rewrite map_app. f_equal; [apply Hm|apply IHms].
Qed.

(** ** [adapter_filter] *)

Lemma adapter_filter_spec {V} (key : string) (value : V) :
  adapter_filter key value = true <->
  exists s, In s adapter_substrings /\ exists a b, key = a +:+ s +:+ b.
Proof.
  unfold adapter_filter. rewrite existsb_exists.
  split; intros (s & Hs & H); exists s; split; auto; now apply str_contains_spec.
Qed.

(** ** [CausalSelfAttention.__init__] *)

Lemma Embedding_init_ok (num dim : nat) (g : Rng) :
  exists w g',
    Embedding_init num dim g =
      Ok (Mod Embedding [("weight", {| data := T2 w; requires_grad := true |})] []
              [("num_embeddings", ANat num); ("embedding_dim", ANat dim)] [], g') /\
    length w = num /\ Forall (fun r => length r = dim) w.
Proof.
  unfold Embedding_init. destruct (draw_matrix_ok num dim g) as (w & g1 & Hw & Hl & Hc).
  exists w, g1. unfold mbind, Init_bind. rewrite Hw. cbn. auto.
Qed.

Lemma CausalSelfAttention_init_ok (config : Config) (block_idx : nat) (g : Rng) :
  sliding_window_size config = None \/ sliding_window_layer_stride config <> 0 ->
  exists qkv proj adapter_modules adapter_parameters adapter_attrs sliding g1 g2 g3,
    AdapterV2Linear_init (n_embd config)
      ((n_head config + 2 * n_query_groups config) * head_size config)
      (bias config || attn_bias config) g = Ok (qkv, g1) /\
    AdapterV2Linear_init (head_size config * n_head config) (n_embd config)
      (bias config) g1 = Ok (proj, g2) /\
    CausalSelfAttention_init config block_idx g =
      Ok (Mod CausalSelfAttention adapter_parameters []
              ([("kv_cache", ANone)] ++ adapter_attrs ++
               [("block_idx", ANat block_idx);
                ("apply_sliding_window_attention", ABool sliding);
                ("config", AConfig config)])
              ([("qkv", qkv); ("proj", proj)] ++ adapter_modules), g3) /\
    (if adapter_start_layer config <=? block_idx
     then exists wte,
         Embedding_init (adapter_prompt_length config) (n_embd config) g2 = Ok (wte, g3) /\
         adapter_modules = [("adapter_wte", wte)] /\
         adapter_parameters =
           [("gating_factor",
             {| data := zeros4 1 1 (n_head config) 1; requires_grad := true |})] /\
         adapter_attrs = [("adapter_kv_cache", ANone)]
     else g3 = g2 /\ adapter_modules = [] /\ adapter_parameters = [] /\
          adapter_attrs = []).
Proof.
  intros Hstride. unfold CausalSelfAttention_init.
  destruct (AdapterV2Linear_init_ok (n_embd config)
              ((n_head config + 2 * n_query_groups config) * head_size config)
              (bias config || attn_bias config) g) as (lq & g1 & Hq & _).
  destruct (AdapterV2Linear_init_ok (head_size config * n_head config)
              (n_embd config) (bias config) g1) as (lp & g2 & Hp & _).
  revert Hq Hp. generalize (Mod AdapterV2Linear
    [("adapter_bias", {| data := zeros1 (n_embd config); requires_grad := false |});
     ("adapter_scale", {| data := ones1 (n_embd config); requires_grad := false |})]
    [] [] [("linear", lp)]) as proj.
  generalize (Mod AdapterV2Linear
    [("adapter_bias",
      {| data := zeros1 ((n_head config + 2 * n_query_groups config) * head_size config);
         requires_grad := false |});
     ("adapter_scale",
      {| data := ones1 ((n_head config + 2 * n_query_groups config) * head_size config);
         requires_grad := false |})]
    [] [] [("linear", lq)]) as qkv.
  intros qkv proj Hq Hp.
  assert (Hsw : exists sliding,
             forall g' : Rng,
               match sliding_window_size config with
               | Some _ =>
                   if sliding_window_layer_stride config =? 0
                   then raise ZeroDivisionError
                   else mret (block_idx mod sliding_window_layer_stride config =? 0)
               | None => mret false
               end g' = Ok (sliding, g')).
  { destruct (sliding_window_size config) as [n|].
    - destruct Hstride as [|Hne]; [discriminate|].
      apply Nat.eqb_neq in Hne. rewrite Hne. eauto.
    - eauto. }
  destruct Hsw as (sliding & Hsw).
  destruct (adapter_start_layer config <=? block_idx) eqn:Hlayer.
  - destruct (Embedding_init_ok (adapter_prompt_length config) (n_embd config) g2)
      as (w & g3 & Hwte & _).
    revert Hwte. generalize (Mod Embedding
      [("weight", {| data := T2 w; requires_grad := true |})] []
      [("num_embeddings", ANat (adapter_prompt_length config));
       ("embedding_dim", ANat (n_embd config))] []) as wte.
    intros wte Hwte.
    exists qkv, proj, [("adapter_wte", wte)],
      [("gating_factor",
        {| data := zeros4 1 1 (n_head config) 1; requires_grad := true |})],
      [("adapter_kv_cache", ANone)], sliding, g1, g2, g3.
    split; [exact Hq|]. split; [exact Hp|]. split.
    + unfold mbind, Init_bind. rewrite Hq, Hp, Hwte.
      cbn [mret Init_ret]. rewrite Hsw. reflexivity.
    + exists wte. auto.
  - exists qkv, proj, [], [], [], sliding, g1, g2, g2.
    split; [exact Hq|]. split; [exact Hp|]. split.
    + unfold mbind, Init_bind. rewrite Hq, Hp.
      cbn [mret Init_ret]. rewrite Hsw. reflexivity.
    + auto.
Qed.

(** The constructor returns unless a sliding window is configured with a
    stride of zero, and what it returns has the adapter prefix attributes
    exactly from [adapter_start_layer] on. *)
Lemma CausalSelfAttention_init_prefix (config : Config) (i : nat) (g : Rng) :
  sliding_window_size config = None \/ sliding_window_layer_stride config <> 0 ->
  exists attn g',
    CausalSelfAttention_init config i g = Ok (attn, g') /\
    (adapter_start_layer config <= i -> has_adapter_prefix config attn) /\
    (i < adapter_start_layer config -> no_adapter_prefix attn) /\
    (has_adapter_prefix config attn <-> adapter_start_layer config <= i).
Proof.
  intros Hstride.
  destruct (CausalSelfAttention_init_ok config i g Hstride)
    as (qkv & proj & ams & aps & aas & sl & g1 & g2 & g3 & _ & _ & Hinit & Hadapter).
  eexists _, g3. split; [exact Hinit|].
  destruct (Nat.leb_spec (adapter_start_layer config) i) as [Hle|Hlt].
  - destruct Hadapter as (wte & Hwte & -> & -> & ->).
    destruct (Embedding_init_ok (adapter_prompt_length config) (n_embd config) g2)
      as (w & g3' & Hwte' & Hlen & Hcols).
    rewrite Hwte' in Hwte. injection Hwte as <- <-.
    assert (Hhas : has_adapter_prefix config
              (Mod CausalSelfAttention
                 [("gating_factor",
                   {| data := zeros4 1 1 (n_head config) 1; requires_grad := true |})]
                 []
                 ([("kv_cache", ANone)] ++ [("adapter_kv_cache", ANone)] ++
                  [("block_idx", ANat i);
                   ("apply_sliding_window_attention", ABool sl);
                   ("config", AConfig config)])
                 ([("qkv", qkv); ("proj", proj)] ++
                  [("adapter_wte",
                    Mod Embedding
                      [("weight", {| data := T2 w; requires_grad := true |})] []
                      [("num_embeddings", ANat (adapter_prompt_length config));
                       ("embedding_dim", ANat (n_embd config))] [])]))).
    { split; [|split; reflexivity].
      eexists _, _, w. repeat split; try reflexivity; auto. }
    split; [auto|]. split; [lia|]. split; auto.
  - destruct Hadapter as (-> & -> & -> & ->).
    split; [lia|]. split.
    + intros _. repeat split.
    + split; [|lia]. intros ((wte & p & w & Hwte & _) & _). discriminate Hwte.
Qed.

(** ** [AdapterV2Linear.__init__] *)

(** C6, as the code has it: a freshly constructed [AdapterV2Linear] holds
    [adapter_scale] (ones) and [adapter_bias] (zeros) with
    [requires_grad=False], while the parameters of the wrapped projection
    require gradient; [adapter_scale] and [adapter_bias] become trainable when
    [mark_only_adapter_v2_as_trainable] runs over a model containing the
    module, whatever the module's place in that model. *)
Theorem AdapterV2Linear_init_requires_grad (i o : nat) (b : bool) (g g' : Rng)
    (m : Module) :
  AdapterV2Linear_init i o b g = Ok (m, g') ->
  get_parameter m "adapter_scale" = Ok {| data := ones1 o; requires_grad := false |} /\
  get_parameter m "adapter_bias" = Ok {| data := zeros1 o; requires_grad := false |} /\
  (exists linear, get_child m "linear" = Ok linear /\
     Forall (fun kp => requires_grad kp.2 = true) (parameters linear)) /\
  (forall prefix,
     get_parameter (mark_from prefix m) "adapter_scale" =
       Ok {| data := ones1 o; requires_grad := true |} /\
     get_parameter (mark_from prefix m) "adapter_bias" =
       Ok {| data := zeros1 o; requires_grad := true |}).
Proof.
  destruct (AdapterV2Linear_init_ok i o b g) as (linear & g1 & Hm & Hlin).
  rewrite Hm. intros [= <- <-].
  split; [reflexivity|]. split; [reflexivity|]. split.
  - exists linear. split; [reflexivity|].
    destruct (Linear_init_ok i o b g) as (w & bs & g2 & Hlin' & _ & _ & Hb).
    rewrite Hlin in Hlin'. injection Hlin' as -> _.
    cbn. constructor; [reflexivity|].
    destruct b; [destruct Hb as (v & -> & _)|rewrite Hb]; repeat constructor.
  - intros prefix. rewrite mark_from_unfold. unfold get_parameter.
    cbn [parameters map assoc fst snd String.eqb Ascii.eqb Bool.eqb data of_option].
    assert (Hf : forall k (v : Param),
               In k ["adapter_scale"; "adapter_bias"] ->
               adapter_filter (qualify prefix k) v = true).
    { intros k v Hk. apply adapter_filter_spec. exists k. split.
      - cbn in Hk. cbn. destruct Hk as [<-|[<-|[]]]; auto 10.
      - unfold qualify. destruct (String.eqb prefix "").
        + exists "", "". now rewrite str_append_nil_r.
        + exists (prefix +:+ String Str.dot ""), "".
          now rewrite str_append_nil_r, str_append_assoc. }
    rewrite !Hf by (cbn; auto). split; reflexivity.
Qed.

(** ** Linear projections in a module tree *)

Lemma has_linear_unfold c ps bs ats ms :
  has_linear (Mod c ps bs ats ms) =
    is_cls c Linear || existsb (fun km => has_linear km.2) ms.
Proof.
  cbn [has_linear]. f_equal.
  induction ms as [|[k m] ms IH]; [reflexivity|]. cbn [existsb snd]. now rewrite IH.
Qed.

Lemma linears_wrapped_unfold c ps bs ats ms :
  linears_wrapped (Mod c ps bs ats ms) =
    forallb (fun km =>
               (negb (is_cls (cls km.2) Linear) ||
                (is_cls c AdapterV2Linear && String.eqb km.1 "linear")) &&
               linears_wrapped km.2) ms.
Proof.
  cbn [linears_wrapped].
  induction ms as [|[k m] ms IH]; [reflexivity|]. cbn [forallb fst snd]. now rewrite IH.
Qed.

Lemma linear_names_clean_unfold c ps bs ats ms :
  linear_names_clean (Mod c ps bs ats ms) =
    (negb (is_cls c Linear) || forallb (fun kp => negb (adapter_filter kp.1 kp.2)) ps) &&
    forallb (fun km =>
               negb (has_linear km.2) ||
               (negb (adapter_filter km.1 km.2) && linear_names_clean km.2)) ms.
Proof.
  cbn [linear_names_clean]. f_equal.
  induction ms as [|[k m] ms IH]; [reflexivity|]. cbn [forallb fst snd]. now rewrite IH.
Qed.

Lemma is_cls_eq (c c' : Cls) : is_cls c c' = true <-> c = c'.
Proof. destruct c, c'; cbn; split; congruence. Qed.

(** ** Qualified names and [adapter_filter] *)

Lemma prefix_before_dot (s a b : string) :
  dot_free s = true -> s <> "" ->
  String.prefix s (a +:+ String Str.dot b) = String.prefix s a.
Proof.
  revert s. induction a as [|d a IH]; intros s Hfree Hne.
  - destruct s as [|c s]; [congruence|]. cbn in Hfree.
    apply andb_true_iff in Hfree as [Hc _]. apply negb_true_iff in Hc.
    apply Ascii.eqb_neq in Hc. rewrite str_append_nil_l. cbn.
    now destruct (ascii_dec c Str.dot).
  - destruct s as [|c s]; [congruence|]. rewrite str_append_cons. cbn.
    destruct (ascii_dec c d); [|reflexivity].
    destruct s as [|c' s']; [now destruct a|].
    apply IH; [|discriminate]. cbn in Hfree. now apply andb_true_iff in Hfree as [_ ?].
Qed.

Lemma contains_across_dot (s a b : string) :
  dot_free s = true -> s <> "" ->
  Str.contains s (a +:+ String Str.dot b) = Str.contains s a || Str.contains s b.
Proof.
  intros Hfree Hne. induction a as [|d a IH].
  - rewrite str_append_nil_l. cbn [Str.contains].
    rewrite (prefix_before_dot s "" b Hfree Hne : String.prefix s (String Str.dot b) = _).
    now destruct s.
  - rewrite str_append_cons. cbn [Str.contains]. rewrite IH.
    rewrite <- (str_append_cons d a (String Str.dot b)).
    rewrite prefix_before_dot by assumption. now rewrite orb_assoc.
Qed.

Lemma adapter_substrings_dot_free :
  Forall (fun s => dot_free s = true /\ s <> "") adapter_substrings.
Proof. repeat constructor; discriminate. Qed.

Lemma adapter_filter_qualify {V W U} (prefix k : string) (v : V) (w : W) (u : U) :
  adapter_filter (qualify prefix k) v = adapter_filter prefix w || adapter_filter k u.
Proof.
  unfold adapter_filter, qualify. destruct (String.eqb_spec prefix "") as [->|Hne].
  - reflexivity.
  - pose proof adapter_substrings_dot_free as H.
    induction H as [|s l [Hfree Hs] _ IH]; [reflexivity|]. cbn [existsb].
    rewrite contains_across_dot, IH by assumption.
    destruct (Str.contains s prefix), (Str.contains s k),
      (existsb (fun s0 => Str.contains s0 prefix) l); reflexivity.
Qed.

(** ** Traversals of marked and of wrapped trees *)

Lemma named_modules_mark_from (prefix : string) (m : Module) :
  named_modules prefix (mark_from prefix m) =
    map (fun ps => (ps.1, mark_from ps.1 ps.2)) (named_modules prefix m).
Proof.
  revert prefix. induction m as [c ps bs ats ms IH] using Module_ind.
  intros prefix. rewrite mark_from_unfold, !named_modules_unfold.
  cbn [map fst snd]. rewrite mark_from_unfold. f_equal.
  induction IH as [|[k m] ms Hm _ IHms]; [reflexivity|].
  cbn [map flat_map fst snd]. rewrite map_app. f_equal; [apply Hm|apply IHms].
Qed.

Lemma has_linear_named_modules (m : Module) (prefix path : string) (sub : Module) :
  has_linear m = false -> In (path, sub) (named_modules prefix m) ->
  cls sub <> Linear.
Proof.
  revert prefix. induction m as [c ps bs ats ms IH] using Module_ind.
  intros prefix. rewrite has_linear_unfold, named_modules_unfold.
  intros H [Heq|Hin].
  - injection Heq as _ <-. cbn. apply orb_false_iff in H as [H _].
    intros ->. discriminate.
  - apply orb_false_iff in H as [_ H]. apply in_flat_map in Hin as ([k m] & Hkm & Hin).
    rewrite Forall_forall in IH. pose proof Hkm as Hkm'.
    apply list_elem_of_In in Hkm'. cbn [fst snd] in Hin.
    eapply (IH _ Hkm'); [|exact Hin]. cbn [snd].
    destruct (has_linear m) eqn:E; [|reflexivity].
    assert (existsb (fun km => has_linear km.2) ms = true); [|congruence].
    apply existsb_exists. exists (k, m). split; [exact Hkm|exact E].
Qed.


Lemma linear_names_clean_named_modules (m : Module) (prefix path : string)
    (sub : Module) (k : string) (p : Param) :
  linear_names_clean m = true -> adapter_filter prefix sub = false ->
  In (path, sub) (named_modules prefix m) -> cls sub = Linear ->
  In (k, p) (parameters sub) ->
  adapter_filter (qualify path k) p = false.
Proof.
  revert prefix. induction m as [c ps bs ats ms IH] using Module_ind.
  intros prefix. rewrite linear_names_clean_unfold, named_modules_unfold.
  intros Hclean Hprefix [Heq|Hin] Hcls Hk.
  - injection Heq as <- <-. cbn in Hcls. subst c.
    apply andb_true_iff in Hclean as [Hps _]. cbn in Hps.
    rewrite forallb_forall in Hps. specialize (Hps _ Hk). cbn in Hps.
    rewrite (adapter_filter_qualify prefix k p (Mod Linear ps bs ats ms) p), Hprefix.
    now apply negb_true_iff in Hps.
  - apply andb_true_iff in Hclean as [_ Hms].
    apply in_flat_map in Hin as ([k' m] & Hkm & Hin). cbn [fst snd] in Hin.
    rewrite forallb_forall in Hms. specialize (Hms _ Hkm). cbn [fst snd] in Hms.
    destruct (has_linear m) eqn:Hhas.
    + cbn in Hms. apply andb_true_iff in Hms as [Hk' Hm].
      rewrite Forall_forall in IH. apply list_elem_of_In in Hkm.
      apply (IH _ Hkm (qualify prefix k')); auto.
      rewrite (adapter_filter_qualify prefix k' sub sub m), Hprefix.
      now apply negb_true_iff in Hk'.
    + exfalso. now apply (has_linear_named_modules _ _ _ _ Hhas Hin).
Qed.

(** ** Constructors build wrapped projections *)

Lemma Init_bind_inv {A B} (m : Init A) (f : A -> Init B) (g g' : Rng) (b : B) :
  (m ≫= f) g = Ok (b, g') ->
  exists a g1, m g = Ok (a, g1) /\ f a g1 = Ok (b, g').
Proof.
  unfold mbind, Init_bind. destruct (m g) as [[a g1]|e]; [|discriminate]. eauto.
Qed.

Lemma Init_ret_inv {A} (a b : A) (g g' : Rng) :
  (mret a : Init A) g = Ok (b, g') -> b = a /\ g' = g.
Proof. unfold mret, Init_ret. now intros [= <- <-]. Qed.

Lemma mapM_Init_inv {A B} (f : A -> Init B) (l : list A) (g g' : Rng) (k : list B) :
  mapM f l g = Ok (k, g') ->
  Forall2 (fun x y => exists gi gi', f x gi = Ok (y, gi')) l k.
Proof.
  revert g g' k. induction l as [|x l IH]; intros g g' k; cbn [mapM].
  - intros H. apply Init_ret_inv in H as [-> _]. constructor.
  - intros H. apply Init_bind_inv in H as (y & g1 & Hy & H).
    apply Init_bind_inv in H as (k' & g2 & Hk & H).
    apply Init_ret_inv in H as [-> _].
    constructor; [now exists g, g1|exact (IH _ _ _ Hk)].
Qed.

Lemma built_node c ps bs ats ms :
  c <> Linear ->
  Forall (fun km => built km.2 /\
                    (has_linear km.2 = false \/ adapter_filter km.1 tt = false)) ms ->
  built (Mod c ps bs ats ms).
Proof.
  intros Hc Hms. split; [exact Hc|].
  rewrite linears_wrapped_unfold, linear_names_clean_unfold.
  assert (Hcls : is_cls c Linear = false).
  { destruct (is_cls c Linear) eqn:E; [|reflexivity]. now apply is_cls_eq in E. }
  rewrite Hcls. cbn [negb orb andb].
  split; apply forallb_forall; intros [k m] Hkm; apply list_elem_of_In in Hkm;
    rewrite Forall_forall in Hms; destruct (Hms _ Hkm) as [(Hm1 & Hm2 & Hm3) Hname];
    cbn [fst snd] in *.
  - rewrite Hm2. destruct (is_cls (cls m) Linear) eqn:E; [|reflexivity].
    now apply is_cls_eq in E.
  - rewrite Hm3. destruct Hname as [->|Hk]; [reflexivity|].
    change (adapter_filter k m) with (adapter_filter k tt). rewrite Hk.
    now destruct (has_linear m).
Qed.

Lemma leaf_no_linear c ps bs ats :
  c <> Linear -> has_linear (Mod c ps bs ats []) = false.
Proof.
  intros Hc. rewrite has_linear_unfold. cbn.
  destruct (is_cls c Linear) eqn:E; [|reflexivity]. now apply is_cls_eq in E.
Qed.

Lemma AdapterV2Linear_init_built (i o : nat) (b : bool) (g g' : Rng) (m : Module) :
  AdapterV2Linear_init i o b g = Ok (m, g') ->
  cls m = AdapterV2Linear /\ built m.
Proof.
  destruct (AdapterV2Linear_init_ok i o b g) as (linear & g1 & Hm & Hlin).
  rewrite Hm. intros [= <- <-]. split; [reflexivity|].
  destruct (Linear_init_ok i o b g) as (w & bs & g2 & Hlin' & _ & _ & Hb).
  rewrite Hlin in Hlin'. injection Hlin' as -> _.
  split; [discriminate|].
  rewrite linears_wrapped_unfold, linear_names_clean_unfold.
  cbn [forallb fst snd cls is_cls negb orb andb].
  rewrite linears_wrapped_unfold, linear_names_clean_unfold.
  destruct b; [destruct Hb as (v & -> & _)|rewrite Hb]; split; reflexivity.
Qed.

Lemma norm_class_built (config : Config) (size : nat) (eps : R) (g g' : Rng)
    (m : Module) :
  norm_class config size eps g = Ok (m, g') -> built m /\ has_linear m = false.
Proof.
  unfold norm_class. intros H. apply Init_ret_inv in H as [-> _].
  destruct (norm_class_name config); split;
    try (apply built_node; [discriminate|constructor]);
    apply leaf_no_linear; discriminate.
Qed.

Lemma Embedding_init_built (num dim : nat) (g g' : Rng) (m : Module) :
  Embedding_init num dim g = Ok (m, g') ->
  cls m = Embedding /\ built m /\ has_linear m = false.
Proof.
  destruct (Embedding_init_ok num dim g) as (w & g1 & Hm & _).
  rewrite Hm. intros [= <- <-]. split; [reflexivity|]. split.
  - apply built_node; [discriminate|constructor].
  - apply leaf_no_linear. discriminate.
Qed.

Lemma Identity_init_built (g g' : Rng) (m : Module) :
  Identity_init g = Ok (m, g') -> built m /\ has_linear m = false.
Proof.
  intros H. apply Init_ret_inv in H as [-> _]. split.
  - apply built_node; [discriminate|constructor].
  - apply leaf_no_linear. discriminate.
Qed.

Lemma contains_chars (s key : string) (c : ascii) :
  Str.contains s key = true -> In c (Str.chars s) -> In c (Str.chars key).
Proof.
  intros H Hc. apply str_contains_spec in H as (a & b & ->).
  rewrite !str_chars_app. apply in_or_app. right. apply in_or_app. now left.
Qed.

Lemma string_of_uint_digits (d : Decimal.uint) :
  Forall (fun c => Str.is_digit c = true) (Str.chars (NilEmpty.string_of_uint d)).
Proof. induction d; cbn; constructor; auto. Qed.

(** An index of a [ModuleList] never passes [adapter_filter]. *)
Lemma of_nat_clean (i : nat) : adapter_filter (Str.of_nat i) tt = false.
Proof.
  unfold adapter_filter.
  assert (H : Forall (fun s => exists c, In c (Str.chars s) /\ Str.is_digit c = false)
                adapter_substrings).
  { repeat constructor; eexists; (split; [left; reflexivity|reflexivity]). }
  induction H as [|s l (c & Hc & Hnd) _ IH]; [reflexivity|]. cbn [existsb].
  rewrite IH, orb_false_r.
  destruct (Str.contains s (Str.of_nat i)) eqn:E; [|reflexivity].
  pose proof (contains_chars _ _ _ E Hc) as Hin.
  pose proof (string_of_uint_digits (Nat.to_uint i)) as Hd.
  rewrite Forall_forall in Hd. apply list_elem_of_In in Hin.
  specialize (Hd _ Hin). congruence.
Qed.

Lemma ModuleList_init_built (ms : list Module) :
  Forall built ms -> built (ModuleList_init ms).
Proof.
  intros Hms. apply built_node; [discriminate|].
  apply Forall_forall. intros [k m] Hkm.
  apply elem_of_lookup_imap in Hkm as (i & x & [= -> ->] & Hx).
  cbn [fst snd]. split.
  - rewrite Forall_forall in Hms. apply Hms. eapply list_elem_of_lookup_2, Hx.
  - right. apply of_nat_clean.
Qed.

Ltac built_children :=
  repeat match goal with
         | |- Forall _ (_ :: _) => constructor
         | |- Forall _ [] => constructor
         | |- Forall _ (_ ++ _) => apply Forall_app; split
         | |- built _ /\ _ => split; cbn [fst snd]
         end.

Lemma CausalSelfAttention_init_built (config : Config) (i : nat) (g g' : Rng)
    (m : Module) :
  CausalSelfAttention_init config i g = Ok (m, g') ->
  cls m = CausalSelfAttention /\ built m /\
  (exists qkv proj, get_child m "qkv" = Ok qkv /\ cls qkv = AdapterV2Linear /\
                    get_child m "proj" = Ok proj /\ cls proj = AdapterV2Linear).
Proof.
  intros H. unfold CausalSelfAttention_init in H.
  apply Init_bind_inv in H as (qkv & g1 & Hq & H).
  apply Init_bind_inv in H as (proj & g2 & Hp & H).
  apply Init_bind_inv in H as ([[ams aps] aas] & g3 & Ha & H).
  apply Init_bind_inv in H as (sl & g4 & Hs & H).
  apply Init_ret_inv in H as [-> _].
  apply AdapterV2Linear_init_built in Hq as [Hqc Hq].
  apply AdapterV2Linear_init_built in Hp as [Hpc Hp].
  split; [reflexivity|]. split; [|exists qkv, proj; auto].
  apply built_node; [discriminate|]. built_children; auto.
  destruct (adapter_start_layer config <=? i).
  - apply Init_bind_inv in Ha as (wte & g5 & Hwte & Ha).
    apply Init_ret_inv in Ha as [[= -> -> ->] _].
    apply Embedding_init_built in Hwte as (_ & Hw & Hnl).
    built_children; auto.
  - apply Init_ret_inv in Ha as [[= -> -> ->] _]. constructor.
Qed.

Lemma GptNeoxMLP_init_built (config : Config) (g g' : Rng) (m : Module) :
  GptNeoxMLP_init config g = Ok (m, g') ->
  cls m = GptNeoxMLP /\ built m /\
  (exists fc proj, get_child m "fc" = Ok fc /\ cls fc = AdapterV2Linear /\
                   get_child m "proj" = Ok proj /\ cls proj = AdapterV2Linear).
Proof.
  intros H. unfold GptNeoxMLP_init in H.
  apply Init_bind_inv in H as (fc & g1 & Hfc & H).
  apply Init_bind_inv in H as (proj & g2 & Hp & H).
  apply Init_ret_inv in H as [-> _].
  apply AdapterV2Linear_init_built in Hfc as [Hfcc Hfc].
  apply AdapterV2Linear_init_built in Hp as [Hpc Hp].
  split; [reflexivity|]. split; [|exists fc, proj; auto].
  apply built_node; [discriminate|]. built_children; auto.
Qed.

Lemma LLaMAMLP_init_built (c : Cls) (config : Config) (g g' : Rng) (m : Module) :
  c <> Linear ->
  LLaMAMLP_init c config g = Ok (m, g') ->
  cls m = c /\ built m /\
  (exists fc_1 fc_2 proj,
     get_child m "fc_1" = Ok fc_1 /\ cls fc_1 = AdapterV2Linear /\
     get_child m "fc_2" = Ok fc_2 /\ cls fc_2 = AdapterV2Linear /\
     get_child m "proj" = Ok proj /\ cls proj = AdapterV2Linear).
Proof.
  intros Hc H. unfold LLaMAMLP_init in H.
  apply Init_bind_inv in H as (fc_1 & g1 & H1 & H).
  apply Init_bind_inv in H as (fc_2 & g2 & H2 & H).
  apply Init_bind_inv in H as (proj & g3 & Hp & H).
  apply Init_ret_inv in H as [-> _].
  apply AdapterV2Linear_init_built in H1 as [H1c H1].
  apply AdapterV2Linear_init_built in H2 as [H2c H2].
  apply AdapterV2Linear_init_built in Hp as [Hpc Hp].
  split; [reflexivity|]. split; [|exists fc_1, fc_2, proj; auto 10].
  apply built_node; [exact Hc|]. built_children; auto.
Qed.

(** ** Submodules by path *)

Lemma of_nat_inj (i j : nat) : Str.of_nat i = Str.of_nat j -> i = j.
Proof.
  unfold Str.of_nat. intros H.
  apply (f_equal NilEmpty.uint_of_string) in H. rewrite !NilEmpty.usu in H.
  injection H as H. apply (f_equal Nat.of_uint) in H.
  now rewrite !Unsigned.of_to in H.
Qed.

Lemma assoc_imap_from {A} (n i : nat) (l : list A) :
  assoc (Str.of_nat (n + i)) (imap (fun j a => (Str.of_nat (n + j), a)) l) = l !! i.
Proof.
  revert n i. induction l as [|a l IH]; intros n i; [reflexivity|].
  rewrite imap_cons. cbn [assoc]. destruct i as [|i].
  - rewrite Nat.add_0_r, String.eqb_refl. reflexivity.
  - destruct (String.eqb_spec (Str.of_nat (n + S i)) (Str.of_nat (n + 0))) as [E|_].
    + apply of_nat_inj in E. lia.
    + change ((a :: l) !! S i) with (l !! i). rewrite <- (IH (S n) i).
      replace (n + S i) with (S n + i) by lia.
      f_equal. apply imap_ext. intros j x _. unfold compose.
      now replace (n + S j) with (S n + j) by lia.
Qed.

(** [module_list[i]] is the child named [str(i)]. *)
Lemma get_child_ModuleList (ms : list Module) (i : nat) (m : Module) :
  ms !! i = Some m -> get_child (ModuleList_init ms) (Str.of_nat i) = Ok m.
Proof.
  intros H. unfold get_child, ModuleList_init. cbn [children].
  pose proof (assoc_imap_from 0 i ms) as E. cbn [Nat.add] in E.
  rewrite E, H. reflexivity.
Qed.

Lemma get_submodule_cons (m c sub : Module) (k : string) (path : list string) :
  get_child m k = Ok c -> get_submodule c path = Ok sub ->
  get_submodule m (k :: path) = Ok sub.
Proof. intros Hc Hp. cbn. now rewrite Hc. Qed.

Lemma wrapped_at_cons (m c : Module) (k : string) (path : list string) :
  get_child m k = Ok c -> wrapped_at c path -> wrapped_at m (k :: path).
Proof. intros Hc (sub & Hp & Hs). exists sub. eauto using get_submodule_cons. Qed.

Lemma wrapped_at_nil (m : Module) : cls m = AdapterV2Linear -> wrapped_at m [].
Proof. intros H. now exists m. Qed.

Lemma LLaMAMoE_init_built (config : Config) (g g' : Rng) (m : Module) :
  LLaMAMoE_init config g = Ok (m, g') ->
  cls m = LLaMAMoE /\ built m /\ wrapped_at m ["gate"] /\
  forall j, j < n_expert config ->
    wrapped_at m ["experts"; Str.of_nat j; "fc_1"] /\
    wrapped_at m ["experts"; Str.of_nat j; "fc_2"] /\
    wrapped_at m ["experts"; Str.of_nat j; "proj"].
Proof.
  intros H. unfold LLaMAMoE_init in H.
  apply Init_bind_inv in H as (gate & g1 & Hgate & H).
  apply Init_bind_inv in H as (experts & g2 & Hexp & H).
  apply Init_ret_inv in H as [-> _].
  apply AdapterV2Linear_init_built in Hgate as [Hgc Hgate].
  apply mapM_Init_inv in Hexp.
  assert (Hall : Forall (fun e => built e /\ wrapped_at e ["fc_1"] /\
                                  wrapped_at e ["fc_2"] /\ wrapped_at e ["proj"]) experts).
  { clear -Hexp. induction Hexp as [|x e l k (gi & gi' & He) _ IH]; constructor; auto.
    apply LLaMAMLP_init_built in He as (_ & Hb & f1 & f2 & pr & ? & ? & ? & ? & ? & ?);
      [|discriminate].
    split; [exact Hb|].
    repeat split; eapply wrapped_at_cons; eauto using wrapped_at_nil. }
  split; [reflexivity|]. split; [|split].
  - apply built_node; [discriminate|]. built_children; auto.
    apply ModuleList_init_built. eapply Forall_impl; [exact Hall|]. now intros ? [? _].
  - eapply wrapped_at_cons; [reflexivity|]. now apply wrapped_at_nil.
  - intros j Hj. apply Forall2_length in Hexp. rewrite length_seq in Hexp.
    destruct (lookup_lt_is_Some_2 experts j) as [e He]; [lia|].
    rewrite Forall_forall in Hall.
    destruct (Hall e) as (_ & H1 & H2 & H3); [eapply list_elem_of_lookup_2, He|].
    repeat split; (eapply wrapped_at_cons; [reflexivity|]);
      (eapply wrapped_at_cons; [apply get_child_ModuleList, He|]); assumption.
Qed.

Lemma mlp_class_built (config : Config) (g g' : Rng) (m : Module) :
  mlp_class config g = Ok (m, g') -> built m /\ mlp_projections config m.
Proof.
  unfold mlp_class, mlp_projections. destruct (mlp_class_name config); intros H.
  - apply GptNeoxMLP_init_built in H as (Hc & Hb & fc & proj & ? & ? & ? & ?).
    split; [exact Hb|]. split; [exact Hc|].
    split; eapply wrapped_at_cons; eauto using wrapped_at_nil.
  - apply LLaMAMLP_init_built in H as (Hc & Hb & f1 & f2 & pr & ? & ? & ? & ? & ? & ?);
      [|discriminate].
    split; [exact Hb|]. split; [exact Hc|].
    repeat split; eapply wrapped_at_cons; eauto using wrapped_at_nil.
  - apply LLaMAMLP_init_built in H as (Hc & Hb & f1 & f2 & pr & ? & ? & ? & ? & ? & ?);
      [|discriminate].
    split; [exact Hb|]. split; [exact Hc|].
    repeat split; eapply wrapped_at_cons; eauto using wrapped_at_nil.
  - apply LLaMAMoE_init_built in H as (Hc & Hb & Hg & He). auto.
Qed.

Lemma optional_norm_built (config : Config) (flag : bool) (g g' : Rng) (m : Module) :
  (if flag then norm_class config (n_embd config) (norm_eps config) else Identity_init) g
    = Ok (m, g') ->
  built m /\ has_linear m = false.
Proof.
  destruct flag; [apply norm_class_built|apply Identity_init_built].
Qed.

Lemma Block_init_built (config : Config) (i : nat) (g g' : Rng) (b : Module) :
  Block_init config i g = Ok (b, g') ->
  cls b = Block /\ built b /\
  (exists attn ga ga',
     get_child b "attn" = Ok attn /\
     CausalSelfAttention_init config i ga = Ok (attn, ga')) /\
  wrapped_at b ["attn"; "qkv"] /\ wrapped_at b ["attn"; "proj"] /\
  (exists mlp, get_child b "mlp" = Ok mlp /\ mlp_projections config mlp).
Proof.
  unfold Block_init.
  destruct (negb (parallel_residual config) && shared_attention_norm config);
    [discriminate|].
  intros H.
  apply Init_bind_inv in H as (norm_1 & g1 & Hn1 & H).
  apply Init_bind_inv in H as (attn & g2 & Hattn & H).
  apply Init_bind_inv in H as (pan & g3 & Hpan & H).
  apply Init_bind_inv in H as ([n2m n2a] & g4 & Hn2 & H).
  apply Init_bind_inv in H as (mlp & g5 & Hmlp & H).
  apply Init_bind_inv in H as (pmn & g6 & Hpmn & H).
  apply Init_ret_inv in H as [-> _]. cbn [fst snd].
  apply norm_class_built in Hn1 as [Hn1 Hn1'].
  pose proof Hattn as Hattn'.
  apply CausalSelfAttention_init_built in Hattn
    as (_ & Hab & qkv & proj & Hq & Hqc & Hp & Hpc).
  apply optional_norm_built in Hpan as [Hpan Hpan'].
  apply mlp_class_built in Hmlp as [Hmlp Hproj].
  apply optional_norm_built in Hpmn as [Hpmn Hpmn'].
  assert (Hn2m : (n2m = [] \/ exists n, n2m = [("norm_2", n)] /\ built n /\
                                         has_linear n = false)).
  { destruct (shared_attention_norm config).
    - apply Init_ret_inv in Hn2 as [[= -> ->] _]. now left.
    - apply Init_bind_inv in Hn2 as (n & g7 & Hn & Hn2).
      apply Init_ret_inv in Hn2 as [[= -> ->] _].
      apply norm_class_built in Hn as [? ?]. right. now exists n. }
  split; [reflexivity|]. split; [|split; [|split; [|split]]].
  - apply built_node; [discriminate|].
    destruct Hn2m as [->|(n & -> & Hn & Hn')]; built_children; auto.
  - exists attn, g1, g2. split; [reflexivity|exact Hattn'].
  - eapply wrapped_at_cons; [reflexivity|].
    eapply wrapped_at_cons; [exact Hq|]. now apply wrapped_at_nil.
  - eapply wrapped_at_cons; [reflexivity|].
    eapply wrapped_at_cons; [exact Hp|]. now apply wrapped_at_nil.
  - exists mlp. split; [|exact Hproj].
    destruct Hn2m as [->|(n & -> & _)]; reflexivity.
Qed.

Lemma GPT_init_built (config : Config) (g g' : Rng) (model : Module) :
  GPT_init config g = Ok (model, g') ->
  cls model = GPT /\ built model /\
  wrapped_at model ["lm_head"] /\
  (exists wte p, get_submodule model ["transformer"; "wte"] = Ok wte /\
                 cls wte = Embedding /\ parameters wte = [("weight", p)]) /\
  (forall i, i < n_layer config ->
     exists block gi gi',
       get_submodule model ["transformer"; "h"; Str.of_nat i] = Ok block /\
       Block_init config i gi = Ok (block, gi')).
Proof.
  unfold GPT_init. destruct (padded_vocab_size config) as [vocab|]; [|discriminate].
  intros H.
  apply Init_bind_inv in H as (lm_head & g1 & Hlm & H).
  apply Init_bind_inv in H as (wte & g2 & Hwte & H).
  apply Init_bind_inv in H as (h & g3 & Hh & H).
  apply Init_bind_inv in H as (ln_f & g4 & Hln & H).
  destruct (rope_cache config (block_size config)) as [cos sin].
  apply Init_ret_inv in H as [-> _].
  apply AdapterV2Linear_init_built in Hlm as [Hlmc Hlm].
  destruct (Embedding_init_ok vocab (n_embd config) g1) as (w & g2' & Hwte' & _).
  rewrite Hwte' in Hwte. injection Hwte as <- <-.
  apply norm_class_built in Hln as [Hln Hln'].
  apply mapM_Init_inv in Hh.
  assert (Hblocks : Forall built h).
  { clear -Hh. induction Hh as [|x b l k (gi & gi' & Hb) _ IH]; constructor; auto.
    now apply Block_init_built in Hb as (_ & ? & _). }
  split; [reflexivity|]. split; [|split; [|split]].
  - apply built_node; [discriminate|]. built_children; auto.
    apply built_node; [discriminate|]. built_children; auto.
    + apply built_node; [discriminate|constructor].
    + now apply ModuleList_init_built.
  - eapply wrapped_at_cons; [reflexivity|]. now apply wrapped_at_nil.
  - eexists _, _. split; [reflexivity|]. split; reflexivity.
  - intros i Hi. pose proof (Forall2_length _ _ _ Hh) as Hlen.
    rewrite length_seq in Hlen.
    destruct (lookup_lt_is_Some_2 h i) as [block Hblock]; [lia|].
    assert (Hseq : seq 0 (n_layer config) !! i = Some i).
    { rewrite lookup_seq. split; [reflexivity|lia]. }
    destruct (Forall2_lookup_lr _ _ _ _ _ _ Hh Hseq Hblock) as (gi & gi' & Hb).
    exists block, gi, gi'. split; [|exact Hb].
    eapply get_submodule_cons; [reflexivity|].
    eapply get_submodule_cons; [reflexivity|].
    eapply get_submodule_cons; [apply get_child_ModuleList, Hblock|]. reflexivity.
Qed.


Lemma CausalSelfAttention_init_stride (config : Config) (i : nat) (g g' : Rng)
    (attn : Module) :
  CausalSelfAttention_init config i g = Ok (attn, g') ->
  sliding_window_size config = None \/ sliding_window_layer_stride config <> 0.
Proof.
  intros H. unfold CausalSelfAttention_init in H.
  apply Init_bind_inv in H as (qkv & g1 & _ & H).
  apply Init_bind_inv in H as (proj & g2 & _ & H).
  apply Init_bind_inv in H as ([[ams aps] aas] & g3 & _ & H).
  apply Init_bind_inv in H as (sl & g4 & Hs & _).
  destruct (sliding_window_size config); [|now left]. right.
  destruct (Nat.eqb_spec (sliding_window_layer_stride config) 0); [discriminate|auto].
Qed.

(** C3. For every configuration and block index [i], the
    [CausalSelfAttention] constructed for block [i] has the adapter prefix
    machinery ([adapter_wte] with [adapter_prompt_length] rows of size
    [n_embd], [gating_factor] of zeros of shape (1, 1, n_head, 1) and an
    [adapter_kv_cache] slot holding [None]) if and only if
    [i >= adapter_start_layer]; below it none of these attributes exists.
    This holds of the constructor, which returns unless a sliding window is
    configured with a stride of zero, and of the attention module of every
    block [i < n_layer] of a constructed GPT. *)
Theorem CausalSelfAttention_adapter_prefix_layers (config : Config) :
  (forall i g,
     sliding_window_size config = None \/ sliding_window_layer_stride config <> 0 ->
     exists attn g',
       CausalSelfAttention_init config i g = Ok (attn, g') /\
       (has_adapter_prefix config attn <-> adapter_start_layer config <= i) /\
       (no_adapter_prefix attn <-> i < adapter_start_layer config)) /\
  (forall g model g',
     GPT_init config g = Ok (model, g') ->
     forall i, i < n_layer config ->
       exists attn,
         get_submodule model ["transformer"; "h"; Str.of_nat i; "attn"] = Ok attn /\
         cls attn = CausalSelfAttention /\
         (has_adapter_prefix config attn <-> adapter_start_layer config <= i) /\
         (no_adapter_prefix attn <-> i < adapter_start_layer config)).
Proof.
  assert (Hno : forall attn i,
             (adapter_start_layer config <= i -> has_adapter_prefix config attn) ->
             (i < adapter_start_layer config -> no_adapter_prefix attn) ->
             (no_adapter_prefix attn <-> i < adapter_start_layer config)).
  { intros attn i Hhas Hnone. split; [|exact Hnone]. intros (Hwte & _).
    destruct (Nat.lt_ge_cases i (adapter_start_layer config)) as [|Hge]; [assumption|].
    destruct (Hhas Hge) as ((wte & p & w & Hwte' & _) & _). congruence. }
  split.
  - intros i g Hstride.
    destruct (CausalSelfAttention_init_prefix config i g Hstride)
      as (attn & g' & Hinit & Hhas & Hnone & Hiff).
    exists attn, g'. auto.
  - intros g model g' Hinit i Hi.
    apply GPT_init_built in Hinit as (_ & _ & _ & _ & Hblocks).
    destruct (Hblocks i Hi) as (block & gi & gi' & Hpath & Hblock).
    apply Block_init_built in Hblock as (_ & _ & (attn & ga & ga' & Hattn & Hinit) & _).
    destruct (CausalSelfAttention_init_prefix config i ga
                (CausalSelfAttention_init_stride _ _ _ _ _ Hinit))
      as (attn' & ga'' & Hinit' & Hhas & Hnone & Hiff).
    rewrite Hinit in Hinit'. injection Hinit' as <- <-.
    exists attn. split; [|split; [|auto]].
    + clear -Hpath Hattn. cbn [get_submodule] in *.
      destruct (get_child model "transformer") as [t|]; [|discriminate]. cbn in *.
      destruct (get_child t "h") as [h|]; [|discriminate]. cbn in *.
      destruct (get_child h (Str.of_nat i)) as [b|]; [|discriminate]. cbn in *.
      injection Hpath as ->. now rewrite Hattn.
    + now apply CausalSelfAttention_init_built in Hinit as (? & _).
Qed.

(** ** [mark_only_adapter_v2_as_trainable] *)

Lemma assoc_map_keyed {A B} (f : string -> A -> B) (k : string) (l : list (string * A)) :
  assoc k (map (fun ka => (ka.1, f ka.1 ka.2)) l) = f k <$> assoc k l.
Proof.
  induction l as [|[k' a] l IH]; [reflexivity|]. cbn [map assoc fst snd].
  destruct (String.eqb_spec k k') as [->|_]; [reflexivity|exact IH].
Qed.

Lemma get_submodule_mark_from (prefix : string) (m : Module) (path : list string) :
  get_submodule (mark_from prefix m) path =
    mark_from (foldl qualify prefix path) <$> get_submodule m path.
Proof.
  revert prefix m. induction path as [|k path IH]; intros prefix m; [reflexivity|].
  destruct m as [c ps bs ats ms]. rewrite mark_from_unfold.
  cbn [get_submodule foldl]. unfold get_child. cbn [children].
  rewrite (assoc_map_keyed (fun k m => mark_from (qualify prefix k) m)).
  destruct (assoc k ms) as [sub|]; [|reflexivity]. cbn. apply IH.
Qed.

Lemma GPT_init_lm_head (config : Config) (g g' : Rng) (model : Module) :
  GPT_init config g = Ok (model, g') ->
  exists lm_head linear,
    get_submodule model ["lm_head"] = Ok lm_head /\
    lm_head =
      Mod AdapterV2Linear
          [("adapter_bias", {| data := zeros1 (default 0 (padded_vocab_size config));
                               requires_grad := false |});
           ("adapter_scale", {| data := ones1 (default 0 (padded_vocab_size config));
                                requires_grad := false |})]
          [] [] [("linear", linear)].
Proof.
  unfold GPT_init. destruct (padded_vocab_size config) as [vocab|]; [|discriminate].
  intros H.
  apply Init_bind_inv in H as (lm_head & g1 & Hlm & H).
  apply Init_bind_inv in H as (wte & g2 & Hwte & H).
  apply Init_bind_inv in H as (h & g3 & Hh & H).
  apply Init_bind_inv in H as (ln_f & g4 & Hln & H).
  destruct (rope_cache config (block_size config)) as [cos sin].
  apply Init_ret_inv in H as [-> _].
  destruct (AdapterV2Linear_init_ok (n_embd config) vocab (lm_head_bias config) g)
    as (linear & g1' & Hlm' & _).
  rewrite Hlm' in Hlm. injection Hlm as <- _.
  eexists _, linear. split; reflexivity.
Qed.

(** C2. After [mark_only_adapter_v2_as_trainable(model)] the model has the
    same named parameters with the same values, and for each of them
    [requires_grad] is True if and only if its name contains one of the
    substrings "adapter_wte", "gating_factor", "adapter_scale",
    "adapter_bias", "norm_1", "norm_2" and "ln_f". In a constructed GPT the
    backbone is thereby frozen: every parameter of every [torch.nn.Linear]
    (the weight and bias of each wrapped projection) and the token embedding
    [transformer.wte.weight] have [requires_grad] False, while the adapter
    parameters [lm_head.adapter_scale] and [lm_head.adapter_bias], frozen at
    construction, have it True. *)
Theorem mark_only_adapter_v2_as_trainable_spec :
  (forall model,
     map (fun np => (np.1, data np.2))
         (named_parameters "" (mark_only_adapter_v2_as_trainable model)) =
     map (fun np => (np.1, data np.2)) (named_parameters "" model)) /\
  (forall model name p,
     In (name, p) (named_parameters "" (mark_only_adapter_v2_as_trainable model)) ->
     (requires_grad p = true <->
      exists s,
        In s ["adapter_wte"; "gating_factor"; "adapter_scale"; "adapter_bias";
              "norm_1"; "norm_2"; "ln_f"] /\
        exists a b, name = a +:+ s +:+ b)) /\
  (forall config g model g',
     GPT_init config g = Ok (model, g') ->
     (forall path sub k p,
        In (path, sub) (named_modules "" (mark_only_adapter_v2_as_trainable model)) ->
        cls sub = Linear -> In (k, p) (parameters sub) ->
        requires_grad p = false) /\
     (exists wte p,
        get_submodule (mark_only_adapter_v2_as_trainable model) ["transformer"; "wte"]
          = Ok wte /\
        cls wte = Embedding /\ parameters wte = [("weight", p)] /\
        requires_grad p = false) /\
     (exists lm_head scale shift,
        get_submodule model ["lm_head"] = Ok lm_head /\
        get_parameter lm_head "adapter_scale" = Ok scale /\
        get_parameter lm_head "adapter_bias" = Ok shift /\
        requires_grad scale = false /\ requires_grad shift = false) /\
     (exists lm_head scale shift,
        get_submodule (mark_only_adapter_v2_as_trainable model) ["lm_head"]
          = Ok lm_head /\
        get_parameter lm_head "adapter_scale" = Ok scale /\
        get_parameter lm_head "adapter_bias" = Ok shift /\
        requires_grad scale = true /\ requires_grad shift = true)).
Proof.
  unfold mark_only_adapter_v2_as_trainable. split; [|split].
  - intros model. rewrite named_parameters_mark_from, map_map.
    apply map_ext. now intros [name p].
  - intros model name p. rewrite named_parameters_mark_from.
    intros Hin. apply in_map_iff in Hin as ([n0 p0] & [= <- <-] & _).
    cbn [requires_grad fst snd]. exact (adapter_filter_spec n0 p0).
  - intros config g model g' Hinit.
    pose proof (GPT_init_lm_head _ _ _ _ Hinit) as (lm_head & linear & Hlm & Hform).
    apply GPT_init_built in Hinit as (_ & (_ & _ & Hclean) & _ & Hwte & _).
    split; [|split; [|split]].
    + intros path sub k p. rewrite named_modules_mark_from.
      intros Hin Hcls Hk. apply in_map_iff in Hin as ([path0 sub0] & [= <- <-] & Hin).
      cbn [fst snd] in *. destruct sub0 as [c ps bs ats ms].
      rewrite mark_from_unfold in Hcls, Hk. cbn [cls parameters] in Hcls, Hk.
      apply in_map_iff in Hk as ([k0 p0] & [= <- <-] & Hk). cbn [requires_grad fst snd].
      eapply linear_names_clean_named_modules; eauto. reflexivity.
    + destruct Hwte as (wte & p & Hpath & Hc & Hps).
      rewrite get_submodule_mark_from, Hpath. cbn [fmap Result_fmap foldl].
      destruct wte as [c ps bs ats ms]. cbn [cls parameters] in Hc, Hps. subst c ps.
      rewrite mark_from_unfold. eexists _, _. split; [reflexivity|].
      split; [reflexivity|]. split; reflexivity.
    + subst lm_head. eexists _, _, _.
      split; [exact Hlm|]. repeat split; reflexivity.
    + rewrite get_submodule_mark_from, Hlm. cbn [fmap Result_fmap foldl].
      subst lm_head. rewrite mark_from_unfold. eexists _, _, _.
      split; [reflexivity|]. repeat split; reflexivity.
Qed.

(** ** Key remapping *)

Lemma map_old_foldl (sd : gmap string Tensor) mapping prefix :
  map_old_state_dict_weights sd mapping prefix = foldl (move_key prefix) sd mapping.
Proof.
  unfold map_old_state_dict_weights. revert sd.
  induction mapping as [|[o n] l IH]; intros sd; [reflexivity|]. cbn [foldl]. apply IH.
Qed.

Lemma move_key_other (prefix key : string) (sd : gmap string Tensor) e :
  key <> prefix +:+ e.1 -> key <> prefix +:+ e.2 ->
  move_key prefix sd e !! key = sd !! key.
Proof.
  intros H1 H2. unfold move_key. destruct (sd !! (prefix +:+ e.1)); [|reflexivity].
  rewrite lookup_insert_ne by congruence. now rewrite lookup_delete_ne by congruence.
Qed.

Lemma foldl_move_key_other (prefix key : string) (sd : gmap string Tensor) mapping :
  ~ In key (mapping_keys prefix mapping) ->
  foldl (move_key prefix) sd mapping !! key = sd !! key.
Proof.
  revert sd. induction mapping as [|e l IH]; intros sd Hnot; [reflexivity|].
  cbn [foldl]. cbn [mapping_keys flat_map] in Hnot.
  rewrite IH by (intros H; apply Hnot; cbn; auto).
  apply move_key_other; intros ->; apply Hnot; cbn; auto.
Qed.

Lemma foldl_move_key_entry (prefix : string) (sd : gmap string Tensor) mapping old new :
  NoDup (mapping_keys prefix mapping) -> In (old, new) mapping ->
  foldl (move_key prefix) sd mapping !! (prefix +:+ old) = None /\
  foldl (move_key prefix) sd mapping !! (prefix +:+ new) =
    match sd !! (prefix +:+ old) with
    | Some t => Some t
    | None => sd !! (prefix +:+ new)
    end.
Proof.
  intros Hnd Hin. apply in_split in Hin as (l1 & l2 & ->).
  unfold mapping_keys in Hnd. rewrite flat_map_app in Hnd. cbn [flat_map fst snd] in Hnd.
  apply NoDup_app in Hnd as (_ & Hl1 & Hnd).
  change ((prefix +:+ old) :: (prefix +:+ new) :: ?r)
    with ([prefix +:+ old; prefix +:+ new] ++ r) in Hnd.
  apply NoDup_app in Hnd as (Hon & Hl2 & _).
  apply NoDup_cons in Hon as [Hne _].
  assert (Hne' : prefix +:+ old <> prefix +:+ new) by (intros E; apply Hne; rewrite E; left).
  assert (Ho1 : ~ In (prefix +:+ old) (mapping_keys prefix l1)).
  { intros H. apply list_elem_of_In in H. apply (Hl1 _ H). left. }
  assert (Hn1 : ~ In (prefix +:+ new) (mapping_keys prefix l1)).
  { intros H. apply list_elem_of_In in H. apply (Hl1 _ H). right. left. }
  assert (Ho2 : ~ In (prefix +:+ old) (mapping_keys prefix l2)).
  { intros H. apply list_elem_of_In in H. apply (Hl2 (prefix +:+ old)); [left|exact H]. }
  assert (Hn2 : ~ In (prefix +:+ new) (mapping_keys prefix l2)).
  { intros H. apply list_elem_of_In in H.
    apply (Hl2 (prefix +:+ new)); [right; left|exact H]. }
  rewrite foldl_app. cbn [foldl].
  rewrite !(foldl_move_key_other _ _ _ l2) by assumption.
  unfold move_key at 1 3. cbn [fst snd].
  rewrite !(foldl_move_key_other _ _ _ l1) by assumption.
  destruct (sd !! (prefix +:+ old)) as [t|] eqn:E.
  - rewrite lookup_insert_ne by congruence. rewrite lookup_delete_eq.
    now rewrite lookup_insert_eq.
  - rewrite !(foldl_move_key_other _ _ _ l1) by assumption. auto.
Qed.

#[local] Instance append_prefix_inj (prefix : string) :
  Inj (=) (=) (String.app prefix).
Proof. intros a b. apply str_append_inj_l. Qed.

Lemma mapping_keys_prefix (prefix : string) (mapping : list (string * string)) :
  mapping_keys prefix mapping = String.app prefix <$> mapping_keys "" mapping.
Proof.
  unfold mapping_keys. induction mapping as [|e l IH]; [reflexivity|].
  cbn [flat_map]. rewrite IH, fmap_app. reflexivity.
Qed.

Lemma mapping_keys_NoDup (prefix : string) (mapping : list (string * string)) :
  NoDup (mapping_keys "" mapping) -> NoDup (mapping_keys prefix mapping).
Proof.
  intros H. rewrite mapping_keys_prefix.
  apply NoDup_fmap_2; [apply append_prefix_inj|exact H].
Qed.

Lemma map_old_remaps (mapping : list (string * string)) (prefix : string)
    (sd : gmap string Tensor) :
  independent mapping ->
  remaps mapping prefix sd (map_old_state_dict_weights sd mapping prefix).
Proof.
  intros [Hnd _] old new t Hin Hold. rewrite map_old_foldl.
  destruct (foldl_move_key_entry prefix sd mapping old new) as [H1 H2]; auto.
  { now apply mapping_keys_NoDup. }
  rewrite H1, H2, Hold. auto.
Qed.

Lemma map_old_other (mapping : list (string * string)) (prefix key : string)
    (sd : gmap string Tensor) :
  ~ In key (mapping_keys prefix mapping) ->
  map_old_state_dict_weights sd mapping prefix !! key = sd !! key.
Proof. rewrite map_old_foldl. apply foldl_move_key_other. Qed.

Lemma map_old_new_names (mapping : list (string * string)) (prefix : string)
    (sd : gmap string Tensor) :
  (forall old new, In (old, new) mapping -> sd !! (prefix +:+ old) = None) ->
  map_old_state_dict_weights sd mapping prefix = sd.
Proof.
  rewrite map_old_foldl. induction mapping as [|[o n] l IH]; intros H; [reflexivity|].
  cbn [foldl]. unfold move_key at 2. cbn [fst snd].
  rewrite (H o n) by now left. apply IH. intros old new Hin. apply (H old new). now right.
Qed.

(** A checkpoint under the old names loads as the same tensors under the
    new names do. *)
Lemma map_old_old_names (mapping : list (string * string)) (prefix : string)
    (sd : gmap string Tensor) :
  independent mapping ->
  (forall old new, In (old, new) mapping -> sd !! (prefix +:+ old) = None) ->
  map_old_state_dict_weights (old_names mapping prefix sd) mapping prefix =
    map_old_state_dict_weights sd mapping prefix.
Proof.
  intros [Hnd Hnd'] Hnew. rewrite (map_old_new_names mapping prefix sd Hnew).
  apply (mapping_keys_NoDup prefix) in Hnd, Hnd'.
  apply map_eq. intros key. unfold old_names. rewrite !map_old_foldl.
  destruct (in_dec string_dec key (mapping_keys prefix mapping)) as [Hin|Hnot].
  - apply in_flat_map in Hin as ([o n] & Hon & Hkey). cbn [fst snd] in Hkey.
    assert (Hon' : In (n, o) (map (fun e => (e.2, e.1)) mapping)).
    { apply in_map_iff. now exists (o, n). }
    destruct (foldl_move_key_entry prefix
                (foldl (move_key prefix) sd (map (fun e => (e.2, e.1)) mapping))
                mapping o n Hnd Hon) as [H1 H2].
    destruct (foldl_move_key_entry prefix sd _ n o Hnd' Hon') as [H3 H4].
    destruct Hkey as [<-|[<-|[]]].
    + rewrite H1. symmetry. eauto.
    + rewrite H2, H4, H3. rewrite (Hnew o n Hon). now destruct (sd !! (prefix +:+ n)).
  - rewrite !foldl_move_key_other; auto.
    intros Hin. apply Hnot. apply in_flat_map in Hin as ([n o] & Hno & Hkey).
    apply in_map_iff in Hno as ([o' n'] & [= <- <-] & Hon).
    apply in_flat_map. exists (o', n'). cbn [fst snd] in *.
    split; [exact Hon|]. destruct Hkey as [<-|[<-|[]]]; cbn; auto.
Qed.

Ltac independent_mapping :=
  split; apply (bool_decide_unpack _); vm_compute; exact I.

Lemma GPT_mapping_independent : independent GPT_mapping.
Proof. independent_mapping. Qed.

Lemma CausalSelfAttention_mapping_independent : independent CausalSelfAttention_mapping.
Proof. independent_mapping. Qed.

Lemma GptNeoxMLP_mapping_independent : independent GptNeoxMLP_mapping.
Proof. independent_mapping. Qed.

Lemma LLaMAMLP_mapping_independent : independent LLaMAMLP_mapping.
Proof. independent_mapping. Qed.

Lemma LLaMAMoE_mapping_independent : independent LLaMAMoE_mapping.
Proof. independent_mapping. Qed.

Lemma not_in_mapping_keys (prefix k : string) (mapping : list (string * string)) :
  ~ In k (mapping_keys "" mapping) -> ~ In (prefix +:+ k) (mapping_keys prefix mapping).
Proof.
  intros Hnot Hin. rewrite mapping_keys_prefix in Hin.
  apply in_map_iff in Hin as (k' & E & Hin). apply str_append_inj_l in E. now subst.
Qed.

(** Keys with the same prefix and different closed suffixes differ. *)
Ltac key_neq :=
  let E := fresh in
  intros E; apply str_append_inj_l in E; vm_compute in E; discriminate E.

Ltac not_mapped :=
  apply not_in_mapping_keys; vm_compute;
  let H := fresh in intros H; repeat (destruct H as [H|H]; [discriminate H|]); exact H.

(** ** [CausalSelfAttention._load_from_state_dict] *)

Lemma CausalSelfAttention_state_dict_steps (self : Module) (config : Config)
    (sd : gmap string Tensor) (prefix : string) :
  get_config self = Ok config ->
  CausalSelfAttention_state_dict self sd prefix =
    (sd2 ← gating_layout config prefix
             (map_old_state_dict_weights sd CausalSelfAttention_mapping prefix);
     Ok (foldl (legacy_to_current config prefix) sd2 ["weight"; "bias"])).
Proof.
  intros Hc. unfold CausalSelfAttention_state_dict, gating_layout. rewrite Hc.
  destruct (map_old_state_dict_weights sd CausalSelfAttention_mapping prefix
              !! (prefix +:+ "gating_factor")) as [t|]; [|reflexivity].
  destruct (size 1 t) as [n|e]; [|reflexivity]. reflexivity.
Qed.

Lemma gating_layout_other (config : Config) (prefix key : string)
    (sd sd' : gmap string Tensor) :
  gating_layout config prefix sd = Ok sd' -> key <> prefix +:+ "gating_factor" ->
  sd' !! key = sd !! key.
Proof.
  unfold gating_layout. intros H Hne.
  destruct (sd !! (prefix +:+ "gating_factor")) as [t|]; [|now injection H as <-].
  destruct (size 1 t) as [n|]; [|discriminate]. cbn in H.
  destruct (n =? n_head config); [|now injection H as <-].
  destruct (permute_0213 t) as [t'|]; [|discriminate]. injection H as <-.
  now rewrite lookup_insert_ne.
Qed.

Lemma legacy_to_current_other (config : Config) (prefix key attr : string)
    (sd : gmap string Tensor) :
  key <> prefix +:+ "attn.linear." +:+ attr ->
  key <> prefix +:+ "qkv.linear." +:+ attr ->
  legacy_to_current config prefix sd attr !! key = sd !! key.
Proof.
  intros H1 H2. unfold legacy_to_current.
  destruct (sd !! (prefix +:+ "attn.linear." +:+ attr)); [|reflexivity].
  rewrite lookup_insert_ne by congruence. now rewrite lookup_delete_ne by congruence.
Qed.

Lemma legacy_to_current_keys (config : Config) (prefix attr : string)
    (sd : gmap string Tensor) :
  legacy_to_current config prefix sd attr !! (prefix +:+ "attn.linear." +:+ attr) = None /\
  legacy_to_current config prefix sd attr !! (prefix +:+ "qkv.linear." +:+ attr) =
    match sd !! (prefix +:+ "attn.linear." +:+ attr) with
    | Some t => Some (qkv_reassemble t config)
    | None => sd !! (prefix +:+ "qkv.linear." +:+ attr)
    end.
Proof.
  unfold legacy_to_current.
  assert (Hne : prefix +:+ "qkv.linear." +:+ attr <> prefix +:+ "attn.linear." +:+ attr).
  { intros E. apply str_append_inj_l in E. discriminate E. }
  destruct (sd !! (prefix +:+ "attn.linear." +:+ attr)) as [t|] eqn:E.
  - rewrite lookup_insert_ne by exact Hne. rewrite lookup_delete_eq.
    now rewrite lookup_insert_eq.
  - auto.
Qed.

(** What the loop over ["weight"; "bias"] leaves in the state dict. *)
Lemma legacy_loop_keys (config : Config) (prefix attr : string)
    (sd : gmap string Tensor) :
  In attr ["weight"; "bias"] ->
  let final := foldl (legacy_to_current config prefix) sd ["weight"; "bias"] in
  final !! (prefix +:+ "attn.linear." +:+ attr) = None /\
  final !! (prefix +:+ "qkv.linear." +:+ attr) =
    match sd !! (prefix +:+ "attn.linear." +:+ attr) with
    | Some t => Some (qkv_reassemble t config)
    | None => sd !! (prefix +:+ "qkv.linear." +:+ attr)
    end.
Proof.
  intros Hattr. cbn [foldl].
  destruct Hattr as [<-|[<-|[]]].
  - rewrite !(legacy_to_current_other _ _ _ "bias") by key_neq.
    apply legacy_to_current_keys.
  - destruct (legacy_to_current_keys config prefix "bias"
                (legacy_to_current config prefix sd "weight")) as [H1 H2].
    rewrite H1, H2.
    rewrite !(legacy_to_current_other _ _ _ "weight") by key_neq. auto.
Qed.

Lemma legacy_loop_other (config : Config) (prefix key : string)
    (sd : gmap string Tensor) :
  (forall attr, In attr ["weight"; "bias"] ->
     key <> prefix +:+ "attn.linear." +:+ attr /\
     key <> prefix +:+ "qkv.linear." +:+ attr) ->
  foldl (legacy_to_current config prefix) sd ["weight"; "bias"] !! key = sd !! key.
Proof.
  intros H. cbn [foldl].
  destruct (H "weight") as [? ?]; [now left|].
  destruct (H "bias") as [? ?]; [now right; left|].
  now rewrite !legacy_to_current_other.
Qed.

Lemma legacy_loop_absent (config : Config) (prefix : string) (sd : gmap string Tensor) :
  (forall attr, In attr ["weight"; "bias"] ->
     sd !! (prefix +:+ "attn.linear." +:+ attr) = None) ->
  foldl (legacy_to_current config prefix) sd ["weight"; "bias"] = sd.
Proof.
  intros H. cbn [foldl]. unfold legacy_to_current at 2.
  rewrite (H "weight") by now left. unfold legacy_to_current.
  now rewrite (H "bias") by (right; now left).
Qed.

(** C5. Every [_load_from_state_dict] hook hands to its base class a state
    dict in which each tensor found under an old name sits under the
    corresponding [.linear.] name, other keys being untouched:
    [lm_head.{weight,bias}] for [GPT]; [fc.{weight,bias}] and
    [proj.{weight,bias}] for [GptNeoxMLP]; [fc_1.{weight,bias}],
    [fc_2.{weight,bias}] and [proj.{weight,bias}] for [LLaMAMLP];
    [gate.weight] for [LLaMAMoE]; [qkv.{weight,bias}] and
    [proj.{weight,bias}] for [CausalSelfAttention], whose hook moreover turns
    a legacy [attn.linear.{weight,bias}] tensor into
    [qkv.linear.{weight,bias}] through [qkv_reassemble]. Hence a checkpoint
    under the old names loads exactly as the same tensors under the new
    names. *)
Theorem load_from_state_dict_old_names :
  Forall (fun '(hook, mapping, c) =>
            forall self sd prefix args,
              (exists sd',
                 hook self sd prefix args =
                   super_load_from_state_dict c self sd' prefix args /\
                 (forall old new t,
                    In (old, new) mapping -> sd !! (prefix +:+ old) = Some t ->
                    sd' !! (prefix +:+ new) = Some t /\
                    sd' !! (prefix +:+ old) = None) /\
                 (forall key,
                    (forall old new, In (old, new) mapping ->
                       key <> prefix +:+ old /\ key <> prefix +:+ new) ->
                    sd' !! key = sd !! key)) /\
              ((forall old new, In (old, new) mapping -> sd !! (prefix +:+ old) = None) ->
               hook self (old_names mapping prefix sd) prefix args =
                 hook self sd prefix args))
         [(GPT_load_from_state_dict,
           [("lm_head.weight", "lm_head.linear.weight");
            ("lm_head.bias", "lm_head.linear.bias")],
           GPT);
          (GptNeoxMLP_load_from_state_dict,
           [("fc.weight", "fc.linear.weight");
            ("fc.bias", "fc.linear.bias");
            ("proj.weight", "proj.linear.weight");
            ("proj.bias", "proj.linear.bias")],
           GptNeoxMLP);
          (LLaMAMLP_load_from_state_dict,
           [("fc_1.weight", "fc_1.linear.weight");
            ("fc_1.bias", "fc_1.linear.bias");
            ("fc_2.weight", "fc_2.linear.weight");
            ("fc_2.bias", "fc_2.linear.bias");
            ("proj.weight", "proj.linear.weight");
            ("proj.bias", "proj.linear.bias")],
           LLaMAMLP);
          (LLaMAMoE_load_from_state_dict,
           [("gate.weight", "gate.linear.weight")],
           LLaMAMoE)] /\
  (forall self config sd prefix args,
     get_config self = Ok config ->
     let mapping := [("qkv.weight", "qkv.linear.weight");
                     ("qkv.bias", "qkv.linear.bias");
                     ("proj.weight", "proj.linear.weight");
                     ("proj.bias", "proj.linear.bias")] in
     (sd !! (prefix +:+ "gating_factor") = None ->
      exists sd', CausalSelfAttention_state_dict self sd prefix = Ok sd') /\
     (forall sd',
        CausalSelfAttention_state_dict self sd prefix = Ok sd' ->
        CausalSelfAttention_load_from_state_dict self sd prefix args =
          Ok (super_load_from_state_dict CausalSelfAttention self sd' prefix args) /\
        ((forall attr, In attr ["weight"; "bias"] ->
            sd !! (prefix +:+ "attn.linear." +:+ attr) = None) ->
         forall old new t,
           In (old, new) mapping -> sd !! (prefix +:+ old) = Some t ->
           sd' !! (prefix +:+ new) = Some t /\ sd' !! (prefix +:+ old) = None) /\
        (forall attr t,
           In attr ["weight"; "bias"] ->
           sd !! (prefix +:+ "attn.linear." +:+ attr) = Some t ->
           sd' !! (prefix +:+ "qkv.linear." +:+ attr) = Some (qkv_reassemble t config) /\
           sd' !! (prefix +:+ "attn.linear." +:+ attr) = None)) /\
     ((forall old new, In (old, new) mapping -> sd !! (prefix +:+ old) = None) ->
      CausalSelfAttention_load_from_state_dict self (old_names mapping prefix sd)
        prefix args =
        CausalSelfAttention_load_from_state_dict self sd prefix args)).
Proof.
  assert (Hkeys : forall (mapping : list (string * string)) prefix key,
             (forall old new, In (old, new) mapping ->
                key <> prefix +:+ old /\ key <> prefix +:+ new) ->
             ~ In key (mapping_keys prefix mapping)).
  { intros mapping prefix key Hkey Hin.
    apply in_flat_map in Hin as ([old new] & Hon & Hin). cbn [fst snd] in Hin.
    destruct (Hkey old new Hon) as [H1 H2].
    destruct Hin as [<-|[<-|[]]]; congruence. }
  split.
  - assert (H : forall mapping c self sd prefix args,
               independent mapping ->
               (exists sd',
                  super_load_from_state_dict c self
                    (map_old_state_dict_weights sd mapping prefix) prefix args =
                    super_load_from_state_dict c self sd' prefix args /\
                  (forall old new t,
                     In (old, new) mapping -> sd !! (prefix +:+ old) = Some t ->
                     sd' !! (prefix +:+ new) = Some t /\
                     sd' !! (prefix +:+ old) = None) /\
                  (forall key,
                     (forall old new, In (old, new) mapping ->
                        key <> prefix +:+ old /\ key <> prefix +:+ new) ->
                     sd' !! key = sd !! key)) /\
               ((forall old new, In (old, new) mapping ->
                                 sd !! (prefix +:+ old) = None) ->
                super_load_from_state_dict c self
                  (map_old_state_dict_weights (old_names mapping prefix sd) mapping prefix)
                  prefix args =
                super_load_from_state_dict c self
                  (map_old_state_dict_weights sd mapping prefix) prefix args)).
    { intros mapping c self sd prefix args Hind. split.
      - eexists. split; [reflexivity|]. split; [now apply map_old_remaps|].
        intros key Hkey. apply map_old_other. now apply Hkeys.
      - intros Hnew. now rewrite map_old_old_names. }
    constructor; [|constructor; [|constructor; [|constructor; [|constructor]]]];
      intros self sd prefix args.
    + apply (H GPT_mapping GPT), GPT_mapping_independent.
    + apply (H GptNeoxMLP_mapping GptNeoxMLP), GptNeoxMLP_mapping_independent.
    + apply (H LLaMAMLP_mapping LLaMAMLP), LLaMAMLP_mapping_independent.
    + apply (H LLaMAMoE_mapping LLaMAMoE), LLaMAMoE_mapping_independent.
  - intros self config sd prefix args Hc mapping.
    change mapping with CausalSelfAttention_mapping. clear mapping.
    pose proof (CausalSelfAttention_state_dict_steps self config sd prefix Hc) as Hsteps.
    split; [|split].
    + intros Hgate. rewrite Hsteps. unfold gating_layout.
      rewrite map_old_other by not_mapped. rewrite Hgate. cbn. eauto.
    + intros sd' Hsd. split; [|split].
      * unfold CausalSelfAttention_load_from_state_dict. now rewrite Hsd.
      * intros Hlegacy old new t Hin Hold.
        rewrite Hsteps in Hsd.
        destruct (gating_layout config prefix _) as [sd2|] eqn:Hg; [|discriminate].
        assert (sd' = foldl (legacy_to_current config prefix) sd2 ["weight"; "bias"])
          as -> by (injection Hsd as E; symmetry; exact E).
        rewrite legacy_loop_absent.
        -- destruct (map_old_remaps _ prefix sd CausalSelfAttention_mapping_independent
                       old new t Hin Hold) as [H1 H2].
           rewrite !(gating_layout_other _ _ _ _ _ Hg).
           ++ auto.
           ++ cbn in Hin. repeat (destruct Hin as [[= <- <-]|Hin]; [key_neq|]).
              destruct Hin.
           ++ cbn in Hin. repeat (destruct Hin as [[= <- <-]|Hin]; [key_neq|]).
              destruct Hin.
        -- intros attr Hattr. rewrite (gating_layout_other _ _ _ _ _ Hg).
           ++ rewrite map_old_other; [now apply Hlegacy|].
              destruct Hattr as [<-|[<-|[]]]; not_mapped.
           ++ destruct Hattr as [<-|[<-|[]]]; key_neq.
      * intros attr t Hattr Hlegacy.
        rewrite Hsteps in Hsd.
        destruct (gating_layout config prefix _) as [sd2|] eqn:Hg; [|discriminate].
        assert (sd' = foldl (legacy_to_current config prefix) sd2 ["weight"; "bias"])
          as -> by (injection Hsd as E; symmetry; exact E).
        destruct (legacy_loop_keys config prefix attr sd2 Hattr) as [H1 H2].
        rewrite H1, H2. rewrite (gating_layout_other _ _ _ _ _ Hg).
        -- rewrite map_old_other; [now rewrite Hlegacy|].
           destruct Hattr as [<-|[<-|[]]]; not_mapped.
        -- destruct Hattr as [<-|[<-|[]]]; key_neq.
    + intros Hnew. unfold CausalSelfAttention_load_from_state_dict.
      rewrite Hsteps.
      rewrite (CausalSelfAttention_state_dict_steps self config _ prefix Hc).
      now rewrite map_old_old_names by
        (auto; apply CausalSelfAttention_mapping_independent).
Qed.

(** ** The adapter gate in checkpoints *)

Lemma permute_old_gate (vs : list R) :
  vs <> [] -> permute_0213 (old_gate vs) = Ok (current_gate vs).
Proof.
  intros Hne. unfold permute_0213, old_gate, current_gate. do 3 f_equal.
  cbn [map]. destruct vs as [|v vs]; [congruence|]. cbn [map size1 length transpose].
  do 2 f_equal. clear. cbn [flat_map firstn app]. f_equal.
  induction vs as [|w vs IH]; [reflexivity|]. cbn [map flat_map firstn app]. now rewrite IH.
Qed.

Lemma zeros4_current_gate (n : nat) : zeros4 1 1 n 1 = current_gate (repeat zero n).
Proof.
  unfold zeros4, current_gate. cbn [repeat]. do 3 f_equal.
  induction n as [|n IH]; [reflexivity|]. cbn [repeat map]. now rewrite IH.
Qed.

Lemma shape_old_gate (vs : list R) :
  vs <> [] -> shape (old_gate vs) = [1; length vs; 1; 1].
Proof. destruct vs; [congruence|]. intros _. cbn. now rewrite length_map. Qed.

Lemma shape_current_gate (vs : list R) :
  vs <> [] -> shape (current_gate vs) = [1; 1; length vs; 1].
Proof. destruct vs; [congruence|]. intros _. cbn. now rewrite length_map. Qed.

Lemma CausalSelfAttention_gating (self : Module) (config : Config)
    (sd : gmap string Tensor) (prefix : string) (args : LoadArgs) (t u : Tensor) :
  get_config self = Ok config ->
  sd !! (prefix +:+ "gating_factor") = Some t ->
  (n ← size 1 t; if n =? n_head config then permute_0213 t else Ok t) = Ok u ->
  exists sd',
    CausalSelfAttention_load_from_state_dict self sd prefix args =
      Ok (super_load_from_state_dict CausalSelfAttention self sd' prefix args) /\
    sd' !! (prefix +:+ "gating_factor") = Some u.
Proof.
  intros Hc Hsd Hu. unfold CausalSelfAttention_load_from_state_dict.
  rewrite (CausalSelfAttention_state_dict_steps self config sd prefix Hc).
  unfold gating_layout. rewrite map_old_other by not_mapped. rewrite Hsd.
  destruct (size 1 t) as [n|]; [|discriminate]. cbn [mbind Result_bind] in *.
  assert (Hother : forall attr, In attr ["weight"; "bias"] ->
            prefix +:+ "gating_factor" <> prefix +:+ "attn.linear." +:+ attr /\
            prefix +:+ "gating_factor" <> prefix +:+ "qkv.linear." +:+ attr).
  { intros attr [<-|[<-|[]]]; split; key_neq. }
  destruct (n =? n_head config).
  - rewrite Hu. cbn [mbind Result_bind]. eexists. split; [reflexivity|].
    rewrite legacy_loop_other by exact Hother. apply lookup_insert_eq.
  - injection Hu as <-. eexists. split; [reflexivity|].
    rewrite legacy_loop_other by exact Hother.
    rewrite map_old_other by not_mapped. exact Hsd.
Qed.

(** C7. While [CausalSelfAttention._load_from_state_dict] runs, a tensor
    stored under [prefix + "gating_factor"] whose size at dimension 1 is
    [n_head] is replaced by its permutation with dims (0, 2, 1, 3); for the
    older layout (1, n_head, 1, 1) this is the same values in the shape (1, 1,
    n_head, 1) of the current parameter. A tensor whose size at dimension 1
    differs from [n_head], such as the current layout when [n_head > 1], is
    left as it is. *)
Theorem gating_factor_layout (self : Module) (config : Config)
    (sd : gmap string Tensor) (prefix : string) (args : LoadArgs) :
  get_config self = Ok config ->
  let key := prefix +:+ "gating_factor" in
  let loads_as (u : Tensor) :=
    exists sd',
      CausalSelfAttention_load_from_state_dict self sd prefix args =
        Ok (super_load_from_state_dict CausalSelfAttention self sd' prefix args) /\
      sd' !! key = Some u in
  (forall t t',
     sd !! key = Some t -> size 1 t = Ok (n_head config) ->
     permute_0213 t = Ok t' -> loads_as t') /\
  (forall t n,
     sd !! key = Some t -> size 1 t = Ok n -> n <> n_head config -> loads_as t) /\
  (forall vs,
     0 < n_head config -> length vs = n_head config ->
     sd !! key = Some (old_gate vs) ->
     shape (old_gate vs) = [1; n_head config; 1; 1] /\
     loads_as (current_gate vs) /\
     shape (current_gate vs) = [1; 1; n_head config; 1] /\
     shape (current_gate vs) = shape (zeros4 1 1 (n_head config) 1)) /\
  (forall vs,
     1 < n_head config -> length vs = n_head config ->
     sd !! key = Some (current_gate vs) -> loads_as (current_gate vs)).
Proof.
  intros Hc key loads_as. subst key loads_as. cbn beta.
  split; [|split; [|split]].
  - intros t t' Hsd Hsize Hperm.
    apply (CausalSelfAttention_gating self config sd prefix args t t' Hc Hsd).
    rewrite Hsize. cbn [mbind Result_bind]. now rewrite Nat.eqb_refl.
  - intros t n Hsd Hsize Hne.
    apply (CausalSelfAttention_gating self config sd prefix args t t Hc Hsd).
    rewrite Hsize. cbn [mbind Result_bind]. apply Nat.eqb_neq in Hne. now rewrite Hne.
  - intros vs Hpos Hlen Hsd.
    assert (Hvs : vs <> []) by (intros ->; cbn in Hlen; lia).
    rewrite shape_old_gate, shape_current_gate, zeros4_current_gate by assumption.
    rewrite shape_current_gate by (destruct (n_head config); [lia|discriminate]).
    rewrite repeat_length, Hlen. repeat split.
    apply (CausalSelfAttention_gating self config sd prefix args _ _ Hc Hsd).
    unfold size. rewrite shape_old_gate by assumption. cbn [nth_error of_option].
    cbn [mbind Result_bind]. rewrite Hlen, Nat.eqb_refl. now apply permute_old_gate.
  - intros vs Hpos Hlen Hsd.
    assert (Hvs : vs <> []) by (intros ->; cbn in Hlen; lia).
    apply (CausalSelfAttention_gating self config sd prefix args _ _ Hc Hsd).
    unfold size. rewrite shape_current_gate by assumption. cbn [nth_error of_option].
    cbn [mbind Result_bind].
    destruct (Nat.eqb_spec 1 (n_head config)); [lia|reflexivity].
Qed.

(** ** [GPT.forward]: the guards *)

Lemma mapM_Raise {A B} (f : A -> Result B) (P : Exn -> Prop) (l : list A) (e : Exn) :
  (forall x e', f x = Raise e' -> P e') -> mapM f l = Raise e -> P e.
Proof.
  intros Hf. revert e. induction l as [|x l IH]; intros e; cbn; [discriminate|].
  destruct (f x) as [y|e'] eqn:Hx; cbn.
  - destruct (mapM f l) as [k|e'']; cbn; [discriminate|]. intros [= <-]. now apply IH.
  - intros [= <-]. eauto.
Qed.

Lemma select_Raise {X} (pos : list Z) (l : list X) (e : Exn) :
  select pos l = Raise e -> e = IndexError.
Proof.
  apply (mapM_Raise _ (fun e => e = IndexError)). intros i e'.
  destruct (i <? 0)%Z; [congruence|]. destruct (nth_error l (Z.to_nat i)); cbn; congruence.
Qed.

Lemma fmap_Raise {A B} (f : A -> B) (r : Result A) (e : Exn) :
  f <$> r = Raise e -> r = Raise e.
Proof. destruct r; cbn; congruence. Qed.

Lemma out_of_range_Raise {A} (t : Tensor) (r : Result A) (e : Exn) :
  out_of_range t r = Raise e -> e = IndexError \/ e = RuntimeError.
Proof.
  destruct r; cbn; [discriminate|]. intros [= <-]. unfold index_error.
  destruct t; auto; destruct (numel _ =? 0); auto.
Qed.

Lemma index_select_Raise (dim : nat) (t : Tensor) (pos : list Z) (e : Exn) :
  index_select dim t pos = Raise e -> e = IndexError \/ e = RuntimeError.
Proof.
  destruct dim as [|[|[|dim]]], t; cbn [index_select]; try (intros [= <-]; now left);
    intros H; apply fmap_Raise in H;
    try (now apply out_of_range_Raise in H).
  left. now apply select_Raise in H.
Qed.

(** C10, as the code has it. [GPT.forward] raises [ValueError] from its
    guards if and only if the sequence length [idx.size(1)] exceeds
    [max_seq_length]. With [input_pos] given it raises [TypeError] from its
    guards if and only if the length check passed, the rows of the rope cache
    selected by [input_pos] exist, and [mask_cache] is [None]; without
    [input_pos] the guards raise no [TypeError]. The guards never change the
    model: when they raise, [forward] raises the same exception with the
    model as it was, and otherwise [forward] proceeds to the embedding with
    the selected [cos], [sin] and [mask]. *)
Theorem GPT_forward_guard_errors (self : Module) (idx : list (list Z))
    (input_pos : option (list Z)) (lm_head_chunk_size : Z) (max_seq_length : nat) :
  get_attr self "max_seq_length" = Ok (ANat max_seq_length) ->
  let T := size1 idx in
  let guards := GPT_forward_guards idx input_pos self in
  guards.2 = self /\
  (guards.1 = Raise ValueError <-> max_seq_length < T) /\
  (forall pos, input_pos = Some pos ->
     (guards.1 = Raise TypeError <->
      T <= max_seq_length /\ rope_selected self pos /\
      get_attr self "mask_cache" = Ok ANone)) /\
  (input_pos = None -> guards.1 <> Raise TypeError) /\
  (forall e, guards.1 = Raise e ->
     GPT_forward idx input_pos lm_head_chunk_size self = (Raise e, self)) /\
  (forall cos sin mask, guards.1 = Ok (cos, sin, mask) ->
     GPT_forward idx input_pos lm_head_chunk_size self =
       (x ← GPT_forward_hidden idx input_pos cos sin mask;
        GPT_forward_logits x lm_head_chunk_size) self).
Proof.
  intros Hmax T guards.
  assert (Hpair : guards =
            (if max_seq_length <? T then Raise ValueError
             else match input_pos with
                  | Some pos =>
                      cos ← (c ← get_buffer self "cos"; index_select 0 c pos);
                      sin ← (s ← get_buffer self "sin"; index_select 0 s pos);
                      mask_cache ← get_attr self "mask_cache";
                      match mask_cache with
                      | ANone => Raise TypeError
                      | ATensor mask_cache =>
                          mask ← index_select 2 mask_cache pos; Ok (cos, sin, Some mask)
                      | _ => Raise AttributeError
                      end
                  | None =>
                      cos ← (c ← get_buffer self "cos"; Ok (take_rows T c));
                      sin ← (s ← get_buffer self "sin"; Ok (take_rows T s));
                      Ok (cos, sin, None)
                  end, self)).
  { subst guards T.
    unfold GPT_forward_guards, mbind, Fwd_bind, Result_bind, reading, pure, mret, Fwd_ret.
    rewrite Hmax. cbn beta iota.
    destruct (max_seq_length <? size1 idx); [reflexivity|].
    destruct input_pos as [pos|].
    - destruct (get_buffer self "cos") as [c|]; [|reflexivity].
      destruct (index_select 0 c pos); [|reflexivity].
      destruct (get_buffer self "sin") as [s|]; [|reflexivity].
      destruct (index_select 0 s pos); [|reflexivity].
      destruct (get_attr self "mask_cache") as [[]|]; try reflexivity.
      now destruct (index_select 2 t pos).
    - destruct (get_buffer self "cos") as [c|]; [|reflexivity].
      now destruct (get_buffer self "sin") as [s|]. }
  assert (Hstate : guards.2 = self) by now rewrite Hpair.
  split; [exact Hstate|].
  assert (Hforward : GPT_forward idx input_pos lm_head_chunk_size self =
            match guards.1 with
            | Ok (cos, sin, mask) =>
                (x ← GPT_forward_hidden idx input_pos cos sin mask;
                 GPT_forward_logits x lm_head_chunk_size) self
            | Raise e => (Raise e, self)
            end).
  { unfold GPT_forward. unfold mbind at 1, Fwd_bind at 1. fold guards.
    destruct guards as [[[[cos sin] mask]|e] self']; cbn [fst snd] in *; now subst. }
  assert (Hguards : guards.1 = (if max_seq_length <? T then Raise ValueError
             else match input_pos with
                  | Some pos =>
                      cos ← (c ← get_buffer self "cos"; index_select 0 c pos);
                      sin ← (s ← get_buffer self "sin"; index_select 0 s pos);
                      mask_cache ← get_attr self "mask_cache";
                      match mask_cache with
                      | ANone => Raise TypeError
                      | ATensor mask_cache =>
                          mask ← index_select 2 mask_cache pos; Ok (cos, sin, Some mask)
                      | _ => Raise AttributeError
                      end
                  | None =>
                      cos ← (c ← get_buffer self "cos"; Ok (take_rows T c));
                      sin ← (s ← get_buffer self "sin"; Ok (take_rows T s));
                      Ok (cos, sin, None)
                  end)) by now rewrite Hpair.
  clear Hpair.
  assert (Hbuf : forall k e, get_buffer self k = Raise e -> e = AttributeError).
  { intros k e. unfold get_buffer. destruct (assoc k (buffers self)); cbn; congruence. }
  assert (Hattr : forall k e, get_attr self k = Raise e -> e = AttributeError).
  { intros k e. unfold get_attr. destruct (assoc k (attrs self)); cbn; congruence. }
  split; [|split; [|split; [|split]]].
  - rewrite Hguards. destruct (Nat.ltb_spec max_seq_length T) as [Hlt|Hge].
    + tauto.
    + split; [|lia]. intros H. exfalso. destruct input_pos as [pos|].
      * destruct (get_buffer self "cos") as [c|e0] eqn:E0; cbn [mbind Result_bind] in H;
          [|injection H as ->; now apply Hbuf in E0].
        destruct (index_select 0 c pos) eqn:E1; cbn [mbind Result_bind] in H;
          [|injection H as ->; apply index_select_Raise in E1 as [E1|E1]; discriminate E1].
        destruct (get_buffer self "sin") as [s|e0] eqn:E0'; cbn [mbind Result_bind] in H;
          [|injection H as ->; now apply Hbuf in E0'].
        destruct (index_select 0 s pos) eqn:E2; cbn [mbind Result_bind] in H;
          [|injection H as ->; apply index_select_Raise in E2 as [E2|E2]; discriminate E2].
        destruct (get_attr self "mask_cache") as [[]|e0] eqn:Ea; cbn [mbind Result_bind] in H;
          try discriminate; [|injection H as ->; now apply Hattr in Ea].
        destruct (index_select 2 t pos) eqn:E3; cbn [mbind Result_bind] in H; [discriminate|].
        injection H as ->. apply index_select_Raise in E3 as [E3|E3]; discriminate E3.
      * destruct (get_buffer self "cos") as [c|e0] eqn:E0; cbn [mbind Result_bind] in H;
          [|injection H as ->; now apply Hbuf in E0].
        destruct (get_buffer self "sin") as [s|e0] eqn:E0'; cbn [mbind Result_bind] in H;
          [discriminate|injection H as ->; now apply Hbuf in E0'].
  - intros pos ->. rewrite Hguards. unfold rope_selected.
    destruct (Nat.ltb_spec max_seq_length T) as [Hlt|Hge].
    + split; [discriminate|]. intros [? _]. lia.
    + destruct (get_buffer self "cos") as [c|e0] eqn:E0; cbn [mbind Result_bind].
      2:{ split.
          - intros [= ->]. now apply Hbuf in E0.
          - intros (_ & ((? & ? & [=] & _) & _) & _). }
      destruct (index_select 0 c pos) as [cos|e1] eqn:E1; cbn [mbind Result_bind].
      2:{ split.
          - intros [= ->]. apply index_select_Raise in E1 as [E1|E1]; discriminate E1.
          - intros (_ & ((? & ? & [= <-] & E) & _) & _). congruence. }
      destruct (get_buffer self "sin") as [s|e0] eqn:E0'; cbn [mbind Result_bind].
      2:{ split.
          - intros [= ->]. now apply Hbuf in E0'.
          - intros (_ & (_ & (? & ? & [=] & _)) & _). }
      destruct (index_select 0 s pos) as [sin|e2] eqn:E2; cbn [mbind Result_bind].
      2:{ split.
          - intros [= ->]. apply index_select_Raise in E2 as [E2|E2]; discriminate E2.
          - intros (_ & (_ & (? & ? & [= <-] & E)) & _). congruence. }
      destruct (get_attr self "mask_cache") as [a|e0] eqn:Ea; cbn [mbind Result_bind].
      2:{ split.
          - intros [= ->]. now apply Hattr in Ea.
          - intros (_ & _ & [=]). }
      destruct a; cbn [mbind Result_bind]; try (split; [discriminate|intros (_ & _ & [=])]).
      * split; [|reflexivity]. intros _. split; [exact Hge|]. split; [|reflexivity].
        split; eauto.
      * destruct (index_select 2 t pos) eqn:E3; cbn [mbind Result_bind];
          (split; [|intros (_ & _ & [=])]); [discriminate|].
        intros [= ->]. apply index_select_Raise in E3 as [E3|E3]; discriminate E3.
  - intros ->. rewrite Hguards. destruct (max_seq_length <? T); [discriminate|].
    destruct (get_buffer self "cos") as [c|e0] eqn:E0; cbn [mbind Result_bind];
      [|intros [= ->]; now apply Hbuf in E0].
    destruct (get_buffer self "sin") as [s|e0] eqn:E0'; cbn [mbind Result_bind];
      [discriminate|intros [= ->]; now apply Hbuf in E0'].
  - intros e He. now rewrite Hforward, He.
  - intros cos sin mask Hok. now rewrite Hforward, Hok.
Qed.

(** ** Splitting and concatenating along dimension 1 *)

Lemma split_dim1_pieces {X} (c : nat) (x : list (list X)) :
  split_dim1 c x = map (fun k => piece c k x) (seq 0 (num_splits (size1 x) c)).
Proof. reflexivity. Qed.

Lemma Forall2_mapM_Ok {A B} (f : A -> Result B) (l : list A) (k : list B) :
  Forall2 (fun x y => f x = Ok y) l k -> mapM f l = Ok k.
Proof.
  induction 1 as [|x y l k Hx _ IH]; [reflexivity|]. cbn. rewrite Hx. cbn.
  now rewrite IH.
Qed.

Lemma mapM_piece {X Y} (f : X -> Result Y) (c k : nat) (a : list (list X))
    (b : list (list Y)) :
  mapM (mapM f) a = Ok b ->
  mapM (mapM f) (piece c k a) = Ok (piece c k b) /\ size1 a = size1 b.
Proof.
  intros H. apply mapM_Ok_Forall2 in H. split.
  - apply Forall2_mapM_Ok. unfold piece. apply Forall2_fmap.
    eapply Forall2_impl; [exact H|]. intros r r' Hr. cbn.
    apply Forall2_mapM_Ok. apply Forall2_take, Forall2_drop.
    now apply mapM_Ok_Forall2.
  - destruct H as [|r r' a b Hr _]; [reflexivity|]. cbn.
    apply mapM_Ok_Forall2 in Hr. now apply Forall2_length in Hr.
Qed.

Lemma concat_pieces {X} (c n : nat) (r : list X) :
  length r <= n * c ->
  concat (map (fun k => firstn c (skipn (k * c) r)) (seq 0 n)) = r.
Proof.
  revert r. induction n as [|n IH]; intros r Hlen.
  - destruct r; [reflexivity|cbn in Hlen; lia].
  - cbn [seq map concat]. rewrite <- seq_shift, map_map.
    replace (skipn (0 * c) r) with r by reflexivity.
    transitivity (firstn c r ++ skipn c r); [|apply firstn_skipn]. f_equal.
    rewrite <- (IH (skipn c r)).
    + f_equal. apply map_ext. intros k. f_equal.
      rewrite skipn_skipn. f_equal. lia.
    + rewrite length_skipn. cbn in Hlen. lia.
Qed.

Lemma num_splits_covers (n c : nat) : 0 < c -> n <= num_splits n c * c.
Proof.
  intros Hc. unfold num_splits.
  assert (n <= (n + c - 1) / c * c).
  { pose proof (Nat.div_mod_eq (n + c - 1) c) as E.
    pose proof (Nat.mod_upper_bound (n + c - 1) c) as Hm. nia. }
  nia.
Qed.

Lemma num_splits_pos (n c : nat) : 0 < num_splits n c.
Proof. unfold num_splits. lia. Qed.

Lemma map_nth_seq {X} (d : X) (l : list X) :
  map (fun i => nth i l d) (seq 0 (length l)) = l.
Proof.
  induction l as [|x l IH]; [reflexivity|]. cbn [length seq map nth].
  f_equal. rewrite <- seq_shift, map_map. exact IH.
Qed.

(** Concatenating the pieces of a rectangular tensor gives it back. *)
Lemma cat_split_dim1 {X} (c : nat) (x : list (list X)) :
  0 < c -> Forall (fun r => length r = size1 x) x ->
  cat_dim1 (split_dim1 c x) = Ok x.
Proof.
  intros Hc Hrect. rewrite split_dim1_pieces.
  pose proof (num_splits_pos (size1 x) c) as Hpos.
  pose proof (num_splits_covers (size1 x) c Hc) as Hcov.
  destruct (num_splits (size1 x) c) as [|n] eqn:En; [lia|].
  cbn [seq map]. unfold cat_dim1.
  replace (forallb _ _) with true.
  2:{ symmetry. apply forallb_forall. intros t Ht.
      change (piece c 0 x :: map (fun k => piece c k x) (seq 1 n))
        with (map (fun k => piece c k x) (seq 0 (S n))) in Ht.
      apply in_map_iff in Ht as (k & <- & _). unfold piece.
      rewrite !length_map. apply Nat.eqb_refl. }
  f_equal. unfold piece at 3. rewrite length_map.
  change (piece c 0 x :: map (fun k => piece c k x) (seq 1 n))
    with (map (fun k => piece c k x) (seq 0 (S n))).
  rewrite <- (map_nth_seq [] x) at 2. apply map_ext_in. intros i Hi.
  apply in_seq in Hi. rewrite map_map.
  erewrite map_ext.
  - apply concat_pieces. rewrite Forall_forall in Hrect.
    rewrite (Hrect (nth i x [])); [exact Hcov|]. apply list_elem_of_In, nth_In. lia.
  - intros k. unfold piece. cbn beta.
    rewrite (nth_indep _ [] ((fun r : list X => firstn c (skipn (k * c) r)) []))
      by (rewrite length_map; lia).
    apply (map_nth (fun r : list X => firstn c (skipn (k * c) r))).
Qed.

(** ** The head on pieces *)

Lemma rowwise_rows_map (f : list R -> Result (list R)) : rowwise (rows_map f).
Proof.
  intros x b H. destruct x as [v|m|a|q]; cbn in H.
  - destruct (f v); discriminate.
  - destruct (mapM f m); discriminate.
  - destruct (mapM (mapM f) a) as [b'|] eqn:E; cbn in H; [|discriminate].
    injection H as ->. exists a. split; [reflexivity|].
    split; [now apply (mapM_piece f 0 0 a b)|].
    intros c k. cbn. now rewrite (proj1 (mapM_piece f c k a b E)).
  - destruct (mapM (mapM (mapM f)) q); discriminate.
Qed.

Lemma rowwise_bind (F G : Tensor -> Result Tensor) :
  rowwise F -> rowwise G -> rowwise (fun x => y ← F x; G y).
Proof.
  intros HF HG x b H. destruct (F x) as [y|] eqn:Ey; cbn in H; [|discriminate].
  destruct (HG y b H) as (a' & -> & Hsz' & Hp').
  destruct (HF x a' Ey) as (a & -> & Hsz & Hp).
  exists a. split; [reflexivity|]. split; [congruence|].
  intros c k. rewrite Hp. cbn. apply Hp'.
Qed.

Lemma rowwise_Raise (e : Exn) : rowwise (fun _ => Raise e).
Proof. intros x b H. discriminate. Qed.

Lemma rowwise_ext (F G : Tensor -> Result Tensor) :
  (forall x, F x = G x) -> rowwise G -> rowwise F.
Proof.
  intros E HG x b H. rewrite E in H. destruct (HG x b H) as (a & -> & Hsz & Hp).
  exists a. split; [reflexivity|]. split; [exact Hsz|]. intros c k. rewrite E. apply Hp.
Qed.

Lemma rowwise_Linear_forward (linear : Module) : rowwise (Linear_forward linear).
Proof.
  unfold Linear_forward.
  destruct (get_parameter linear "weight") as [weight|e]; [|apply rowwise_Raise].
  cbn [mbind Result_bind].
  destruct (as_T2 (data weight)) as [w|e]; [|apply rowwise_Raise].
  cbn [mbind Result_bind].
  destruct (weight_width linear w) as [width|e]; [|apply rowwise_Raise].
  cbn [mbind Result_bind].
  destruct (assoc "bias" (parameters linear)) as [b|]; [|apply rowwise_rows_map].
  destruct (as_vector (data b)) as [bv|e]; [|apply rowwise_Raise].
  apply rowwise_rows_map.
Qed.

Lemma rowwise_AdapterV2Linear_forward (self : Module) :
  rowwise (AdapterV2Linear_forward self).
Proof.
  unfold AdapterV2Linear_forward.
  destruct (get_parameter self "adapter_scale") as [ps|e]; [|apply rowwise_Raise].
  cbn [mbind Result_bind].
  destruct (get_child self "linear") as [linear|e]; [|apply rowwise_Raise].
  cbn [mbind Result_bind].
  destruct (get_parameter self "adapter_bias") as [pb|e]; [|apply rowwise_Raise].
  cbn [mbind Result_bind].
  destruct (as_vector (data ps)) as [scale|e]; [|apply rowwise_Raise].
  cbn [mbind Result_bind].
  apply rowwise_bind; [apply rowwise_Linear_forward|].
  destruct (as_vector (data pb)) as [shift|e]; [|apply rowwise_Raise].
  cbn [mbind Result_bind].
  apply rowwise_bind; apply rowwise_rows_map.
Qed.

(** The head applied piece by piece gives the pieces of the head's result. *)
Lemma rowwise_pieces (F : Tensor -> Result Tensor) (c : nat)
    (a b : list (list (list R))) :
  rowwise F -> F (T3 a) = Ok (T3 b) ->
  mapM F (map T3 (split_dim1 c a)) = Ok (map T3 (split_dim1 c b)).
Proof.
  intros HF H. destruct (HF _ _ H) as (a' & [= <-] & Hsz & Hp).
  rewrite !split_dim1_pieces, Hsz, !map_map.
  apply mapM_map_Ok. apply Forall_forall. intros k _. apply Hp.
Qed.

Lemma tensor_cat1_split (c : nat) (b : list (list (list R))) :
  0 < c -> Forall (fun r => length r = size1 b) b ->
  tensor_cat1 (map T3 (split_dim1 c b)) = Ok (T3 b).
Proof.
  intros Hc Hrect. pose proof (cat_split_dim1 c b Hc Hrect) as Hcat.
  assert (Hms : mapM as_T3 (map T3 (split_dim1 c b)) = Ok (split_dim1 c b)).
  { rewrite <- (map_id (split_dim1 c b)) at 2.
    apply mapM_map_Ok. apply Forall_forall. reflexivity. }
  unfold tensor_cat1. destruct (split_dim1 c b) as [|t0 ts] eqn:E.
  - discriminate Hcat.
  - cbn [map]. change (T3 t0 :: map T3 ts) with (map T3 (t0 :: ts)).
    rewrite Hms. cbn [mbind Result_bind]. now rewrite Hcat.
Qed.

(** ** [GPT.forward]: chunked and whole logits *)

Lemma tensor_map_T3_inv (g : R -> R) (y0 : Tensor) (b : list (list (list R))) :
  tensor_map g y0 = T3 b -> Forall (fun r => length r = size1 b) b ->
  exists b0, y0 = T3 b0 /\ size1 b0 = size1 b /\
             Forall (fun r => length r = size1 b0) b0.
Proof.
  destruct y0 as [| |b0|]; try discriminate. cbn. intros [= <-] Hrect.
  exists b0. split; [reflexivity|].
  assert (Hsz : size1 (map (map (map g)) b0) = size1 b0).
  { destruct b0 as [|r b0]; [reflexivity|]. cbn [map size1]. apply length_map. }
  split; [now rewrite Hsz|].
  rewrite Hsz in Hrect. rewrite Forall_map in Hrect.
  eapply Forall_impl; [exact Hrect|]. intros r. cbn beta. now rewrite length_map.
Qed.

Lemma GPT_forward_logits_whole (x y : Tensor) (s2 s : Module) :
  GPT_forward_logits x 0 s2 = (Ok (inl y), s) ->
  s = s2 /\
  exists lm_head config y0,
    get_child s2 "lm_head" = Ok lm_head /\ get_config s2 = Ok config /\
    AdapterV2Linear_forward lm_head x = Ok y0 /\
    y = match final_logit_softcapping config with
        | Some cap => softcap cap y0
        | None => y0
        end.
Proof.
  unfold GPT_forward_logits, mbind, Fwd_bind, reading, pure, mret, Fwd_ret.
  destruct (get_child s2 "lm_head") as [lm_head|]; [|discriminate]. cbn [Z.gtb Z.compare].
  destruct (AdapterV2Linear_forward lm_head x) as [y0|] eqn:Ey0; [|discriminate].
  destruct (get_config s2) as [config|]; [|discriminate].
  intros [= <- <-]. split; [reflexivity|]. now exists lm_head, config, y0.
Qed.

Lemma GPT_forward_logits_chunked (x : Tensor) (c : Z) (s2 lm_head : Module)
    (pieces ys : list Tensor) :
  (0 < c)%Z -> get_child s2 "lm_head" = Ok lm_head ->
  tensor_split1 (Z.to_nat c) x = Ok pieces ->
  mapM (AdapterV2Linear_forward lm_head) pieces = Ok ys ->
  GPT_forward_logits x c s2 = (Ok (inr ys), s2).
Proof.
  intros Hc Hlm Hsplit Hys.
  unfold GPT_forward_logits, mbind, Fwd_bind, reading, pure, mret, Fwd_ret.
  rewrite Hlm. destruct (Z.gtb_spec c 0); [|lia]. now rewrite Hsplit, Hys.
Qed.

(** C9, as the code has it. Whenever [GPT.forward] with
    [lm_head_chunk_size = 0] returns a rectangular 3-D tensor [y] over [T]
    positions, the same call with a chunk size [c > 0] returns, from the same
    model and leaving it in the same state, [max(ceil(T / c), 1)] chunks,
    chunk [k] holding the positions [k * c : (k + 1) * c] of the logits [y0]
    that the head gives before soft-capping; their concatenation along
    dimension 1 is [y0]. The unchunked result [y] is [y0] when
    [final_logit_softcapping] is None and [tanh(y0 / cap) * cap] when it is
    [cap], a step that the chunked path returns before. The concatenation
    therefore equals [y] when soft-capping is off, and with soft-capping on
    only if [tanh(v / cap) * cap = v] for every logit [v]. *)
Theorem GPT_forward_chunked_logits (self s : Module) (idx : list (list Z))
    (input_pos : option (list Z)) (lm_head_chunk_size : Z) (y : Tensor)
    (b : list (list (list R))) :
  (0 < lm_head_chunk_size)%Z ->
  GPT_forward idx input_pos 0 self = (Ok (inl y), s) ->
  y = T3 b -> Forall (fun r => length r = size1 b) b ->
  let c := Z.to_nat lm_head_chunk_size in
  exists config ys b0,
    get_config s = Ok config /\
    GPT_forward idx input_pos lm_head_chunk_size self = (Ok (inr ys), s) /\
    length ys = Nat.max ((size1 b + c - 1) / c) 1 /\
    (forall k, k < length ys ->
       ys !! k = Some (T3 (map (fun r => firstn c (skipn (k * c) r)) b0))) /\
    tensor_cat1 ys = Ok (T3 b0) /\
    y = match final_logit_softcapping config with
        | Some cap => tensor_map (fun v => mul (tanh (div v cap)) cap) (T3 b0)
        | None => T3 b0
        end /\
    (tensor_cat1 ys = Ok y <->
     match final_logit_softcapping config with
     | Some cap => Forall (fun v => mul (tanh (div v cap)) cap = v) (entries (T3 b0))
     | None => True
     end).
Proof.
  intros Hc H Hy Hrect c. subst c. unfold GPT_forward in *.
  unfold mbind at 1, Fwd_bind at 1 in H. unfold mbind at 1, Fwd_bind at 1.
  destruct (GPT_forward_guards idx input_pos self) as [[[[cos sin] mask]|e] s1];
    [|discriminate].
  unfold mbind at 1, Fwd_bind at 1 in H. unfold mbind at 1, Fwd_bind at 1.
  destruct (GPT_forward_hidden idx input_pos cos sin mask s1) as [[x|e] s2];
    [|discriminate].
  apply GPT_forward_logits_whole in H
    as (-> & lm_head & config & y0 & Hlm & Hcfg & Hhead & Hy0).
  assert (Hb0 : exists b0, y0 = T3 b0 /\ size1 b0 = size1 b /\
                           Forall (fun r => length r = size1 b0) b0).
  { destruct (final_logit_softcapping config) as [cap|].
    - apply (tensor_map_T3_inv (fun v => mul (tanh (div v cap)) cap) y0 b); [|exact Hrect].
      unfold softcap in Hy0. congruence.
    - exists b. split; [congruence|]. split; [reflexivity|exact Hrect]. }
  destruct Hb0 as (b0 & -> & Hsize & Hrect0).
  destruct (rowwise_AdapterV2Linear_forward lm_head x b0 Hhead) as (a & -> & _ & _).
  pose proof (rowwise_pieces _ (Z.to_nat lm_head_chunk_size) a b0
                (rowwise_AdapterV2Linear_forward lm_head) Hhead) as Hpieces.
  assert (Hcat : tensor_cat1 (map T3 (split_dim1 (Z.to_nat lm_head_chunk_size) b0))
                 = Ok (T3 b0)) by (apply tensor_cat1_split; [lia|exact Hrect0]).
  assert (Hlen : length (map T3 (split_dim1 (Z.to_nat lm_head_chunk_size) b0)) =
                 Nat.max ((size1 b + Z.to_nat lm_head_chunk_size - 1)
                          / Z.to_nat lm_head_chunk_size) 1).
  { rewrite length_map, split_dim1_pieces, length_map, length_seq, Hsize.
    reflexivity. }
  exists config, (map T3 (split_dim1 (Z.to_nat lm_head_chunk_size) b0)), b0.
  split; [exact Hcfg|]. split.
  { apply (GPT_forward_logits_chunked _ _ _ lm_head
             (map T3 (split_dim1 (Z.to_nat lm_head_chunk_size) a))); auto. }
  split; [exact Hlen|]. split.
  { intros k Hk. rewrite Hlen, <- Hsize in Hk.
    rewrite split_dim1_pieces, map_map, list_lookup_fmap.
    assert (Hseq : seq 0 (num_splits (size1 b0) (Z.to_nat lm_head_chunk_size)) !! k
                   = Some k).
    { rewrite lookup_seq. split; [reflexivity|exact Hk]. }
    now rewrite Hseq. }
  split; [exact Hcat|]. split; [exact Hy0|].
  rewrite Hcat, Hy0. destruct (final_logit_softcapping config) as [cap|].
  - rewrite <- tensor_map_fixed. unfold softcap. split; [|now intros ->].
    intros [= E]. cbn [tensor_map]. now rewrite <- E.
  - split; [constructor|reflexivity].
Qed.

(** * Further properties of the module *)

(** ** Shapes through [AdapterV2Linear.forward] *)

Lemma leading_dims_along_last (g : list R -> list R) (x : Tensor) :
  leading_dims (along_last g x) = leading_dims x.
Proof. unfold leading_dims. now rewrite along_last_compose. Qed.

Lemma mapM_Exists_Raise {A B} (f : A -> Result B) (e0 : Exn) (l : list A) :
  (forall x e, f x = Raise e -> e = e0) ->
  Exists (fun x => f x = Raise e0) l -> mapM f l = Raise e0.
Proof.
  intros Hf. induction 1 as [x l Hx|x l _ IH]; cbn.
  - now rewrite Hx.
  - destruct (f x) as [y|e] eqn:Hx; cbn.
    + now rewrite IH.
    + now apply Hf in Hx as ->.
Qed.

Lemma mapM_not_Forall_Raise {A B} (f : A -> Result B) (P : A -> Prop)
    `{!forall x, Decision (P x)} (e0 : Exn) (l : list A) :
  (forall x e, f x = Raise e -> e = e0) ->
  (forall x, ~ P x -> f x = Raise e0) ->
  ~ Forall P l -> mapM f l = Raise e0.
Proof.
  intros Hf HP Hl. apply mapM_Exists_Raise; [exact Hf|].
  apply not_Forall_Exists in Hl; [|assumption].
  eapply Exists_impl; [exact Hl|]. intros x Hx. now apply HP.
Qed.

Lemma rows_map_Raise (f : list R -> Result (list R)) (n : nat) (e0 : Exn)
    (x : Tensor) :
  (forall r e, f r = Raise e -> e = e0) ->
  (forall r, length r <> n -> f r = Raise e0) ->
  ~ last_dim n x -> rows_map f x = Raise e0.
Proof.
  intros Hf Hn.
  assert (H1 : forall m e, mapM f m = Raise e -> e = e0).
  { intros m e. apply (mapM_Raise _ (fun e => e = e0)). exact Hf. }
  assert (H2 : forall a e, mapM (mapM f) a = Raise e -> e = e0).
  { intros a e. apply (mapM_Raise _ (fun e => e = e0)). exact H1. }
  assert (G1 : forall m, ~ Forall (fun r => length r = n) m -> mapM f m = Raise e0).
  { intros m. apply mapM_not_Forall_Raise; [apply _|exact Hf|exact Hn]. }
  assert (G2 : forall a, ~ Forall (Forall (fun r => length r = n)) a ->
                         mapM (mapM f) a = Raise e0).
  { intros a. apply mapM_not_Forall_Raise; [apply _|exact H1|exact G1]. }
  destruct x as [v|m|a|q]; cbn; intros Hx.
  - now rewrite Hn.
  - now rewrite G1.
  - now rewrite G2.
  - assert (G3 : mapM (mapM (mapM f)) q = Raise e0).
    { apply (mapM_not_Forall_Raise _ (Forall (Forall (fun r => length r = n))));
        [exact H2|exact G2|exact Hx]. }
    now rewrite G3.
Qed.

Lemma broadcast_row_Raise (op : R -> R -> R) (u v : list R) (e : Exn) :
  broadcast_row op u v = Raise e -> e = RuntimeError.
Proof.
  unfold broadcast_row. destruct (length u =? length v); [discriminate|].
  destruct u as [|a [|a' u]], v as [|b [|b' v]]; try discriminate; now intros [= <-].
Qed.

Lemma forallb_row_length (inp : nat) (w : list (list R)) (r : list R) :
  Forall (fun wj => length wj = inp) w ->
  forallb (fun wj => length wj =? length r) w =
    match w with [] => true | _ => inp =? length r end.
Proof.
  intros Hw. destruct Hw as [|w0 w H0 Hw]; [reflexivity|]. cbn [forallb].
  rewrite H0. destruct (Nat.eqb_spec inp (length r)) as [E|E]; [|reflexivity].
  cbn. apply forallb_forall. intros wj Hin. rewrite Forall_forall in Hw.
  apply Nat.eqb_eq. rewrite <- E. apply Hw. now apply list_elem_of_In.
Qed.

Lemma width_check (inp : nat) (w : list (list R)) (r : list R) :
  Forall (fun wj => length wj = inp) w ->
  (length r =? inp) && forallb (fun wj => length wj =? length r) w =
    (length r =? inp).
Proof.
  intros Hw. rewrite (forallb_row_length inp) by assumption.
  destruct (Nat.eqb_spec (length r) inp) as [->|]; [|reflexivity].
  destruct w; [reflexivity|]. cbn. apply Nat.eqb_refl.
Qed.

(** A wrapped projection from [inp] to [out] features acts on every vector
    of [inp] entries along the last dimension, and refuses any other. *)
Lemma AdapterV2Linear_forward_dims (inp out : nat) (self : Module) :
  AdapterV2Linear_dims inp out self ->
  (forall x, last_dim inp x ->
     exists G, AdapterV2Linear_forward self x = Ok (along_last G x) /\
               forall r, length r = inp -> length (G r) = out) /\
  (forall x, ~ last_dim inp x ->
     AdapterV2Linear_forward self x = Raise RuntimeError).
Proof.
  intros (linear & scale & shift & Hwf & p & w & Hp & Hw & Hrows & Hwidth).
  pose proof Hwf as [_ _ _ Hslen Hblen (p' & w' & Hp' & Hw' & Hlen) Hbias].
  rewrite Hp in Hp'. injection Hp' as <-. rewrite Hw in Hw'. injection Hw' as <-.
  assert (Hlin : exists f g,
             Linear_forward linear = rows_map f /\
             (forall r, length r = inp -> f r = Ok (g r) /\ length (g r) = out) /\
             (forall r e, f r = Raise e -> e = RuntimeError) /\
             (forall r, length r <> inp -> f r = Raise RuntimeError)).
  { destruct (assoc "bias" (parameters linear)) as [b|] eqn:Hb.
    - destruct (Hbias b eq_refl) as (v & Hv & Hvlen).
      exists (fun r => if (length r =? inp) && forallb (fun wj => length wj =? length r) w
                       then broadcast_row add (map (dot r) w) v
                       else Raise RuntimeError),
             (fun r => zip_with add (map (dot r) w) v).
      split; [|split; [|split]].
      + unfold Linear_forward. rewrite Hp. cbn. rewrite Hw. cbn. rewrite Hwidth. cbn.
        rewrite Hb, Hv. reflexivity.
      + intros r Hr. rewrite (width_check inp) by assumption.
        rewrite Hr, Nat.eqb_refl.
        rewrite broadcast_row_same by (rewrite length_map; lia). split; [reflexivity|].
        rewrite length_zip_with, length_map. lia.
      + intros r e. destruct (_ && forallb _ w); [apply broadcast_row_Raise|now intros [= <-]].
      + intros r Hr. rewrite (width_check inp) by assumption.
        destruct (Nat.eqb_spec (length r) inp); [congruence|reflexivity].
    - exists (fun r => if (length r =? inp) && forallb (fun wj => length wj =? length r) w
                       then Ok (map (dot r) w) else Raise RuntimeError),
             (fun r => map (dot r) w).
      split; [|split; [|split]].
      + unfold Linear_forward. rewrite Hp. cbn. rewrite Hw. cbn. rewrite Hwidth. cbn.
        rewrite Hb. reflexivity.
      + intros r Hr. rewrite (width_check inp) by assumption.
        rewrite Hr, Nat.eqb_refl. rewrite length_map. auto.
      + intros r e. destruct (_ && forallb _ w); [discriminate|now intros [= <-]].
      + intros r Hr. rewrite (width_check inp) by assumption.
        destruct (Nat.eqb_spec (length r) inp); [congruence|reflexivity]. }
  destruct Hlin as (f & g & Hlin & Hok & Herr & Hbad).
  split.
  - intros x Hx.
    exists (fun r => zip_with mul scale (zip_with add (g r) shift)). split.
    + rewrite (AdapterV2Linear_forward_rows out self linear scale shift) by exact Hwf.
      rewrite Hlin, (rows_map_along_last f g inp) by (auto; intros; now apply Hok).
      cbn. now rewrite along_last_compose.
    + intros r Hr. rewrite !length_zip_with. destruct (Hok r Hr) as [_ E]. lia.
  - intros x Hx.
    rewrite (AdapterV2Linear_forward_rows out self linear scale shift) by exact Hwf.
    rewrite Hlin, (rows_map_Raise f inp RuntimeError) by auto. reflexivity.
Qed.

Lemma AdapterV2Linear_init_dims (i o : nat) (b : bool) (g g' : Rng) (m : Module) :
  AdapterV2Linear_init i o b g = Ok (m, g') -> AdapterV2Linear_dims i o m.
Proof.
  intros H. destruct (AdapterV2Linear_init_wf _ _ _ _ _ _ H) as (linear & Hwf).
  exists linear, (repeat one o), (repeat zero o). split; [exact Hwf|].
  destruct (AdapterV2Linear_init_ok i o b g) as (linear' & g1 & Hm & Hlin).
  rewrite Hm in H. injection H as <- <-.
  destruct Hwf as [Hc _ _ _ _ _ _]. cbn in Hc. injection Hc as <-.
  destruct (Linear_init_ok i o b g) as (w & bs & g2 & Hlin' & _ & Hrows & _).
  rewrite Hlin in Hlin'. injection Hlin' as -> _.
  exists {| data := T2 w; requires_grad := true |}, w.
  split; [reflexivity|]. split; [reflexivity|]. split; [exact Hrows|].
  destruct Hrows as [|r w Hr _]; [reflexivity|]. cbn. now rewrite Hr.
Qed.

(** X1. [AdapterV2Linear(in_features, out_features)] maps a tensor whose last
    dimension is [in_features] to a tensor with the same leading dimensions
    whose last dimension is [out_features], whatever values its parameters
    take later on; on an input with a vector of another length along the last
    dimension it raises [RuntimeError], also when [out_features] is 0. *)
Theorem AdapterV2Linear_forward_shape :
  (forall i o b g m g',
     AdapterV2Linear_init i o b g = Ok (m, g') -> AdapterV2Linear_dims i o m) /\
  (forall i o m,
     AdapterV2Linear_dims i o m ->
     (forall x, last_dim i x ->
        exists y, AdapterV2Linear_forward m x = Ok y /\
                  last_dim o y /\ leading_dims y = leading_dims x) /\
     (forall x, ~ last_dim i x ->
        AdapterV2Linear_forward m x = Raise RuntimeError)).
Proof.
  split; [intros i o b g m g'; apply AdapterV2Linear_init_dims|].
  intros i o m Hd. destruct (AdapterV2Linear_forward_dims i o m Hd) as [Hok Hbad].
  split; [|exact Hbad].
  intros x Hx. destruct (Hok x Hx) as (G & HG & Hlen).
  exists (along_last G x). split; [exact HG|]. split.
  - now apply (along_last_last_dim G i).
  - apply leading_dims_along_last.
Qed.

(** ** Marking, the forward pass and [reset_parameters] *)

Lemma get_parameter_mark_from (prefix : string) (m : Module) (k : string) :
  get_parameter (mark_from prefix m) k =
    (fun q => {| data := data q;
                 requires_grad := adapter_filter (qualify prefix k) q |})
      <$> get_parameter m k.
Proof.
  destruct m as [c ps bs ats ms]. rewrite mark_from_unfold.
  unfold get_parameter. cbn [parameters].
  rewrite (assoc_map_keyed
             (fun k q => {| data := data q;
                            requires_grad := adapter_filter (qualify prefix k) q |})).
  now destruct (assoc k ps).
Qed.

Lemma get_child_mark_from (prefix : string) (m : Module) (k : string) :
  get_child (mark_from prefix m) k = mark_from (qualify prefix k) <$> get_child m k.
Proof.
  destruct m as [c ps bs ats ms]. rewrite mark_from_unfold.
  unfold get_child. cbn [children].
  rewrite (assoc_map_keyed (fun k m => mark_from (qualify prefix k) m)).
  now destruct (assoc k ms).
Qed.

Lemma get_attr_mark_from (prefix : string) (m : Module) (k : string) :
  get_attr (mark_from prefix m) k = get_attr m k.
Proof. destruct m. now rewrite mark_from_unfold. Qed.

Lemma Linear_forward_mark_from (prefix : string) (m : Module) (x : Tensor) :
  Linear_forward (mark_from prefix m) x = Linear_forward m x.
Proof.
  unfold Linear_forward. rewrite get_parameter_mark_from.
  destruct (get_parameter m "weight") as [p|e]; [|reflexivity]. cbn.
  destruct (as_T2 (data p)) as [w|e]; [|reflexivity]. cbn.
  destruct m as [c ps bs ats ms]. rewrite mark_from_unfold. cbn [parameters].
  rewrite (assoc_map_keyed
             (fun k q => {| data := data q;
                            requires_grad := adapter_filter (qualify prefix k) q |})).
  now destruct (assoc "bias" ps).
Qed.

Lemma AdapterV2Linear_forward_mark_from (prefix : string) (m : Module) (x : Tensor) :
  AdapterV2Linear_forward (mark_from prefix m) x = AdapterV2Linear_forward m x.
Proof.
  unfold AdapterV2Linear_forward.
  rewrite !get_parameter_mark_from, get_child_mark_from.
  destruct (get_parameter m "adapter_scale") as [ps|e]; [|reflexivity]. cbn.
  destruct (get_child m "linear") as [linear|e]; [|reflexivity]. cbn.
  destruct (get_parameter m "adapter_bias") as [pb|e]; [|reflexivity]. cbn.
  now rewrite Linear_forward_mark_from.
Qed.

(** X2. [mark_only_adapter_v2_as_trainable] is idempotent: the flag it gives
    to a parameter depends on the parameter's name only, so a second call
    changes nothing. *)
Theorem mark_only_adapter_v2_as_trainable_idempotent (model : Module) :
  mark_only_adapter_v2_as_trainable (mark_only_adapter_v2_as_trainable model) =
    mark_only_adapter_v2_as_trainable model.
Proof.
  unfold mark_only_adapter_v2_as_trainable. generalize "" as prefix.
  induction model as [c ps bs ats ms IH] using Module_ind. intros prefix.
  rewrite !mark_from_unfold. f_equal.
  - rewrite map_map. apply map_ext. now intros [k q].
  - rewrite map_map. apply map_ext_Forall.
    eapply Forall_impl; [exact IH|]. intros [k m] Hm. cbn [fst snd] in *.
    now rewrite Hm.
Qed.

(** X3. Marking changes no output: [AdapterV2Linear.forward],
    [GemmaMLP.forward] and the head of [GPT.forward] return on a marked module
    what they return on the module before it was marked. *)
Theorem mark_only_adapter_v2_as_trainable_keeps_forward :
  (forall prefix m x,
     AdapterV2Linear_forward (mark_from prefix m) x = AdapterV2Linear_forward m x) /\
  (forall prefix m x,
     GemmaMLP_forward (mark_from prefix m) x = GemmaMLP_forward m x) /\
  (forall model x lm_head_chunk_size,
     GPT_forward_logits x lm_head_chunk_size (mark_only_adapter_v2_as_trainable model) =
       ((GPT_forward_logits x lm_head_chunk_size model).1,
        mark_only_adapter_v2_as_trainable model)).
Proof.
  split; [|split].
  - apply AdapterV2Linear_forward_mark_from.
  - intros prefix m x. unfold GemmaMLP_forward, get_config.
    rewrite !get_child_mark_from, get_attr_mark_from.
    destruct (get_child m "fc_1") as [fc_1|e]; [|reflexivity]. cbn.
    rewrite AdapterV2Linear_forward_mark_from.
    destruct (AdapterV2Linear_forward fc_1 x) as [x1|e]; [|reflexivity]. cbn.
    destruct (get_child m "fc_2") as [fc_2|e]; [|reflexivity]. cbn.
    rewrite AdapterV2Linear_forward_mark_from.
    destruct (AdapterV2Linear_forward fc_2 x) as [x2|e]; [|reflexivity]. cbn.
    destruct (get_attr m "config") as [a|e]; [|reflexivity]. cbn.
    destruct a; try reflexivity. cbn.
    destruct (tensor_mul _ x2) as [z|e]; [|reflexivity]. cbn.
    destruct (get_child m "proj") as [proj|e]; [|reflexivity]. cbn.
    apply AdapterV2Linear_forward_mark_from.
  - intros model x c. unfold mark_only_adapter_v2_as_trainable.
    unfold GPT_forward_logits, mbind, Fwd_bind, reading, pure, mret, Fwd_ret, get_config.
    cbn beta. rewrite get_child_mark_from.
    destruct (get_child model "lm_head") as [lm_head|e]; [|reflexivity]. cbn.
    destruct (c >? 0)%Z.
    + destruct (tensor_split1 (Z.to_nat c) x) as [pieces|e]; [|reflexivity]. cbn.
      assert (E : mapM (AdapterV2Linear_forward (mark_from "lm_head" lm_head))
                    pieces = mapM (AdapterV2Linear_forward lm_head) pieces).
      { induction pieces as [|t l IHl]; [reflexivity|]. cbn [mapM].
        now rewrite AdapterV2Linear_forward_mark_from, IHl. }
      rewrite E.
      destruct (mapM (AdapterV2Linear_forward lm_head) pieces); reflexivity.
    + rewrite AdapterV2Linear_forward_mark_from.
      destruct (AdapterV2Linear_forward lm_head x) as [y|e]; [|reflexivity]. cbn.
      rewrite get_attr_mark_from.
      destruct (get_attr model "config") as [a|e]; [|reflexivity]. cbn.
      now destruct a.
Qed.

Lemma assoc_set_map_keyed {A} (f : string -> A -> A) (k : string) (a : A)
    (l : list (string * A)) :
  assoc_set k (f k a) (map (fun ka => (ka.1, f ka.1 ka.2)) l) =
    map (fun ka => (ka.1, f ka.1 ka.2)) (assoc_set k a l).
Proof.
  induction l as [|[k' a'] l IH]; [reflexivity|]. cbn [map assoc_set fst snd].
  destruct (String.eqb_spec k k') as [->|_]; cbn [map fst snd]; [reflexivity|].
  now rewrite IH.
Qed.

Lemma assoc_set_names {A B} (h : A -> B) (k : string) (a b : A)
    (l : list (string * A)) :
  assoc k l = Some b -> h a = h b ->
  map (fun ka => (ka.1, h ka.2)) (assoc_set k a l) = map (fun ka => (ka.1, h ka.2)) l.
Proof.
  intros Hk Hh. induction l as [|[k' a'] l IH]; [reflexivity|].
  cbn [assoc assoc_set] in *. destruct (String.eqb k k').
  - injection Hk as ->. cbn. now rewrite Hh.
  - cbn. now rewrite IH.
Qed.

(** X4. [reset_parameters] overwrites the values of [adapter_bias] and
    [adapter_scale] and nothing else: the [requires_grad] flag of every
    parameter, the wrapped projection and the other attributes are kept; and
    it commutes with marking (resetting a marked module gives the marked reset
    module). *)
Theorem AdapterV2Linear_reset_parameters_keeps_flags :
  (forall self self',
     AdapterV2Linear_reset_parameters self = Ok self' ->
     map (fun kp => (kp.1, requires_grad kp.2)) (parameters self') =
       map (fun kp => (kp.1, requires_grad kp.2)) (parameters self) /\
     cls self' = cls self /\ buffers self' = buffers self /\
     attrs self' = attrs self /\ children self' = children self) /\
  (forall prefix self,
     AdapterV2Linear_reset_parameters (mark_from prefix self) =
       mark_from prefix <$> AdapterV2Linear_reset_parameters self).
Proof.
  split.
  - intros self self' H.
    apply reset_parameters_unfold in H
      as (c & ps & bs & ats & ms & pb & psc & -> & Hb & Hs & ->).
    cbn [parameters cls buffers attrs children]. repeat split.
    rewrite (assoc_set_names requires_grad "adapter_scale" _ psc);
      [|rewrite assoc_set_ne by discriminate; exact Hs|reflexivity].
    now rewrite (assoc_set_names requires_grad "adapter_bias" _ pb).
  - intros prefix [c ps bs ats ms]. rewrite mark_from_unfold.
    unfold AdapterV2Linear_reset_parameters, get_parameter.
    cbn [parameters set_parameter].
    set (f := fun k q => {| data := data q;
                            requires_grad := adapter_filter (qualify prefix k) q |}).
    change (map _ ps) with (map (fun kp => (kp.1, f kp.1 kp.2)) ps).
    rewrite (assoc_map_keyed f).
    destruct (assoc "adapter_bias" ps) as [pb|]; [|reflexivity]. cbn.
    change (init_zeros_ (f "adapter_bias" pb)) with (f "adapter_bias" (init_zeros_ pb)).
    rewrite assoc_set_map_keyed, (assoc_map_keyed f).
    destruct (assoc "adapter_scale" _) as [psc|]; [|reflexivity]. cbn.
    change (init_ones_ (f "adapter_scale" psc)) with (f "adapter_scale" (init_ones_ psc)).
    rewrite assoc_set_map_keyed. f_equal. symmetry.
    apply (mark_from_unfold prefix c _ bs ats ms).
Qed.

(** ** Which parameters marking makes trainable *)

Lemma adapter_filter_path {V} (prefix : string) (path : list string) (v : V) :
  adapter_filter (foldl qualify prefix path) v =
    adapter_filter prefix v || existsb (fun k => adapter_filter k v) path.
Proof.
  revert prefix. induction path as [|k path IH]; intros prefix; cbn [foldl existsb].
  - now rewrite orb_false_r.
  - now rewrite IH, (adapter_filter_qualify prefix k v v v), orb_assoc.
Qed.

(** X5. Whether marking makes a parameter trainable is decided by the
    attribute names on the way to it: the parameter [k] of the submodule at
    [path] keeps its value and gets [requires_grad] True exactly when one of
    the names in [path] or [k] itself contains one of the substrings of
    [adapter_filter]. *)
Theorem mark_only_adapter_v2_as_trainable_by_name (model sub : Module)
    (path : list string) (k : string) (p : Param) :
  get_submodule model path = Ok sub -> get_parameter sub k = Ok p ->
  exists sub',
    get_submodule (mark_only_adapter_v2_as_trainable model) path = Ok sub' /\
    get_parameter sub' k =
      Ok {| data := data p;
            requires_grad := existsb (fun name => adapter_filter name p) (path ++ [k]) |}.
Proof.
  intros Hsub Hp. unfold mark_only_adapter_v2_as_trainable.
  exists (mark_from (foldl qualify "" path) sub). split.
  - now rewrite get_submodule_mark_from, Hsub.
  - rewrite get_parameter_mark_from, Hp. cbn [fmap Result_fmap]. do 2 f_equal.
    rewrite (adapter_filter_qualify _ k p p p), (adapter_filter_path "" path p).
    rewrite existsb_app. cbn [existsb]. now rewrite orb_false_r.
Qed.

Lemma get_submodule_app (m : Module) (p1 p2 : list string) :
  get_submodule m (p1 ++ p2) = (c ← get_submodule m p1; get_submodule c p2).
Proof.
  revert m. induction p1 as [|k p1 IH]; intros m; [reflexivity|].
  cbn [app get_submodule]. destruct (get_child m k) as [c|e]; [|reflexivity].
  cbn. apply IH.
Qed.

Lemma parameters_mark_from (prefix : string) (m : Module) :
  parameters (mark_from prefix m) =
    map (fun kp => (kp.1, {| data := data kp.2;
                             requires_grad := adapter_filter (qualify prefix kp.1) kp.2 |}))
        (parameters m).
Proof. destruct m. now rewrite mark_from_unfold. Qed.

Lemma marked_trainable_at (model sub : Module) (path : list string) :
  get_submodule model path = Ok sub -> parameters sub <> [] ->
  existsb (fun k => adapter_filter k tt) path = true ->
  trainable_at (mark_only_adapter_v2_as_trainable model) path.
Proof.
  intros Hsub Hne Hpath. unfold mark_only_adapter_v2_as_trainable.
  exists (mark_from (foldl qualify "" path) sub).
  rewrite get_submodule_mark_from, Hsub, parameters_mark_from.
  split; [reflexivity|]. split.
  - destruct (parameters sub); [congruence|discriminate].
  - rewrite Forall_map. apply Forall_forall. intros [k p] _. cbn [fst snd requires_grad].
    rewrite (adapter_filter_qualify _ k p tt tt), (adapter_filter_path "" path tt).
    now rewrite Hpath.
Qed.

Lemma marked_frozen_at (model sub : Module) (path : list string) :
  get_submodule model path = Ok sub -> parameters sub <> [] ->
  existsb (fun k => adapter_filter k tt) path = false ->
  Forall (fun kp => adapter_filter kp.1 tt = false) (parameters sub) ->
  frozen_at (mark_only_adapter_v2_as_trainable model) path.
Proof.
  intros Hsub Hne Hpath Hnames. unfold mark_only_adapter_v2_as_trainable.
  exists (mark_from (foldl qualify "" path) sub).
  rewrite get_submodule_mark_from, Hsub, parameters_mark_from.
  split; [reflexivity|]. split.
  - destruct (parameters sub); [congruence|discriminate].
  - rewrite Forall_map. eapply Forall_impl; [exact Hnames|].
    intros [k p] Hk. cbn [fst snd requires_grad] in *.
    rewrite (adapter_filter_qualify _ k p tt tt), (adapter_filter_path "" path tt).
    now rewrite Hpath, Hk.
Qed.

Lemma is_norm_parameters (config : Config) (norm : Module) :
  is_norm config norm ->
  parameters norm <> [] /\
  Forall (fun kp => adapter_filter kp.1 tt = false) (parameters norm).
Proof.
  intros (g & g' & H). unfold norm_class in H. apply Init_ret_inv in H as [-> _].
  destruct (norm_class_name config); cbn [parameters];
    (split; [discriminate|repeat constructor]).
Qed.

Lemma Block_init_norms (config : Config) (i : nat) (g g' : Rng) (b : Module) :
  Block_init config i g = Ok (b, g') ->
  (exists n, get_child b "norm_1" = Ok n /\ is_norm config n) /\
  (shared_attention_norm config = false ->
   exists n, get_child b "norm_2" = Ok n /\ is_norm config n) /\
  (post_attention_norm config = true ->
   exists n, get_child b "post_attention_norm" = Ok n /\ is_norm config n) /\
  (post_mlp_norm config = true ->
   exists n, get_child b "post_mlp_norm" = Ok n /\ is_norm config n).
Proof.
  unfold Block_init.
  destruct (negb (parallel_residual config) && shared_attention_norm config);
    [discriminate|].
  intros H.
  apply Init_bind_inv in H as (norm_1 & g1 & Hn1 & H).
  apply Init_bind_inv in H as (attn & g2 & Hattn & H).
  apply Init_bind_inv in H as (pan & g3 & Hpan & H).
  apply Init_bind_inv in H as ([n2m n2a] & g4 & Hn2 & H).
  apply Init_bind_inv in H as (mlp & g5 & Hmlp & H).
  apply Init_bind_inv in H as (pmn & g6 & Hpmn & H).
  apply Init_ret_inv in H as [-> _]. cbn [fst snd].
  split; [|split; [|split]].
  - exists norm_1. split; [reflexivity|now exists g, g1].
  - intros Hs. rewrite Hs in Hn2.
    apply Init_bind_inv in Hn2 as (n & g7 & Hn & Hn2).
    apply Init_ret_inv in Hn2 as [[= -> ->] _].
    exists n. split; [reflexivity|now exists g3, g7].
  - intros Hf. rewrite Hf in Hpan.
    exists pan. split; [reflexivity|now exists g2, g3].
  - intros Hf. rewrite Hf in Hpmn. exists pmn. split; [|now exists g5, g6].
    assert (Hn2m : n2m = [] \/ exists n, n2m = [("norm_2", n)]).
    { destruct (shared_attention_norm config).
      - apply Init_ret_inv in Hn2 as [[= -> ->] _]. now left.
      - apply Init_bind_inv in Hn2 as (n & g7 & Hn & Hn2).
        apply Init_ret_inv in Hn2 as [[= -> ->] _]. right. now exists n. }
    destruct Hn2m as [->|(n & ->)]; reflexivity.
Qed.

Lemma GPT_init_ln_f (config : Config) (g g' : Rng) (model : Module) :
  GPT_init config g = Ok (model, g') ->
  exists ln_f, get_submodule model ["transformer"; "ln_f"] = Ok ln_f /\
               is_norm config ln_f.
Proof.
  unfold GPT_init. destruct (padded_vocab_size config) as [vocab|]; [|discriminate].
  intros H.
  apply Init_bind_inv in H as (lm_head & g1 & Hlm & H).
  apply Init_bind_inv in H as (wte & g2 & Hwte & H).
  apply Init_bind_inv in H as (h & g3 & Hh & H).
  apply Init_bind_inv in H as (ln_f & g4 & Hln & H).
  destruct (rope_cache config (block_size config)) as [cos sin].
  apply Init_ret_inv in H as [-> _].
  exists ln_f. split; [reflexivity|now exists g3, g4].
Qed.

(** X6. In a constructed GPT, marking makes trainable the parameters of the
    final norm [ln_f], of every block's [norm_1] and [norm_2] (when the block
    has one), of the prompt embedding [adapter_wte] and the [gating_factor] of
    the adapted layers; the parameters of [post_attention_norm] and
    [post_mlp_norm], when the configuration asks for these norms, are frozen,
    their names containing none of the substrings of [adapter_filter]. *)
Theorem mark_only_adapter_v2_as_trainable_norms (config : Config) (g g' : Rng)
    (model : Module) :
  GPT_init config g = Ok (model, g') ->
  let marked := mark_only_adapter_v2_as_trainable model in
  trainable_at marked ["transformer"; "ln_f"] /\
  forall i, i < n_layer config ->
    let block := ["transformer"; "h"; Str.of_nat i] in
    trainable_at marked (block ++ ["norm_1"]) /\
    (shared_attention_norm config = false ->
     trainable_at marked (block ++ ["norm_2"])) /\
    (post_attention_norm config = true ->
     frozen_at marked (block ++ ["post_attention_norm"])) /\
    (post_mlp_norm config = true ->
     frozen_at marked (block ++ ["post_mlp_norm"])) /\
    (adapter_start_layer config <= i ->
     trainable_at marked (block ++ ["attn"; "adapter_wte"]) /\
     exists attn,
       get_submodule marked (block ++ ["attn"]) = Ok attn /\
       requires_grad <$> get_parameter attn "gating_factor" = Ok true).
Proof.
  intros Hinit marked. subst marked. split.
  - destruct (GPT_init_ln_f _ _ _ _ Hinit) as (ln_f & Hln & Hnorm).
    apply is_norm_parameters in Hnorm as [Hne _].
    now apply (marked_trainable_at model ln_f).
  - intros i Hi block. subst block.
    apply GPT_init_built in Hinit as (_ & _ & _ & _ & Hblocks).
    destruct (Hblocks i Hi) as (b & gi & gi' & Hpath & Hb).
    assert (Hat : forall k n, get_child b k = Ok n ->
              get_submodule model (["transformer"; "h"; Str.of_nat i] ++ [k]) = Ok n).
    { intros k n Hk. rewrite get_submodule_app, Hpath. cbn. now rewrite Hk. }
    destruct (Block_init_norms _ _ _ _ _ Hb) as (Hn1 & Hn2 & Hpan & Hpmn).
    split; [|split; [|split; [|split]]].
    + destruct Hn1 as (n & Hn & Hnorm). apply is_norm_parameters in Hnorm as [Hne _].
      apply (marked_trainable_at model n); [now apply Hat|exact Hne|].
      cbn [app existsb]. rewrite of_nat_clean. reflexivity.
    + intros Hs. destruct (Hn2 Hs) as (n & Hn & Hnorm).
      apply is_norm_parameters in Hnorm as [Hne _].
      apply (marked_trainable_at model n); [now apply Hat|exact Hne|].
      cbn [app existsb]. rewrite of_nat_clean. reflexivity.
    + intros Hf. destruct (Hpan Hf) as (n & Hn & Hnorm).
      apply is_norm_parameters in Hnorm as [Hne Hnames].
      apply (marked_frozen_at model n); [now apply Hat|exact Hne| |exact Hnames].
      cbn [app existsb]. rewrite of_nat_clean. reflexivity.
    + intros Hf. destruct (Hpmn Hf) as (n & Hn & Hnorm).
      apply is_norm_parameters in Hnorm as [Hne Hnames].
      apply (marked_frozen_at model n); [now apply Hat|exact Hne| |exact Hnames].
      cbn [app existsb]. rewrite of_nat_clean. reflexivity.
    + intros Hle.
      apply Block_init_built in Hb as (_ & _ & (attn & ga & ga' & Hattn & Hainit) & _).
      destruct (CausalSelfAttention_init_prefix config i ga
                  (CausalSelfAttention_init_stride _ _ _ _ _ Hainit))
        as (attn' & ga'' & Hainit' & Hhas & _).
      rewrite Hainit in Hainit'. injection Hainit' as <- <-.
      destruct (Hhas Hle) as ((wte & p & w & Hwte & _ & Hp & _) & Hgate & _).
      split.
      * apply (marked_trainable_at model wte).
        -- change (["transformer"; "h"; Str.of_nat i] ++ ["attn"; "adapter_wte"])
             with ((["transformer"; "h"; Str.of_nat i] ++ ["attn"]) ++ ["adapter_wte"]).
           rewrite get_submodule_app, (Hat _ _ Hattn). cbn. now rewrite Hwte.
        -- unfold get_parameter in Hp. destruct (parameters wte); [discriminate|discriminate].
        -- cbn [app existsb]. rewrite of_nat_clean. reflexivity.
      * unfold mark_only_adapter_v2_as_trainable.
        exists (mark_from (foldl qualify "" (["transformer"; "h"; Str.of_nat i] ++ ["attn"]))
                          attn).
        rewrite get_submodule_mark_from, (Hat _ _ Hattn), get_parameter_mark_from, Hgate.
        split; [reflexivity|]. cbn [fmap Result_fmap requires_grad]. f_equal.
        rewrite (adapter_filter_qualify _ "gating_factor" _ tt tt).
        apply orb_true_r.
Qed.

(** ** When the constructors raise *)

Lemma Init_bind_Ok {A B} (m : Init A) (f : A -> Init B) (g g1 : Rng) (a : A) :
  m g = Ok (a, g1) -> (m ≫= f) g = f a g1.
Proof. intros H. unfold mbind, Init_bind. now rewrite H. Qed.

Lemma Init_bind_Raise {A B} (m : Init A) (f : A -> Init B) (g : Rng) (e : Exn) :
  m g = Raise e -> (m ≫= f) g = Raise e.
Proof. intros H. unfold mbind, Init_bind. now rewrite H. Qed.

Lemma mapM_Init_ok {A B} (f : A -> Init B) (l : list A) (g : Rng) :
  (forall x g, exists y g', f x g = Ok (y, g')) ->
  exists k g', mapM f l g = Ok (k, g').
Proof.
  intros Hf. revert g. induction l as [|x l IH]; intros g; cbn [mapM].
  - now exists [], g.
  - destruct (Hf x g) as (y & g1 & Hy). destruct (IH g1) as (k & g2 & Hk).
    exists (y :: k), g2.
    rewrite (Init_bind_Ok _ _ _ _ _ Hy), (Init_bind_Ok _ _ _ _ _ Hk). reflexivity.
Qed.

Lemma norm_class_ok (config : Config) (size : nat) (eps : R) (g : Rng) :
  exists n, norm_class config size eps g = Ok (n, g).
Proof. eexists; reflexivity. Qed.

Lemma optional_norm_ok (config : Config) (flag : bool) (g : Rng) :
  exists n,
    (if flag then norm_class config (n_embd config) (norm_eps config) else Identity_init) g
      = Ok (n, g).
Proof. destruct flag; eexists; reflexivity. Qed.

Lemma LLaMAMLP_init_ok (c : Cls) (config : Config) (g : Rng) :
  exists m g', LLaMAMLP_init c config g = Ok (m, g').
Proof.
  unfold LLaMAMLP_init.
  destruct (AdapterV2Linear_init_ok (n_embd config) (intermediate_size config)
              (bias config) g) as (l1 & g1 & H1 & _).
  destruct (AdapterV2Linear_init_ok (n_embd config) (intermediate_size config)
              (bias config) g1) as (l2 & g2 & H2 & _).
  destruct (AdapterV2Linear_init_ok (intermediate_size config) (n_embd config)
              (bias config) g2) as (l3 & g3 & H3 & _).
  eexists _, g3.
  rewrite (Init_bind_Ok _ _ _ _ _ H1), (Init_bind_Ok _ _ _ _ _ H2),
    (Init_bind_Ok _ _ _ _ _ H3). reflexivity.
Qed.

Lemma mlp_class_ok (config : Config) (g : Rng) :
  exists m g', mlp_class config g = Ok (m, g').
Proof.
  unfold mlp_class. destruct (mlp_class_name config).
  - unfold GptNeoxMLP_init.
    destruct (AdapterV2Linear_init_ok (n_embd config) (intermediate_size config)
                (bias config) g) as (l1 & g1 & H1 & _).
    destruct (AdapterV2Linear_init_ok (intermediate_size config) (n_embd config)
                (bias config) g1) as (l2 & g2 & H2 & _).
    eexists _, g2.
    rewrite (Init_bind_Ok _ _ _ _ _ H1), (Init_bind_Ok _ _ _ _ _ H2). reflexivity.
  - apply LLaMAMLP_init_ok.
  - apply LLaMAMLP_init_ok.
  - unfold LLaMAMoE_init.
    destruct (AdapterV2Linear_init_ok (n_embd config) (n_expert config) false g)
      as (l1 & g1 & H1 & _).
    destruct (mapM_Init_ok (fun _ : nat => LLaMAMLP_init LLaMAMLP config)
                (seq 0 (n_expert config)) g1) as (k & g2 & Hk).
    { intros _ g'. apply LLaMAMLP_init_ok. }
    eexists _, g2.
    rewrite (Init_bind_Ok _ _ _ _ _ H1), (Init_bind_Ok _ _ _ _ _ Hk). reflexivity.
Qed.

Lemma zero_stride_false (config : Config) :
  zero_stride config = false <->
  sliding_window_size config = None \/ sliding_window_layer_stride config <> 0.
Proof.
  unfold zero_stride. destruct (sliding_window_size config) as [n|].
  - rewrite Nat.eqb_neq. split; [now right|]. now intros [|].
  - split; [now left|reflexivity].
Qed.

Lemma CausalSelfAttention_init_zero_stride (config : Config) (i : nat) (g : Rng) :
  zero_stride config = true ->
  CausalSelfAttention_init config i g = Raise ZeroDivisionError.
Proof.
  unfold zero_stride, CausalSelfAttention_init. intros Hz.
  destruct (AdapterV2Linear_init_ok (n_embd config)
              ((n_head config + 2 * n_query_groups config) * head_size config)
              (bias config || attn_bias config) g) as (lq & g1 & Hq & _).
  destruct (AdapterV2Linear_init_ok (head_size config * n_head config)
              (n_embd config) (bias config) g1) as (lp & g2 & Hp & _).
  rewrite (Init_bind_Ok _ _ _ _ _ Hq), (Init_bind_Ok _ _ _ _ _ Hp).
  destruct (sliding_window_size config) as [n|]; [|discriminate]. rewrite Hz.
  destruct (adapter_start_layer config <=? i).
  - destruct (Embedding_init_ok (adapter_prompt_length config) (n_embd config) g2)
      as (w & g3 & Hw & _).
    unfold mbind at 1, Init_bind at 1.
    rewrite (Init_bind_Ok _ _ _ _ _ Hw). reflexivity.
  - reflexivity.
Qed.

Lemma Block_init_cases (config : Config) (i : nat) (g : Rng) :
  match Block_init config i g with
  | Ok _ => unsupported_norm config = false /\ zero_stride config = false
  | Raise e =>
      e = NotImplementedError /\ unsupported_norm config = true \/
      e = ZeroDivisionError /\ unsupported_norm config = false /\
        zero_stride config = true
  end.
Proof.
  unfold Block_init, unsupported_norm.
  destruct (negb (parallel_residual config) && shared_attention_norm config);
    [now left|].
  destruct (norm_class_ok config (n_embd config) (norm_eps config) g) as (n1 & Hn1).
  rewrite (Init_bind_Ok _ _ _ _ _ Hn1).
  destruct (zero_stride config) eqn:Hz.
  - rewrite (Init_bind_Raise _ _ _ _ (CausalSelfAttention_init_zero_stride _ i g Hz)).
    now right.
  - apply zero_stride_false in Hz.
    destruct (CausalSelfAttention_init_prefix config i g Hz) as (attn & g2 & Hattn & _).
    rewrite (Init_bind_Ok _ _ _ _ _ Hattn).
    destruct (optional_norm_ok config (post_attention_norm config) g2) as (pan & Hpan).
    rewrite (Init_bind_Ok _ _ _ _ _ Hpan).
    assert (Hn2 : exists n2,
      (if shared_attention_norm config
       then mret ([], [("norm_2", ANone)])
       else n ← norm_class config (n_embd config) (norm_eps config);
            mret ([("norm_2", n)], []))
        g2 = Ok (n2 : list (string * Module) * list (string * Attr), g2)).
    { destruct (shared_attention_norm config); eexists; reflexivity. }
    destruct Hn2 as (n2 & Hn2). rewrite (Init_bind_Ok _ _ _ _ _ Hn2).
    destruct (mlp_class_ok config g2) as (mlp & g3 & Hmlp).
    rewrite (Init_bind_Ok _ _ _ _ _ Hmlp).
    destruct (optional_norm_ok config (post_mlp_norm config) g3) as (pmn & Hpmn).
    rewrite (Init_bind_Ok _ _ _ _ _ Hpmn). cbn. auto.
Qed.

(** X7. [Block(config, block_idx)] raises [NotImplementedError] exactly when
    the configuration has a shared attention norm without parallel residual;
    otherwise it raises [ZeroDivisionError] exactly when a sliding window is
    configured with a layer stride of zero; in every other case it returns a
    block, for every block index. The norm layers and the torch constructors
    it calls are taken as returning. *)
Theorem Block_init_errors (config : Config) (block_idx : nat) (g : Rng) :
  (Block_init config block_idx g = Raise NotImplementedError <->
   parallel_residual config = false /\ shared_attention_norm config = true) /\
  (Block_init config block_idx g = Raise ZeroDivisionError <->
   unsupported_norm config = false /\
   sliding_window_size config <> None /\ sliding_window_layer_stride config = 0) /\
  ((exists block g', Block_init config block_idx g = Ok (block, g')) <->
   unsupported_norm config = false /\
   (sliding_window_size config = None \/ sliding_window_layer_stride config <> 0)).
Proof.
  pose proof (Block_init_cases config block_idx g) as H.
  assert (HA : unsupported_norm config = true <->
               parallel_residual config = false /\ shared_attention_norm config = true).
  { unfold unsupported_norm.
    destruct (parallel_residual config), (shared_attention_norm config); cbn;
      split; try discriminate; try (intros [? ?]; discriminate); auto. }
  assert (HB : zero_stride config = true <->
               sliding_window_size config <> None /\
               sliding_window_layer_stride config = 0).
  { unfold zero_stride. destruct (sliding_window_size config) as [n|].
    - rewrite Nat.eqb_eq. split; [now split|now intros [_ ?]].
    - split; [discriminate|now intros [? _]]. }
  rewrite <- HA, <- HB, <- zero_stride_false.
  destruct (Block_init config block_idx g) as [[b g']|e].
  - destruct H as [H1 H2]. rewrite H1, H2.
    split; [|split]; split; try discriminate; try (now intros [? ?]); eauto.
  - destruct H as [[-> H1]|(-> & H1 & H2)].
    + rewrite H1. split; [|split]; split; try discriminate; auto.
      * now intros [? ?].
      * now intros (? & ? & ?).
      * now intros [? ?].
    + rewrite H1, H2. split; [|split]; split; try discriminate; auto.
      * now intros (? & ? & ?).
      * now intros [? ?].
Qed.

Ltac decompose_cases :=
  repeat match goal with
         | H : _ /\ _ |- _ => destruct H
         | H : _ \/ _ |- _ => destruct H
         | H : exists _, _ |- _ => destruct H
         end;
  first [discriminate | congruence | lia | solve [eauto 6]].

Lemma mapM_Block_init_cases (config : Config) (s n : nat) (g : Rng) :
  match mapM (Block_init config) (seq s n) g with
  | Ok _ => n = 0 \/ unsupported_norm config = false /\ zero_stride config = false
  | Raise e =>
      0 < n /\
      (e = NotImplementedError /\ unsupported_norm config = true \/
       e = ZeroDivisionError /\ unsupported_norm config = false /\
         zero_stride config = true)
  end.
Proof.
  destruct n as [|n]; [now left|]. cbn [seq mapM].
  pose proof (Block_init_cases config s g) as H.
  destruct (Block_init config s g) as [[b g1]|e] eqn:Hb.
  - rewrite (Init_bind_Ok _ _ _ _ _ Hb).
    destruct (mapM_Init_ok (Block_init config) (seq (S s) n) g1) as (k & g2 & Hk).
    { intros i g'. pose proof (Block_init_cases config i g') as H'.
      destruct (Block_init config i g') as [[b' g'']|e]; [eauto|].
      destruct H as [H1 H2]. destruct H' as [[_ H']|(_ & _ & H')]; congruence. }
    rewrite (Init_bind_Ok _ _ _ _ _ Hk). cbn. now right.
  - rewrite (Init_bind_Raise _ _ _ _ Hb). split; [lia|exact H].
Qed.

Lemma GPT_init_cases (config : Config) (g : Rng) :
  match GPT_init config g with
  | Ok _ =>
      padded_vocab_size config <> None /\
      (n_layer config = 0 \/
       unsupported_norm config = false /\ zero_stride config = false)
  | Raise e =>
      e = AssertionError /\ padded_vocab_size config = None \/
      padded_vocab_size config <> None /\ 0 < n_layer config /\
      (e = NotImplementedError /\ unsupported_norm config = true \/
       e = ZeroDivisionError /\ unsupported_norm config = false /\
         zero_stride config = true)
  end.
Proof.
  unfold GPT_init. destruct (padded_vocab_size config) as [vocab|]; [|now left].
  destruct (AdapterV2Linear_init_ok (n_embd config) vocab (lm_head_bias config) g)
    as (l & g1 & Hlm & _).
  rewrite (Init_bind_Ok _ _ _ _ _ Hlm).
  destruct (Embedding_init_ok vocab (n_embd config) g1) as (w & g2 & Hwte & _).
  rewrite (Init_bind_Ok _ _ _ _ _ Hwte).
  pose proof (mapM_Block_init_cases config 0 (n_layer config) g2) as H.
  destruct (mapM (Block_init config) (seq 0 (n_layer config)) g2) as [[h g3]|e] eqn:Hh.
  - rewrite (Init_bind_Ok _ _ _ _ _ Hh).
    destruct (norm_class_ok config (n_embd config) (norm_eps config) g3) as (n & Hn).
    rewrite (Init_bind_Ok _ _ _ _ _ Hn).
    destruct (rope_cache config (block_size config)) as [cos sin]. cbn.
    split; [discriminate|exact H].
  - rewrite (Init_bind_Raise _ _ _ _ Hh). right. split; [discriminate|exact H].
Qed.

(** X8. [GPT(config)] raises [AssertionError] exactly when [padded_vocab_size]
    is None. Otherwise, with at least one layer, it raises what the first
    [Block] raises: [NotImplementedError] for a shared attention norm without
    parallel residual, else [ZeroDivisionError] for a sliding window with a
    layer stride of zero. In every other case, and always with no layer, it
    returns a model. The norm layers, the torch constructors and the rope
    cache of the base class are taken as returning. *)
Theorem GPT_init_errors (config : Config) (g : Rng) :
  (GPT_init config g = Raise AssertionError <-> padded_vocab_size config = None) /\
  (GPT_init config g = Raise NotImplementedError <->
   padded_vocab_size config <> None /\ 0 < n_layer config /\
   unsupported_norm config = true) /\
  (GPT_init config g = Raise ZeroDivisionError <->
   padded_vocab_size config <> None /\ 0 < n_layer config /\
   unsupported_norm config = false /\ zero_stride config = true) /\
  ((exists model g', GPT_init config g = Ok (model, g')) <->
   padded_vocab_size config <> None /\
   (n_layer config = 0 \/
    unsupported_norm config = false /\ zero_stride config = false)).
Proof.
  pose proof (GPT_init_cases config g) as H.
  destruct (GPT_init config g) as [[model g']|e].
  - destruct H as [Hv Hok].
    split; [|split; [|split]]; split; intros; decompose_cases.
  - destruct H as [[-> Hv]|(Hv & Hn & [[-> Hu]|(-> & Hu & Hz)])];
      (split; [|split; [|split]]; split; intros; decompose_cases).
Qed.

(** ** What [GPT.forward] leaves untouched *)

Lemma Fwd_bind_pure {A B} (m : Fwd A) (f : A -> Fwd B) (self : Module) :
  (m self).2 = self -> (forall a, (f a self).2 = self) -> ((m ≫= f) self).2 = self.
Proof.
  intros Hm Hf. unfold mbind, Fwd_bind.
  destruct (m self) as [[a|e] s]; cbn in Hm; subst s; [apply Hf|reflexivity].
Qed.

Lemma Fwd_bind_reading {A B} (g : Module -> Result A) (f : A -> Fwd B)
    (self : Module) :
  (reading g ≫= f) self =
    match g self with Ok a => f a self | Raise e => (Raise e, self) end.
Proof. unfold mbind, Fwd_bind, reading. now destruct (g self). Qed.

Lemma Fwd_bind_lift {A B} (r : Result A) (f : A -> Fwd B) (self : Module) :
  (pure r ≫= f) self =
    match r with Ok a => f a self | Raise e => (Raise e, self) end.
Proof. unfold mbind, Fwd_bind, pure. now destruct r. Qed.

Lemma GPT_forward_guards_state (idx : list (list Z)) (input_pos : option (list Z))
    (self : Module) :
  (GPT_forward_guards idx input_pos self).2 = self.
Proof.
  unfold GPT_forward_guards.
  apply Fwd_bind_pure; [reflexivity|]. intros max_seq_length.
  destruct (max_seq_length <? size1 idx); [reflexivity|].
  destruct input_pos as [pos|].
  - apply Fwd_bind_pure; [reflexivity|]. intros cos.
    apply Fwd_bind_pure; [reflexivity|]. intros sin.
    apply Fwd_bind_pure; [reflexivity|]. intros mask_cache.
    destruct mask_cache; try reflexivity.
    apply Fwd_bind_pure; [reflexivity|]. reflexivity.
  - apply Fwd_bind_pure; [reflexivity|]. intros cos.
    apply Fwd_bind_pure; [reflexivity|]. reflexivity.
Qed.

Lemma GPT_forward_logits_state (x : Tensor) (lm_head_chunk_size : Z) (self : Module) :
  (GPT_forward_logits x lm_head_chunk_size self).2 = self.
Proof.
  unfold GPT_forward_logits.
  apply Fwd_bind_pure; [reflexivity|]. intros lm_head.
  destruct (lm_head_chunk_size >? 0)%Z.
  - apply Fwd_bind_pure; [reflexivity|]. intros pieces.
    apply Fwd_bind_pure; [reflexivity|]. reflexivity.
  - apply Fwd_bind_pure; [reflexivity|]. intros y.
    apply Fwd_bind_pure; [reflexivity|]. reflexivity.
Qed.

Lemma run_blocks_names (blocks : list (string * Module)) (x cos sin : Tensor)
    (mask : option Tensor) (input_pos : option (list Z)) :
  map fst (run_blocks blocks x cos sin mask input_pos).2 = map fst blocks.
Proof.
  revert x. induction blocks as [|[k block] rest IH]; intros x; [reflexivity|].
  cbn [run_blocks].
  destruct (Block_forward block x cos sin mask input_pos) as [[x'|e] block'].
  - specialize (IH x').
    destruct (run_blocks rest x' cos sin mask input_pos) as [r rest'].
    cbn in *. now rewrite IH.
  - reflexivity.
Qed.

(** The only state a forward pass can leave behind is the blocks'. *)
Lemma GPT_forward_state (self : Module) (idx : list (list Z))
    (input_pos : option (list Z)) (lm_head_chunk_size : Z) :
  let s := (GPT_forward idx input_pos lm_head_chunk_size self).2 in
  s = self \/
  exists transformer h blocks,
    get_child self "transformer" = Ok transformer /\
    get_child transformer "h" = Ok h /\
    map fst blocks = map fst (children h) /\
    s = with_blocks self blocks.
Proof.
  intros s. remember s as s' eqn:Hs. subst s. revert Hs. unfold GPT_forward.
  pose proof (GPT_forward_guards_state idx input_pos self) as Hg.
  unfold mbind at 1, Fwd_bind at 1.
  destruct (GPT_forward_guards idx input_pos self) as [[[[cos sin] mask]|e] s0];
    cbn in Hg; subst s0; [|intros ->; now left].
  unfold mbind at 1, Fwd_bind at 1.
  destruct (GPT_forward_hidden idx input_pos cos sin mask self) as [r s1] eqn:Hh.
  assert (Hs1 : s1 = self \/
                exists transformer h blocks,
                  get_child self "transformer" = Ok transformer /\
                  get_child transformer "h" = Ok h /\
                  map fst blocks = map fst (children h) /\
                  s1 = with_blocks self blocks).
  { revert Hh. unfold GPT_forward_hidden.
    rewrite Fwd_bind_reading.
    destruct (get_child self "transformer") as [transformer|e] eqn:Ht;
      [|intros H; apply (f_equal snd) in H; cbn in H; left; congruence].
    rewrite Fwd_bind_lift.
    destruct (wte ← get_child transformer "wte"; Embedding_forward wte idx)
      as [x|e]; [|intros H; apply (f_equal snd) in H; cbn in H; left; congruence].
    rewrite Fwd_bind_reading.
    destruct (get_config self) as [config|e];
      [|intros H; apply (f_equal snd) in H; cbn in H; left; congruence].
    cbv zeta. rewrite Fwd_bind_lift.
    destruct (get_child transformer "h") as [h|e] eqn:Hhh;
      [|intros H; apply (f_equal snd) in H; cbn in H; left; congruence].
    unfold mbind, Fwd_bind, pure. cbn beta.
    match goal with
    | |- context [run_blocks (children h) ?x0 cos sin mask input_pos] =>
        pose proof (run_blocks_names (children h) x0 cos sin mask input_pos) as Hn;
        destruct (run_blocks (children h) x0 cos sin mask input_pos) as [r1 blocks]
    end.
    cbn in Hn.
    assert (E : forall r', (r', with_blocks self blocks) = (r, s1) ->
                s1 = self \/
                exists transformer0 h0 blocks0,
                  Ok transformer = Ok transformer0 /\
                  get_child transformer0 "h" = Ok h0 /\
                  map fst blocks0 = map fst (children h0) /\
                  s1 = with_blocks self blocks0).
    { intros r' H. apply (f_equal snd) in H. cbn in H. subst s1.
      right. now exists transformer, h, blocks. }
    destruct r1 as [x1|e]; [|apply E].
    destruct (ln_f ← get_child transformer "ln_f"; norm_forward ln_f x1); apply E. }
  destruct r as [x|e]; cbn [snd].
  - rewrite GPT_forward_logits_state. intros ->. exact Hs1.
  - intros ->. exact Hs1.
Qed.

Lemma assoc_set_keys {A} (k : string) (a : A) (l : list (string * A)) :
  map fst (assoc_set k a l) = map fst l.
Proof.
  induction l as [|[k' a'] l IH]; [reflexivity|]. cbn [assoc_set].
  destruct (String.eqb k k'); cbn; [reflexivity|now rewrite IH].
Qed.

(** X9. [GPT.forward] changes nothing of the model but what the blocks change
    in themselves: whether it returns or raises, the model afterwards has the
    parameters, buffers ([cos], [sin]), attributes ([config],
    [max_seq_length], [mask_cache]) and submodules other than [transformer.h]
    that it had before, and [transformer.h] is a list of the same class with
    the same entries' names. *)
Theorem GPT_forward_frame (self : Module) (idx : list (list Z))
    (input_pos : option (list Z)) (lm_head_chunk_size : Z) :
  let s := (GPT_forward idx input_pos lm_head_chunk_size self).2 in
  cls s = cls self /\ parameters s = parameters self /\ buffers s = buffers self /\
  attrs s = attrs self /\ map fst (children s) = map fst (children self) /\
  (forall k, k <> "transformer" -> get_child s k = get_child self k) /\
  (forall k, k <> "h" ->
     get_submodule s ["transformer"; k] = get_submodule self ["transformer"; k]) /\
  (forall h, get_submodule self ["transformer"; "h"] = Ok h ->
     exists h', get_submodule s ["transformer"; "h"] = Ok h' /\
                cls h' = cls h /\ map fst (children h') = map fst (children h)).
Proof.
  intros s.
  destruct (GPT_forward_state self idx input_pos lm_head_chunk_size)
    as [E|(transformer & h & blocks & Ht & Hh & Hn & E)]; fold s in E; rewrite E.
  - repeat split; auto. intros h Hh. now exists h.
  - unfold with_blocks. rewrite Ht, Hh.
    destruct h as [hc hps hbs hats hms]. destruct self as [c ps bs ats ms].
    destruct transformer as [tc tps tbs tats tms].
    unfold get_child in *. cbn [children set_child cls parameters buffers attrs] in *.
    assert (Ht' : assoc "transformer" ms = Some (Mod tc tps tbs tats tms)).
    { destruct (assoc "transformer" ms); [now injection Ht as ->|discriminate]. }
    assert (Hh' : assoc "h" tms = Some (Mod hc hps hbs hats hms)).
    { destruct (assoc "h" tms); [now injection Hh as ->|discriminate]. }
    repeat split.
    + apply assoc_set_keys.
    + intros k Hk. now rewrite assoc_set_ne by congruence.
    + intros k Hk. cbn [get_submodule]. unfold get_child. cbn [children].
      rewrite (assoc_set_eq _ _ _ _ Ht'), Ht'. cbn. unfold get_child. cbn [children].
      now rewrite assoc_set_ne by congruence.
    + intros h. cbn [get_submodule]. unfold get_child. cbn [children].
      rewrite (assoc_set_eq _ _ _ _ Ht'), Ht'. cbn. unfold get_child. cbn [children].
      rewrite (assoc_set_eq _ _ _ _ Hh'), Hh'. cbn. intros [= <-].
      eexists. split; [reflexivity|]. split; [reflexivity|exact Hn].
Qed.

(** ** The chunks of the head *)

Lemma num_splits_one (n c : nat) : n <= c -> num_splits n c = 1.
Proof.
  intros H. unfold num_splits. destruct c as [|c].
  - now replace n with 0 by lia.
  - destruct n as [|n].
    + rewrite Nat.div_small by lia. reflexivity.
    + replace (S n + S c - 1) with (1 * S c + n) by lia.
      rewrite Nat.div_add_l by lia. rewrite Nat.div_small by lia. reflexivity.
Qed.

Lemma piece_whole {X} (c : nat) (x : list (list X)) :
  Forall (fun r => length r <= c) x -> piece c 0 x = x.
Proof.
  intros H. unfold piece. rewrite <- (map_id x) at 2. apply map_ext_Forall.
  eapply Forall_impl; [exact H|]. intros r Hr. cbn. now apply firstn_all2.
Qed.

(** X10. With a positive [lm_head_chunk_size], the head of [GPT.forward]
    returns [max(ceil(T / lm_head_chunk_size), 1)] chunks for a 3-D input with
    [T] positions: chunk [k] is the head applied to the positions [k * size :
    (k + 1) * size] of the input, and a chunk size of at least [T] gives a
    single chunk, the head applied to the whole input. The model is left as it
    was. *)
Theorem GPT_forward_logits_chunks (self s : Module) (a : list (list (list R)))
    (lm_head_chunk_size : Z) (ys : list Tensor) :
  (0 < lm_head_chunk_size)%Z ->
  GPT_forward_logits (T3 a) lm_head_chunk_size self = (Ok (inr ys), s) ->
  let size := Z.to_nat lm_head_chunk_size in
  exists lm_head,
    get_child self "lm_head" = Ok lm_head /\ s = self /\
    length ys = Nat.max ((size1 a + size - 1) / size) 1 /\
    (forall k y, ys !! k = Some y ->
       AdapterV2Linear_forward lm_head (T3 (piece size k a)) = Ok y) /\
    (size1 a <= size -> Forall (fun r => length r = size1 a) a ->
     exists y, ys = [y] /\ AdapterV2Linear_forward lm_head (T3 a) = Ok y).
Proof.
  intros Hc H size. subst size. revert H.
  unfold GPT_forward_logits, mbind, Fwd_bind, reading, pure, mret, Fwd_ret.
  destruct (get_child self "lm_head") as [lm_head|]; [|discriminate].
  destruct (Z.gtb_spec lm_head_chunk_size 0); [|lia].
  cbn [tensor_split1]. generalize (Z.to_nat lm_head_chunk_size) as c. intros c.
  destruct (mapM (AdapterV2Linear_forward lm_head) (map T3 (split_dim1 c a)))
    as [ys'|] eqn:Hys; [|discriminate].
  intros [= <- <-]. exists lm_head. split; [reflexivity|]. split; [reflexivity|].
  apply mapM_Ok_Forall2 in Hys. rewrite split_dim1_pieces, map_map in Hys.
  pose proof (Forall2_length _ _ _ Hys) as Hlen.
  rewrite length_map, length_seq in Hlen.
  split; [now rewrite <- Hlen|]. split.
  - intros k y Hk.
    destruct (Forall2_lookup_r _ _ _ _ _ Hys Hk) as (p & Hp & Hy).
    rewrite list_lookup_fmap in Hp.
    destruct (seq 0 (num_splits (size1 a) c) !! k) as [k'|] eqn:Hseq; [|discriminate].
    apply lookup_seq in Hseq as [-> _]. cbn in Hp. now injection Hp as <-.
  - intros Hsz Hrect. rewrite (num_splits_one _ _ Hsz) in Hys. cbn in Hys.
    inversion Hys as [|p y l l' Hy Hnil]; subst. inversion Hnil; subst.
    exists y. split; [reflexivity|].
    rewrite piece_whole in Hy; [exact Hy|].
    eapply Forall_impl; [exact Hrect|]. cbn. lia.
Qed.

(** ** The model that [GPT(config)] builds *)

Lemma GPT_init_form (config : Config) (g g' : Rng) (model : Module) :
  GPT_init config g = Ok (model, g') ->
  exists vocab lm_head w h ln_f cos sin g1,
    padded_vocab_size config = Some vocab /\
    AdapterV2Linear_init (n_embd config) vocab (lm_head_bias config) g = Ok (lm_head, g1) /\
    length w = vocab /\ Forall (fun r => length r = n_embd config) w /\
    model =
      Mod GPT [] [("cos", cos); ("sin", sin)]
          [("config", AConfig config); ("max_seq_length", ANat (block_size config));
           ("mask_cache", ANone)]
          [("lm_head", lm_head);
           ("transformer",
            ModuleDict_init
              [("wte", Mod Embedding
                           [("weight", {| data := T2 w; requires_grad := true |})] []
                           [("num_embeddings", ANat vocab);
                            ("embedding_dim", ANat (n_embd config))] []);
               ("h", ModuleList_init h); ("ln_f", ln_f)])].
Proof.
  unfold GPT_init. destruct (padded_vocab_size config) as [vocab|]; [|discriminate].
  intros H.
  apply Init_bind_inv in H as (lm_head & g1 & Hlm & H).
  apply Init_bind_inv in H as (wte & g2 & Hwte & H).
  apply Init_bind_inv in H as (h & g3 & Hh & H).
  apply Init_bind_inv in H as (ln_f & g4 & Hln & H).
  destruct (rope_cache config (block_size config)) as [cos sin].
  apply Init_ret_inv in H as [-> _].
  destruct (Embedding_init_ok vocab (n_embd config) g1) as (w & g2' & Hwte' & Hw & Hrows).
  rewrite Hwte' in Hwte. injection Hwte as <- <-.
  exists vocab, lm_head, w, h, ln_f, cos, sin, g1. auto 10.
Qed.

Lemma mapM_cons_Ok {A B} (f : A -> Result B) (x : A) (y : B) (l : list A)
    (k : list B) :
  f x = Ok y -> mapM f l = Ok k -> mapM f (x :: l) = Ok (y :: k).
Proof. intros Hx Hl. cbn. now rewrite Hx, Hl. Qed.

Lemma tensor_map_along_last (f : R -> R) (t : Tensor) :
  tensor_map f t = along_last (map f) t.
Proof. now destruct t. Qed.

Lemma last_dim_piece (n c k : nat) (a : list (list (list R))) :
  last_dim n (T3 a) -> last_dim n (T3 (piece c k a)).
Proof.
  cbn. unfold piece. intros H. rewrite Forall_map.
  eapply Forall_impl; [exact H|]. intros r Hr. cbn.
  now apply Forall_take, Forall_drop.
Qed.

(** X11. The head of a constructed GPT returns logits over the padded
    vocabulary: from a hidden state whose last dimension is [n_embd] it
    returns, leaving the model as it was, a tensor with the same leading
    dimensions whose last dimension is [padded_vocab_size], soft-capped or
    not; and with a positive chunk size every chunk has this last dimension. *)
Theorem GPT_forward_logits_shape (config : Config) (g g' : Rng) (model : Module) :
  GPT_init config g = Ok (model, g') ->
  exists vocab,
    padded_vocab_size config = Some vocab /\
    (forall x, last_dim (n_embd config) x ->
       exists y, GPT_forward_logits x 0 model = (Ok (inl y), model) /\
                 last_dim vocab y /\ leading_dims y = leading_dims x) /\
    (forall a lm_head_chunk_size,
       (0 < lm_head_chunk_size)%Z -> last_dim (n_embd config) (T3 a) ->
       exists ys, GPT_forward_logits (T3 a) lm_head_chunk_size model
                    = (Ok (inr ys), model) /\
                  Forall (last_dim vocab) ys).
Proof.
  intros Hinit.
  destruct (GPT_init_form _ _ _ _ Hinit)
    as (vocab & lm_head & w & h & ln_f & cos & sin & g1 & Hv & Hlm & _ & _ & ->).
  exists vocab. split; [exact Hv|].
  destruct (AdapterV2Linear_forward_dims _ _ _ (AdapterV2Linear_init_dims _ _ _ _ _ _ Hlm))
    as [Hok _].
  split.
  - intros x Hx. destruct (Hok x Hx) as (G & HG & Hlen).
    unfold GPT_forward_logits, mbind, Fwd_bind, reading, pure, mret, Fwd_ret.
    cbn [get_child children assoc String.eqb Ascii.eqb Bool.eqb of_option Z.gtb Z.compare].
    rewrite HG. cbn.
    assert (Hy : last_dim vocab (along_last G x)) by now apply (along_last_last_dim G (n_embd config)).
    destruct (final_logit_softcapping config) as [cap|].
    + eexists. split; [reflexivity|]. unfold softcap. rewrite tensor_map_along_last.
      split.
      * apply (along_last_last_dim _ vocab); [|exact Hy]. intros r Hr. now rewrite length_map.
      * now rewrite !leading_dims_along_last.
    + eexists. split; [reflexivity|]. split; [exact Hy|apply leading_dims_along_last].
  - intros a c Hc Ha.
    assert (Hys : exists ys,
               mapM (AdapterV2Linear_forward lm_head)
                    (map T3 (split_dim1 (Z.to_nat c) a)) = Ok ys /\
               Forall (last_dim vocab) ys).
    { rewrite split_dim1_pieces, map_map.
      induction (seq 0 (num_splits (size1 a) (Z.to_nat c))) as [|k l IH].
      - now exists [].
      - destruct IH as (ys & Hys & Hall).
        destruct (Hok (T3 (piece (Z.to_nat c) k a))) as (G & HG & Hlen);
          [now apply last_dim_piece|].
        exists (along_last G (T3 (piece (Z.to_nat c) k a)) :: ys).
        split; [now apply mapM_cons_Ok|].
        constructor; [|exact Hall].
        apply (along_last_last_dim G (n_embd config)); [exact Hlen|].
        now apply last_dim_piece. }
    destruct Hys as (ys & Hys & Hall). exists ys. split; [|exact Hall].
    apply (GPT_forward_logits_chunked _ _ _ lm_head
             (map T3 (split_dim1 (Z.to_nat c) a)) ys Hc);
      [reflexivity|reflexivity|exact Hys].
Qed.

(** ** Token ids outside the vocabulary *)

Lemma select_out_of_range {X} (pos : list Z) (l : list X) (i : Z) :
  In i pos -> (i < 0 \/ Z.of_nat (length l) <= i)%Z ->
  select pos l = Raise IndexError.
Proof.
  intros Hin Hi. unfold select. apply mapM_Exists_Raise.
  - intros j e. destruct (j <? 0)%Z; [now intros [= <-]|].
    destruct (nth_error l (Z.to_nat j)); [discriminate|now intros [= <-]].
  - apply Exists_exists. exists i. split; [now apply list_elem_of_In|].
    destruct (Z.ltb_spec i 0); [reflexivity|].
    destruct (nth_error l (Z.to_nat i)) eqn:E; [|reflexivity].
    assert (Z.to_nat i < length l) by (apply nth_error_Some; congruence). lia.
Qed.

Lemma index_error_matrix (rows cols : nat) (w : list (list R)) :
  length w = rows -> Forall (fun r => length r = cols) w ->
  index_error (T2 w) =
    if (rows =? 0) || (cols =? 0) then RuntimeError else IndexError.
Proof.
  intros <- Hcols. unfold index_error, numel. cbn [shape foldr].
  destruct Hcols as [|r w Hr _]; [reflexivity|].
  replace (size1 (r :: w)) with cols by (symmetry; exact Hr).
  rewrite Nat.mul_1_r. cbn [length Nat.eqb orb].
  destruct cols; [now rewrite Nat.mul_0_r|reflexivity].
Qed.

(** X12. A forward pass of a constructed GPT over token ids of which one is
    negative or not below [padded_vocab_size] raises at the embedding, before
    any block runs, and leaves the model as it was (the sequence being no
    longer than [block_size], so that the length check passes). The error is
    [IndexError]; only an embedding table without elements
    ([padded_vocab_size = 0] or [n_embd = 0]) raises [RuntimeError]
    instead. *)
Theorem GPT_forward_token_out_of_range (config : Config) (g g' : Rng)
    (model : Module) (vocab : nat) (idx : list (list Z)) (row : list Z) (id : Z)
    (lm_head_chunk_size : Z) :
  GPT_init config g = Ok (model, g') ->
  padded_vocab_size config = Some vocab ->
  size1 idx <= block_size config ->
  In row idx -> In id row -> (id < 0 \/ Z.of_nat vocab <= id)%Z ->
  GPT_forward idx None lm_head_chunk_size model =
    (Raise (if (vocab =? 0) || (n_embd config =? 0) then RuntimeError else IndexError),
     model).
Proof.
  intros Hinit Hv Hlen Hrow Hid Hrange.
  destruct (GPT_init_form _ _ _ _ Hinit)
    as (vocab' & lm_head & w & h & ln_f & cos & sin & g1 & Hv' & _ & Hw & Hcols & ->).
  rewrite Hv in Hv'. injection Hv' as <-.
  unfold GPT_forward.
  assert (Hguards : GPT_forward_guards idx None
            (Mod GPT [] [("cos", cos); ("sin", sin)]
               [("config", AConfig config); ("max_seq_length", ANat (block_size config));
                ("mask_cache", ANone)]
               [("lm_head", lm_head);
                ("transformer",
                 ModuleDict_init
                   [("wte", Mod Embedding
                                [("weight", {| data := T2 w; requires_grad := true |})] []
                                [("num_embeddings", ANat vocab);
                                 ("embedding_dim", ANat (n_embd config))] []);
                    ("h", ModuleList_init h); ("ln_f", ln_f)])])
            = (Ok (take_rows (size1 idx) cos, take_rows (size1 idx) sin, None),
               Mod GPT [] [("cos", cos); ("sin", sin)]
               [("config", AConfig config); ("max_seq_length", ANat (block_size config));
                ("mask_cache", ANone)]
               [("lm_head", lm_head);
                ("transformer",
                 ModuleDict_init
                   [("wte", Mod Embedding
                                [("weight", {| data := T2 w; requires_grad := true |})] []
                                [("num_embeddings", ANat vocab);
                                 ("embedding_dim", ANat (n_embd config))] []);
                    ("h", ModuleList_init h); ("ln_f", ln_f)])])).
  { unfold GPT_forward_guards. rewrite Fwd_bind_reading.
    change (get_attr _ "max_seq_length") with (Ok (ANat (block_size config)) : Result Attr).
    cbv beta iota. cbn [mbind Result_bind].
    destruct (Nat.ltb_spec (block_size config) (size1 idx)) as [|_]; [lia|].
    reflexivity. }
  unfold mbind at 1, Fwd_bind at 1. rewrite Hguards.
  unfold GPT_forward_hidden. unfold mbind at 1, Fwd_bind at 1.
  rewrite Fwd_bind_reading.
  change (get_child _ "transformer")
    with (Ok (ModuleDict_init
                [("wte", Mod Embedding
                             [("weight", {| data := T2 w; requires_grad := true |})] []
                             [("num_embeddings", ANat vocab);
                              ("embedding_dim", ANat (n_embd config))] []);
                 ("h", ModuleList_init h); ("ln_f", ln_f)]) : Result Module).
  cbv beta iota. rewrite Fwd_bind_lift.
  assert (E : (wte ← get_child
                 (ModuleDict_init
                    [("wte", Mod Embedding
                                 [("weight", {| data := T2 w; requires_grad := true |})] []
                                 [("num_embeddings", ANat vocab);
                                  ("embedding_dim", ANat (n_embd config))] []);
                     ("h", ModuleList_init h); ("ln_f", ln_f)]) "wte";
               Embedding_forward wte idx) = Raise (index_error (T2 w))).
  { change (get_child _ "wte")
      with (Ok (Mod Embedding
                    [("weight", {| data := T2 w; requires_grad := true |})] []
                    [("num_embeddings", ANat vocab);
                     ("embedding_dim", ANat (n_embd config))] []) : Result Module).
    cbn [mbind Result_bind]. unfold Embedding_forward.
    change (get_parameter _ "weight")
      with (Ok {| data := T2 w; requires_grad := true |} : Result Param).
    cbn [mbind Result_bind data as_T2].
    rewrite (mapM_Exists_Raise _ IndexError); [reflexivity| |].
    - intros ids e. apply select_Raise.
    - apply Exists_exists. exists row. split; [now apply list_elem_of_In|].
      apply (select_out_of_range _ _ id); [exact Hid|]. now rewrite Hw. }
  rewrite E, (index_error_matrix vocab (n_embd config)) by assumption. reflexivity.
Qed.

(** ** [GemmaMLP.forward] *)

Lemma broadcast_dim_map {X Y} (op : X -> X -> Result X) (h1 h2 k : Y -> X)
    (P : Y -> Prop) (l : list Y) :
  (forall y, P y -> op (h1 y) (h2 y) = Ok (k y)) ->
  Forall P l -> broadcast_dim op (map h1 l) (map h2 l) = Ok (map k l).
Proof.
  intros Hop Hl. unfold broadcast_dim. rewrite !length_map, Nat.eqb_refl.
  induction Hl as [|y l Hy _ IH]; [reflexivity|].
  cbn [map zip zip_with]. apply mapM_cons_Ok; [now apply Hop|exact IH].
Qed.

Lemma tensor_mul_along_last (n : nat) (g1 g2 : list R -> list R) (x : Tensor) :
  (forall r, length r = n -> length (g1 r) = length (g2 r)) ->
  last_dim n x ->
  tensor_mul (along_last g1 x) (along_last g2 x) =
    Ok (along_last (fun r => zip_with mul (g1 r) (g2 r)) x).
Proof.
  intros Hlen.
  assert (H1 : forall r, length r = n ->
                 broadcast_row mul (g1 r) (g2 r) = Ok (zip_with mul (g1 r) (g2 r))).
  { intros r Hr. apply broadcast_row_same. now apply Hlen. }
  destruct x as [v|m|a|q]; cbn [last_dim along_last tensor_mul]; intros Hx.
  - now rewrite H1.
  - erewrite (broadcast_dim_map _ g1 g2); [reflexivity|exact H1|exact Hx].
  - erewrite (broadcast_dim_map _ (map g1) (map g2)); [reflexivity| |exact Hx].
    intros m Hm. cbn beta.
    now apply (broadcast_dim_map _ g1 g2 _ (fun r => length r = n)).
  - erewrite (broadcast_dim_map _ (map (map g1)) (map (map g2))); [reflexivity| |exact Hx].
    intros a Ha. cbn beta.
    apply (broadcast_dim_map _ (map g1) (map g2) _ (Forall (fun r => length r = n)));
      [|exact Ha].
    intros m Hm. cbn beta.
    now apply (broadcast_dim_map _ g1 g2 _ (fun r => length r = n)).
Qed.

Lemma LLaMAMLP_init_form (c : Cls) (config : Config) (g g' : Rng) (m : Module) :
  LLaMAMLP_init c config g = Ok (m, g') ->
  exists fc_1 fc_2 proj g1 g2,
    AdapterV2Linear_init (n_embd config) (intermediate_size config) (bias config) g
      = Ok (fc_1, g1) /\
    AdapterV2Linear_init (n_embd config) (intermediate_size config) (bias config) g1
      = Ok (fc_2, g2) /\
    AdapterV2Linear_init (intermediate_size config) (n_embd config) (bias config) g2
      = Ok (proj, g') /\
    m = Mod c [] [] [("config", AConfig config)]
            [("fc_1", fc_1); ("fc_2", fc_2); ("proj", proj)].
Proof.
  unfold LLaMAMLP_init. intros H.
  apply Init_bind_inv in H as (fc_1 & g1 & H1 & H).
  apply Init_bind_inv in H as (fc_2 & g2 & H2 & H).
  apply Init_bind_inv in H as (proj & g3 & H3 & H).
  apply Init_ret_inv in H as [-> ->]. now exists fc_1, fc_2, proj, g1, g2.
Qed.

(** X13. A constructed [GemmaMLP] maps a tensor whose last dimension is
    [n_embd] to a tensor of the same shape: [fc_1] and [fc_2] both give
    [intermediate_size] features, so that their product pairs entry with
    entry, and [proj] brings them back to [n_embd]. On an input with a vector
    of another length along the last dimension it raises [RuntimeError],
    also when [intermediate_size] is 0. *)
Theorem GemmaMLP_forward_shape (config : Config) (g g' : Rng) (mlp : Module) :
  LLaMAMLP_init GemmaMLP config g = Ok (mlp, g') ->
  (forall x, last_dim (n_embd config) x ->
     exists y, GemmaMLP_forward mlp x = Ok y /\
               last_dim (n_embd config) y /\ leading_dims y = leading_dims x) /\
  (forall x, ~ last_dim (n_embd config) x ->
     GemmaMLP_forward mlp x = Raise RuntimeError).
Proof.
  intros H.
  apply LLaMAMLP_init_form in H as (fc_1 & fc_2 & proj & g1 & g2 & H1 & H2 & H3 & ->).
  destruct (AdapterV2Linear_forward_dims _ _ _ (AdapterV2Linear_init_dims _ _ _ _ _ _ H1))
    as [Hok1 Hbad1].
  destruct (AdapterV2Linear_forward_dims _ _ _ (AdapterV2Linear_init_dims _ _ _ _ _ _ H2))
    as [Hok2 _].
  destruct (AdapterV2Linear_forward_dims _ _ _ (AdapterV2Linear_init_dims _ _ _ _ _ _ H3))
    as [Hok3 _].
  unfold GemmaMLP_forward, get_config, get_child, get_attr.
  cbn [children attrs assoc String.eqb Ascii.eqb Bool.eqb of_option mbind Result_bind].
  split.
  - intros x Hx.
    destruct (Hok1 x Hx) as (G1 & HG1 & Hl1). destruct (Hok2 x Hx) as (G2 & HG2 & Hl2).
    rewrite HG1. cbn [mbind Result_bind]. rewrite HG2. cbn [mbind Result_bind].
    rewrite tensor_map_along_last, along_last_compose.
    rewrite (tensor_mul_along_last (n_embd config)); [|intros r Hr|exact Hx].
    2: { rewrite length_map, Hl1, Hl2 by exact Hr. reflexivity. }
    cbn [mbind Result_bind].
    set (K := fun r => zip_with mul (map (gelu (gelu_approximate config)) (G1 r)) (G2 r)).
    assert (HK : last_dim (intermediate_size config) (along_last K x)).
    { apply (along_last_last_dim K (n_embd config)); [|exact Hx].
      intros r Hr. unfold K. rewrite length_zip_with, length_map, Hl1, Hl2 by exact Hr.
      lia. }
    destruct (Hok3 _ HK) as (G3 & HG3 & Hl3). rewrite HG3, along_last_compose.
    eexists. split; [reflexivity|]. split.
    + apply (along_last_last_dim _ (n_embd config)); [|exact Hx].
      intros r Hr. apply Hl3. unfold K.
      rewrite length_zip_with, length_map, Hl1, Hl2 by exact Hr. lia.
    + apply leading_dims_along_last.
  - intros x Hx. now rewrite (Hbad1 x Hx).
Qed.


(** ** State dicts that are already current *)

Lemma map_old_absent (mapping : list (string * string)) (prefix : string)
    (sd : gmap string Tensor) :
  (forall old new, In (old, new) mapping -> sd !! (prefix +:+ old) = None) ->
  map_old_state_dict_weights sd mapping prefix = sd.
Proof.
  rewrite map_old_foldl. induction mapping as [|[old new] l IH]; intros H; [reflexivity|].
  cbn [foldl]. unfold move_key at 2. cbn [fst snd].
  rewrite (H old new) by (now left). apply IH. intros o n Hin. apply (H o n). now right.
Qed.

(** X15. A state dict that holds no key under an old name is handed to the
    base class as it is: every renaming hook passes it on unchanged, and so
    does the attention hook when there is moreover no legacy [attn.linear] key
    and the [gating_factor], if present, has a size at dimension 1 other than
    [n_head]. *)
Theorem load_from_state_dict_current_format :
  Forall (fun '(hook, mapping, c) =>
            forall self sd prefix args,
              (forall old new, In (old, new) mapping -> sd !! (prefix +:+ old) = None) ->
              hook self sd prefix args =
                super_load_from_state_dict c self sd prefix args)
         renaming_hooks /\
  (forall self config sd prefix args,
     get_config self = Ok config ->
     (forall old new, In (old, new) CausalSelfAttention_mapping ->
                      sd !! (prefix +:+ old) = None) ->
     (forall attr, In attr ["weight"; "bias"] ->
                   sd !! (prefix +:+ "attn.linear." +:+ attr) = None) ->
     (sd !! (prefix +:+ "gating_factor") = None \/
      exists t n, sd !! (prefix +:+ "gating_factor") = Some t /\
                  size 1 t = Ok n /\ n <> n_head config) ->
     CausalSelfAttention_load_from_state_dict self sd prefix args =
       Ok (super_load_from_state_dict CausalSelfAttention self sd prefix args)).
Proof.
  split.
  - unfold renaming_hooks.
    constructor; [|constructor; [|constructor; [|constructor; [|constructor]]]];
      intros self sd prefix args Hnone;
      unfold GPT_load_from_state_dict, GptNeoxMLP_load_from_state_dict,
        LLaMAMLP_load_from_state_dict, LLaMAMoE_load_from_state_dict;
      now rewrite map_old_absent.
  - intros self config sd prefix args Hc Hnone Hlegacy Hgate.
    unfold CausalSelfAttention_load_from_state_dict.
    rewrite (CausalSelfAttention_state_dict_steps _ config) by exact Hc.
    rewrite map_old_absent by exact Hnone.
    assert (Hg : gating_layout config prefix sd = Ok sd).
    { unfold gating_layout. destruct Hgate as [->|(t & n & -> & -> & Hn)]; [reflexivity|].
      cbn [mbind Result_bind]. apply Nat.eqb_neq in Hn. now rewrite Hn. }
    rewrite Hg. cbn [mbind Result_bind foldl]. unfold legacy_to_current.
    rewrite (Hlegacy "weight") by (now left).
    rewrite (Hlegacy "bias") by (right; now left). reflexivity.
Qed.

(** ** Positions outside the rope cache *)

Lemma index_select_out_of_range (t : Tensor) (pos : list Z) (rows : nat) (p : Z) :
  size 0 t = Ok rows -> In p pos -> (p < 0 \/ Z.of_nat rows <= p)%Z ->
  index_select 0 t pos = Raise (index_error t).
Proof.
  intros Hsize Hin Hp. unfold size in Hsize.
  destruct t as [v|m|a|q]; cbn in Hsize; injection Hsize as <-; cbn [index_select];
    now rewrite (select_out_of_range pos _ p).
Qed.

Lemma out_of_range_RuntimeError {A} (t : Tensor) (r : Result A) :
  out_of_range t r = Raise RuntimeError -> numel t = 0.
Proof.
  destruct r; [discriminate|]. cbn [out_of_range]. unfold index_error.
  destruct (Nat.eqb_spec (numel t) 0) as [E|_]; [intros _; exact E|].
  now destruct t.
Qed.

(** X16. With [input_pos] given, a position that is negative or not below the
    number of rows of the rope cache makes [GPT.forward] raise when it
    selects [cos], whatever [mask_cache] holds, and the model is left as it
    was (the sequence being no longer than [max_seq_length], so that the
    length check passes). The error is [IndexError] whenever the cache holds
    an element; a cache of two or more dimensions without elements raises
    [RuntimeError] instead. *)
Theorem GPT_forward_input_pos_out_of_range (self : Module) (idx : list (list Z))
    (pos : list Z) (p : Z) (lm_head_chunk_size : Z) (max_seq_length rows : nat)
    (cos : Tensor) :
  get_attr self "max_seq_length" = Ok (ANat max_seq_length) ->
  size1 idx <= max_seq_length ->
  get_buffer self "cos" = Ok cos -> size 0 cos = Ok rows ->
  In p pos -> (p < 0 \/ Z.of_nat rows <= p)%Z ->
  GPT_forward idx (Some pos) lm_head_chunk_size self = (Raise (index_error cos), self) /\
  (numel cos <> 0 -> index_error cos = IndexError) /\
  (numel cos = 0 -> length (shape cos) <> 1 -> index_error cos = RuntimeError).
Proof.
  intros Hmax Hlen Hcos Hrows Hin Hp. split; [|split].
  - unfold GPT_forward, GPT_forward_guards.
    unfold mbind at 1, Fwd_bind at 1. rewrite Fwd_bind_reading, Hmax.
    cbn [mbind Result_bind].
    destruct (Nat.ltb_spec max_seq_length (size1 idx)) as [|_]; [lia|].
    rewrite Fwd_bind_reading, Hcos. cbn [mbind Result_bind].
    now rewrite (index_select_out_of_range cos pos rows p).
  - intros Hn. apply Nat.eqb_neq in Hn. unfold index_error. rewrite Hn.
    now destruct cos.
  - intros Hn Hrank. unfold index_error. rewrite Hn.
    destruct cos; [now cbn in Hrank|reflexivity..].
Qed.

(** ** Which projections have a bias *)

Lemma AdapterV2Linear_init_bias (i o : nat) (b : bool) (g g' : Rng) (m : Module) :
  AdapterV2Linear_init i o b g = Ok (m, g') -> linear_bias_is b m [].
Proof.
  intros H. destruct (AdapterV2Linear_init_ok i o b g) as (linear & g1 & Hm & Hlin).
  rewrite Hm in H. injection H as <- <-.
  destruct (Linear_init_ok i o b g) as (w & bs & g2 & Hlin' & _ & _ & Hb).
  rewrite Hlin in Hlin'. injection Hlin' as -> _.
  eexists. split; [reflexivity|]. destruct b.
  - destruct Hb as (v & -> & _). now eexists _, v.
  - now rewrite Hb.
Qed.

Lemma linear_bias_is_at (b : bool) (m sub : Module) (path : list string) :
  get_submodule m path = Ok sub -> linear_bias_is b sub [] -> linear_bias_is b m path.
Proof.
  intros Hsub (linear & Hlin & Hb). exists linear. split; [|exact Hb].
  rewrite get_submodule_app, Hsub. exact Hlin.
Qed.

(** X17. In a constructed GPT the wrapped projection of [lm_head] has a bias
    exactly when [lm_head_bias] is set, that of every block's fused [attn.qkv]
    exactly when [bias] or [attn_bias] is set, and that of [attn.proj] exactly
    when [bias] is set. *)
Theorem GPT_init_linear_biases (config : Config) (g g' : Rng) (model : Module) :
  GPT_init config g = Ok (model, g') ->
  linear_bias_is (lm_head_bias config) model ["lm_head"] /\
  forall i, i < n_layer config ->
    linear_bias_is (bias config || attn_bias config) model
      ["transformer"; "h"; Str.of_nat i; "attn"; "qkv"] /\
    linear_bias_is (bias config) model
      ["transformer"; "h"; Str.of_nat i; "attn"; "proj"].
Proof.
  intros Hinit. split.
  - destruct (GPT_init_form _ _ _ _ Hinit)
      as (vocab & lm_head & w & h & ln_f & cos & sin & g1 & _ & Hlm & _ & _ & ->).
    apply (linear_bias_is_at _ _ lm_head); [reflexivity|].
    exact (AdapterV2Linear_init_bias _ _ _ _ _ _ Hlm).
  - intros i Hi.
    apply GPT_init_built in Hinit as (_ & _ & _ & _ & Hblocks).
    destruct (Hblocks i Hi) as (b & gi & gi' & Hpath & Hb).
    apply Block_init_built in Hb as (_ & _ & (attn & ga & ga' & Hattn & Hainit) & _).
    destruct (CausalSelfAttention_init_ok config i ga
                (CausalSelfAttention_init_stride _ _ _ _ _ Hainit))
      as (qkv & proj & ams & aps & aas & sl & g1 & g2 & g3 & Hq & Hp & Hform & _).
    rewrite Hainit in Hform. injection Hform as E _.
    assert (Hat : forall k sub,
              get_child attn k = Ok sub ->
              get_submodule model ["transformer"; "h"; Str.of_nat i; "attn"; k] = Ok sub).
    { intros k sub Hk.
      change ["transformer"; "h"; Str.of_nat i; "attn"; k]
        with (["transformer"; "h"; Str.of_nat i] ++ ["attn"; k]).
      rewrite get_submodule_app, Hpath. cbn [mbind Result_bind get_submodule].
      rewrite Hattn. cbn [mbind Result_bind]. now rewrite Hk. }
    assert (Hqc : get_child attn "qkv" = Ok qkv) by now rewrite E.
    assert (Hpc : get_child attn "proj" = Ok proj) by now rewrite E.
    split.
    + apply (linear_bias_is_at _ _ qkv); [now apply Hat|].
      exact (AdapterV2Linear_init_bias _ _ _ _ _ _ Hq).
    + apply (linear_bias_is_at _ _ proj); [now apply Hat|].
      exact (AdapterV2Linear_init_bias _ _ _ _ _ _ Hp).
Qed.

(** ** [input_pos] before the key/value cache is set *)

(** X18. A freshly constructed GPT, on which no KV cache and hence no mask
    cache is set, never runs a forward pass with [input_pos]: whatever the
    token ids and positions, the call raises [ValueError] (sequence too long),
    [IndexError] (a position outside the rope cache), [TypeError] (no mask
    cache) or, only when the [cos] or [sin] buffer of the rope cache holds no
    element, [RuntimeError] (a position outside such a cache), and the model
    is left as it was. *)
Theorem GPT_forward_input_pos_before_kv_cache (config : Config) (g g' : Rng)
    (model : Module) (idx : list (list Z)) (pos : list Z) (lm_head_chunk_size : Z) :
  GPT_init config g = Ok (model, g') ->
  exists e,
    GPT_forward idx (Some pos) lm_head_chunk_size model = (Raise e, model) /\
    (e = ValueError \/ e = IndexError \/ e = TypeError \/ e = RuntimeError) /\
    (e = RuntimeError ->
     exists name t, (name = "cos" \/ name = "sin") /\
                    get_buffer model name = Ok t /\ numel t = 0).
Proof.
  intros Hinit.
  destruct (GPT_init_form _ _ _ _ Hinit)
    as (vocab & lm_head & w & h & ln_f & cos & sin & g1 & _ & _ & _ & _ & E).
  assert (Hmax : get_attr model "max_seq_length" = Ok (ANat (block_size config)))
    by now rewrite E.
  assert (Hcos : get_buffer model "cos" = Ok cos) by now rewrite E.
  assert (Hsin : get_buffer model "sin" = Ok sin) by now rewrite E.
  assert (Hmask : get_attr model "mask_cache" = Ok ANone) by now rewrite E.
  assert (Hsel : forall name t e, (name = "cos" \/ name = "sin") ->
            get_buffer model name = Ok t -> index_select 0 t pos = Raise e ->
            (e = ValueError \/ e = IndexError \/ e = TypeError \/ e = RuntimeError) /\
            (e = RuntimeError ->
             exists name t, (name = "cos" \/ name = "sin") /\
                            get_buffer model name = Ok t /\ numel t = 0)).
  { intros name t e Hname Ht He. split.
    - apply index_select_Raise in He as [->| ->]; auto.
    - intros ->. exists name, t. split; [exact Hname|]. split; [exact Ht|].
      destruct t as [v|m|a|q]; cbn [index_select] in He; apply fmap_Raise in He.
      + now apply select_Raise in He.
      + now apply out_of_range_RuntimeError in He.
      + now apply out_of_range_RuntimeError in He.
      + now apply out_of_range_RuntimeError in He. }
  clear E Hinit. unfold GPT_forward, GPT_forward_guards.
  unfold mbind at 1, Fwd_bind at 1. rewrite Fwd_bind_reading, Hmax.
  cbn [mbind Result_bind].
  destruct (block_size config <? size1 idx).
  { exists ValueError. split; [reflexivity|]. split; [auto|discriminate]. }
  rewrite Fwd_bind_reading, Hcos. cbn [mbind Result_bind].
  destruct (index_select 0 cos pos) as [c|e] eqn:Ec.
  2: { exists e. split; [reflexivity|]. apply (Hsel "cos" cos); auto. }
  rewrite Fwd_bind_reading, Hsin. cbn [mbind Result_bind].
  destruct (index_select 0 sin pos) as [s|e] eqn:Es.
  2: { exists e. split; [reflexivity|]. apply (Hsel "sin" sin); auto. }
  rewrite Fwd_bind_reading, Hmask. exists TypeError.
  split; [reflexivity|]. split; [auto|discriminate].
Qed.

End Model.

(** * A small model

    A concrete instance over integer scalars, on which the statements above
    are evaluated. Weights are drawn as 0, 1, 2, ...; blocks and the final
    norm pass their input through. *)

Module Tiny.

Definition draw (g : nat) : Z * nat := (Z.of_nat g, S g).

Definition rope_cache (config : Config Z) (n : nat) : Tensor Z * Tensor Z :=
  (T2 Z (repeat [1%Z] n), T2 Z (repeat [0%Z] n)).

Definition Block_forward (block : Module Z) (x cos sin : Tensor Z)
    (mask : option (Tensor Z)) (input_pos : option (list Z))
  : Result (Tensor Z) * Module Z :=
  (Ok x, block).

Definition norm_forward (norm : Module Z) (x : Tensor Z) : Result (Tensor Z) := Ok x.

Definition qkv_reassemble (t : Tensor Z) (config : Config Z) : Tensor Z := t.

Definition super_load_from_state_dict (c : Cls) (self : Module Z)
    (state_dict : gmap string (Tensor Z)) (prefix : string) (args : unit)
  : Module Z * gmap string (Tensor Z) * unit :=
  (self, state_dict, args).

Definition config : Config Z := {|
  padded_vocab_size := Some 3;
  n_embd := 2;
  n_layer := 2;
  n_head := 2;
  n_query_groups := 2;
  head_size := 1;
  block_size := 4;
  intermediate_size := 3;
  n_expert := 0;
  bias := true;
  attn_bias := false;
  lm_head_bias := false;
  scale_embeddings := false;
  parallel_residual := true;
  shared_attention_norm := false;
  post_attention_norm := false;
  post_mlp_norm := false;
  norm_class_name := Name_LayerNorm;
  norm_eps := 0%Z;
  mlp_class_name := Name_GptNeoxMLP;
  final_logit_softcapping := None;
  sliding_window_size := None;
  sliding_window_layer_stride := 1;
  adapter_prompt_length := 2;
  adapter_start_layer := 1;
|}.

(** [GPT(config)] *)
Definition model : Module Z :=
  match GPT_init Z 0%Z 1%Z nat draw rope_cache config 0 with
  | Ok (m, _) => m
  | Raise _ => Mod Z GPT [] [] [] []
  end.

(** [CausalSelfAttention(config, 1)] *)
Definition attn : Module Z :=
  match CausalSelfAttention_init Z 0%Z 1%Z nat draw config 1 0 with
  | Ok (m, _) => m
  | Raise _ => Mod Z CausalSelfAttention [] [] [] []
  end.

(** A projection from 3 to 2 features and a wrapper around it with a scale
    and a bias that are not the initial ones. *)
Definition linear : Module Z :=
  Mod Z Linear
      [("weight", {| data := T2 Z [[1; 0; 1]; [0; 1; 1]]%Z; requires_grad := true |});
       ("bias", {| data := T1 Z [1; 1]%Z; requires_grad := true |})]
      []
      [("in_features", ANat Z 3); ("out_features", ANat Z 2)]
      [].

Definition wrapped : Module Z :=
  Mod Z AdapterV2Linear
      [("adapter_bias", {| data := T1 Z [10; 20]%Z; requires_grad := false |});
       ("adapter_scale", {| data := T1 Z [2; 3]%Z; requires_grad := false |})]
      [] []
      [("linear", linear)].

Definition forward (idx : list (list Z)) (input_pos : option (list Z))
    (lm_head_chunk_size : Z) : Fwd Z (Tensor Z + list (Tensor Z)) :=
  GPT_forward Z 0%Z Z.add Z.mul Z.div (fun v => v) Z.of_nat Block_forward norm_forward
    idx input_pos lm_head_chunk_size.

(** A stand-in for [gelu] on integers, and the mode the configuration
    names. *)
Definition gelu (mode : string) (v : Z) : Z := Z.max v 0.

Definition gelu_approximate (config : Config Z) : string := "none".

(** The same configuration with both optional norms switched on, and its
    model. *)
Definition config_norms : Config Z := {|
  padded_vocab_size := Some 3;
  n_embd := 2;
  n_layer := 2;
  n_head := 2;
  n_query_groups := 2;
  head_size := 1;
  block_size := 4;
  intermediate_size := 3;
  n_expert := 0;
  bias := true;
  attn_bias := false;
  lm_head_bias := false;
  scale_embeddings := false;
  parallel_residual := true;
  shared_attention_norm := false;
  post_attention_norm := true;
  post_mlp_norm := true;
  norm_class_name := Name_RMSNorm;
  norm_eps := 0%Z;
  mlp_class_name := Name_GemmaMLP;
  final_logit_softcapping := None;
  sliding_window_size := None;
  sliding_window_layer_stride := 1;
  adapter_prompt_length := 2;
  adapter_start_layer := 1;
|}.

Definition model_norms : Module Z :=
  match GPT_init Z 0%Z 1%Z nat draw rope_cache config_norms 0 with
  | Ok (m, _) => m
  | Raise _ => Mod Z GPT [] [] [] []
  end.

(** [GemmaMLP(config)] *)
Definition gemma : Module Z :=
  match LLaMAMLP_init Z 0%Z 1%Z nat draw GemmaMLP config 0 with
  | Ok (m, _) => m
  | Raise _ => Mod Z GemmaMLP [] [] [] []
  end.

(** The configuration above with the fields that the constructors test set
    as given. *)
Definition config_with (vocab : option nat) (layers : nat) (parallel shared : bool)
    (window : option nat) (stride : nat) : Config Z := {|
  padded_vocab_size := vocab;
  n_embd := 2;
  n_layer := layers;
  n_head := 2;
  n_query_groups := 2;
  head_size := 1;
  block_size := 4;
  intermediate_size := 3;
  n_expert := 0;
  bias := true;
  attn_bias := false;
  lm_head_bias := false;
  scale_embeddings := false;
  parallel_residual := parallel;
  shared_attention_norm := shared;
  post_attention_norm := false;
  post_mlp_norm := false;
  norm_class_name := Name_LayerNorm;
  norm_eps := 0%Z;
  mlp_class_name := Name_GptNeoxMLP;
  final_logit_softcapping := None;
  sliding_window_size := window;
  sliding_window_layer_stride := stride;
  adapter_prompt_length := 2;
  adapter_start_layer := 1;
|}.

(** A stand-in for [tanh] on integers, saturating at -1 and 1, and the
    first configuration with [final_logit_softcapping = 2]. *)
Definition tanh (v : Z) : Z := Z.max (-1) (Z.min 1 v).

Definition config_softcap : Config Z := {|
  padded_vocab_size := Some 3;
  n_embd := 2;
  n_layer := 2;
  n_head := 2;
  n_query_groups := 2;
  head_size := 1;
  block_size := 4;
  intermediate_size := 3;
  n_expert := 0;
  bias := true;
  attn_bias := false;
  lm_head_bias := false;
  scale_embeddings := false;
  parallel_residual := true;
  shared_attention_norm := false;
  post_attention_norm := false;
  post_mlp_norm := false;
  norm_class_name := Name_LayerNorm;
  norm_eps := 0%Z;
  mlp_class_name := Name_GptNeoxMLP;
  final_logit_softcapping := Some 2%Z;
  sliding_window_size := None;
  sliding_window_layer_stride := 1;
  adapter_prompt_length := 2;
  adapter_start_layer := 1;
|}.

Definition model_softcap : Module Z :=
  match GPT_init Z 0%Z 1%Z nat draw rope_cache config_softcap 0 with
  | Ok (m, _) => m
  | Raise _ => Mod Z GPT [] [] [] []
  end.

Definition forward_softcap (idx : list (list Z)) (input_pos : option (list Z))
    (lm_head_chunk_size : Z) : Fwd Z (Tensor Z + list (Tensor Z)) :=
  GPT_forward Z 0%Z Z.add Z.mul Z.div tanh Z.of_nat Block_forward norm_forward
    idx input_pos lm_head_chunk_size.

(** A model that holds only what the guards of [GPT.forward] read, with a
    rope cache of four rows and no columns. *)
Definition model_empty_rope : Module Z :=
  Mod Z GPT []
      [("cos", T2 Z (repeat [] 4)); ("sin", T2 Z (repeat [] 4))]
      [("max_seq_length", ANat Z 4); ("mask_cache", ANone Z)]
      [].

End Tiny.

(** * Scalars with a signed zero

    The integers together with the negative zero of floating-point
    arithmetic, under the IEEE 754 rules for the sign of a zero: a sum is the
    negative zero only when both operands are, and a product that is zero
    takes the exclusive or of the signs. [Num 0] is the positive zero. *)

Module SignedZero.

Inductive F := NegZero | Num (z : Z).

Definition value (a : F) : Z :=
  match a with
  | NegZero => 0
  | Num z => z
  end.

Definition negative (a : F) : bool :=
  match a with
  | NegZero => true
  | Num z => (z <? 0)%Z
  end.

Definition add (a b : F) : F :=
  match a, b with
  | NegZero, NegZero => NegZero
  | _, _ => Num (value a + value b)
  end.

Definition mul (a b : F) : F :=
  if (value a * value b =? 0)%Z && xorb (negative a) (negative b)
  then NegZero
  else Num (value a * value b).

Definition draw (g : nat) : F * nat := (Num (Z.of_nat g), S g).

(** A projection of one feature with weight 1.0 and bias -0.0, and a wrapper
    around it whose scale and bias are not the initial ones. *)
Definition linear : Module F :=
  Mod F Linear
      [("weight", {| data := T2 F [[Num 1]]; requires_grad := true |});
       ("bias", {| data := T1 F [NegZero]; requires_grad := true |})]
      []
      [("in_features", ANat F 1); ("out_features", ANat F 1)]
      [].

Definition wrapped : Module F :=
  Mod F AdapterV2Linear
      [("adapter_bias", {| data := T1 F [Num 5]; requires_grad := false |});
       ("adapter_scale", {| data := T1 F [Num 3]; requires_grad := false |})]
      [] []
      [("linear", linear)].

End SignedZero.

Lemma Tiny_wrapped_wf :
  AdapterV2Linear_wf Z 2 Tiny.wrapped Tiny.linear [2; 3]%Z [10; 20]%Z.
Proof.
  split; try reflexivity.
  - eexists. split; reflexivity.
  - eexists. split; reflexivity.
  - eexists _, _. repeat split; reflexivity.
  - intros p [= <-]. eexists. split; reflexivity.
Qed.

Lemma AdapterV2Linear_forward_scale_bias_witness :
  AdapterV2Linear_wf Z 2 Tiny.wrapped Tiny.linear [2; 3]%Z [10; 20]%Z /\
  AdapterV2Linear_forward Z 0%Z Z.add Z.mul Tiny.wrapped (T2 Z [[1; 2; 3]]%Z)
    = Ok (T2 Z [[30; 78]]%Z).
Proof.
  split; [exact Tiny_wrapped_wf|].
  destruct (AdapterV2Linear_forward_scale_bias Z 0%Z Z.add Z.mul 2 Tiny.wrapped
              Tiny.linear [2; 3]%Z [10; 20]%Z (T2 Z [[1; 2; 3]]%Z) Tiny_wrapped_wf)
    as [H _].
  rewrite H. reflexivity.
Defined.

Lemma CausalSelfAttention_adapter_prefix_layers_witness :
  (exists attn g',
     CausalSelfAttention_init Z 0%Z 1%Z nat Tiny.draw Tiny.config 1 0 = Ok (attn, g') /\
     has_adapter_prefix Z 0%Z Tiny.config attn) /\
  (exists attn g',
     CausalSelfAttention_init Z 0%Z 1%Z nat Tiny.draw Tiny.config 0 0 = Ok (attn, g') /\
     no_adapter_prefix Z attn).
Proof.
  destruct (CausalSelfAttention_adapter_prefix_layers Z 0%Z 1%Z nat Tiny.draw
              Tiny.rope_cache Tiny.config) as [Hinit _].
  split.
  - destruct (Hinit 1 0 (or_introl eq_refl)) as (attn & g' & H & Hhas & _).
    exists attn, g'. split; [exact H|]. apply Hhas. cbn. lia.
  - destruct (Hinit 0 0 (or_introl eq_refl)) as (attn & g' & H & _ & Hnone).
    exists attn, g'. split; [exact H|]. apply Hnone. cbn. lia.
Defined.

Lemma Tiny_model_init :
  exists g', GPT_init Z 0%Z 1%Z nat Tiny.draw Tiny.rope_cache Tiny.config 0
             = Ok (Tiny.model, g').
Proof. eexists. vm_compute. reflexivity. Qed.


Lemma AdapterV2Linear_init_requires_grad_witness :
  exists m g',
    AdapterV2Linear_init Z 0%Z 1%Z nat Tiny.draw 2 3 true 0 = Ok (m, g') /\
    get_parameter Z m "adapter_scale"
      = Ok {| data := T1 Z [1; 1; 1]%Z; requires_grad := false |} /\
    get_parameter Z (mark_from Z "lm_head" m) "adapter_scale"
      = Ok {| data := T1 Z [1; 1; 1]%Z; requires_grad := true |}.
Proof.
  assert (Hinit : exists m g',
             AdapterV2Linear_init Z 0%Z 1%Z nat Tiny.draw 2 3 true 0 = Ok (m, g')).
  { eexists _, _. vm_compute. reflexivity. }
  destruct Hinit as (m & g' & Hinit). exists m, g'. split; [exact Hinit|].
  destruct (AdapterV2Linear_init_requires_grad Z 0%Z 1%Z nat Tiny.draw 2 3 true 0 g' m
              Hinit) as (Hscale & _ & _ & Hmark).
  split; [exact Hscale|]. exact (proj1 (Hmark "lm_head")).
Defined.

(** C6 as stated fails: [AdapterV2Linear(2, 3)], freshly constructed, holds
    its scale and its bias with [requires_grad=False]. *)
Lemma AdapterV2Linear_init_trainable_counterexample :
  exists m g',
    AdapterV2Linear_init Z 0%Z 1%Z nat Tiny.draw 2 3 true 0 = Ok (m, g') /\
    requires_grad Z <$> get_parameter Z m "adapter_scale" = Ok false /\
    requires_grad Z <$> get_parameter Z m "adapter_bias" = Ok false.
Proof. eexists _, _. repeat split; vm_compute; reflexivity. Qed.

Lemma mark_only_adapter_v2_as_trainable_spec_witness :
  map (fun np => (np.1, requires_grad Z np.2))
      (List.filter (fun np => negb (Str.contains "transformer.h." np.1))
         (named_parameters Z "" (mark_only_adapter_v2_as_trainable Z Tiny.model)))
    = [("lm_head.adapter_bias", true); ("lm_head.adapter_scale", true);
       ("lm_head.linear.weight", false); ("transformer.wte.weight", false);
       ("transformer.ln_f.weight", true); ("transformer.ln_f.bias", true)] /\
  (forall name p,
     In name ["transformer.h.1.attn.gating_factor";
              "transformer.h.1.attn.adapter_wte.weight";
              "transformer.h.0.norm_1.bias";
              "transformer.h.0.norm_2.weight";
              "transformer.h.1.mlp.fc.adapter_scale";
              "transformer.h.1.mlp.fc.adapter_bias";
              "transformer.ln_f.weight"] ->
     In (name, p)
        (named_parameters Z "" (mark_only_adapter_v2_as_trainable Z Tiny.model)) ->
     requires_grad Z p = true) /\
  (exists wte p,
     get_submodule Z (mark_only_adapter_v2_as_trainable Z Tiny.model)
       ["transformer"; "wte"] = Ok wte /\
     parameters Z wte = [("weight", p)] /\ requires_grad Z p = false).
Proof.
  destruct Tiny_model_init as [g' Hinit].
  destruct (mark_only_adapter_v2_as_trainable_spec Z 0%Z 1%Z nat Tiny.draw
              Tiny.rope_cache) as (_ & Hiff & Hgpt).
  destruct (Hgpt Tiny.config 0 Tiny.model g' Hinit)
    as (_ & (wte & p & Hwte & _ & Hps & Hp) & _).
  split; [vm_compute; reflexivity|]. split; [|now exists wte, p].
  intros name q Hname Hq. apply (Hiff _ _ _ Hq).
  cbn [In] in Hname.
  destruct Hname as [<-|[<-|[<-|[<-|[<-|[<-|[<-|[]]]]]]]].
  - exists "gating_factor".
    split; [cbn; auto 10|]. now exists "transformer.h.1.attn.", "".
  - exists "adapter_wte".
    split; [cbn; auto 10|]. now exists "transformer.h.1.attn.", ".weight".
  - exists "norm_1".
    split; [cbn; auto 10|]. now exists "transformer.h.0.", ".bias".
  - exists "norm_2".
    split; [cbn; auto 10|]. now exists "transformer.h.0.", ".weight".
  - exists "adapter_scale".
    split; [cbn; auto 10|]. now exists "transformer.h.1.mlp.fc.", "".
  - exists "adapter_bias".
    split; [cbn; auto 10|]. now exists "transformer.h.1.mlp.fc.", "".
  - exists "ln_f".
    split; [cbn; auto 10|]. now exists "transformer.", ".weight".
Defined.

Lemma load_from_state_dict_old_names_witness :
  (exists sd',
     GPT_load_from_state_dict Z unit Tiny.super_load_from_state_dict Tiny.model
       (<["lm_head.weight" := T2 Z [[1; 2]]%Z]>
          {["transformer.wte.weight" := T2 Z [[3; 4]]%Z]}) "" tt
       = (Tiny.model, sd', tt) /\
     sd' !! "lm_head.linear.weight" = Some (T2 Z [[1; 2]]%Z) /\
     sd' !! "lm_head.weight" = None /\
     sd' !! "transformer.wte.weight" = Some (T2 Z [[3; 4]]%Z)) /\
  (exists sd',
     CausalSelfAttention_load_from_state_dict Z (fun t _ => tensor_map Z Z.opp t) unit
       Tiny.super_load_from_state_dict Tiny.attn
       (<["attn.proj.bias" := T1 Z [5; 6]%Z]>
          {["attn.attn.linear.weight" := T2 Z [[7; 8]]%Z]}) "attn." tt
       = Ok (Tiny.attn, sd', tt) /\
     sd' !! "attn.qkv.linear.weight" = Some (T2 Z [[-7; -8]]%Z) /\
     sd' !! "attn.attn.linear.weight" = None).
Proof.
  split.
  - destruct (load_from_state_dict_old_names Z Tiny.qkv_reassemble unit
                Tiny.super_load_from_state_dict) as [Hhooks _].
    apply Forall_cons in Hhooks as [Hgpt _].
    destruct (Hgpt Tiny.model
                (<["lm_head.weight" := T2 Z [[1; 2]]%Z]>
                   {["transformer.wte.weight" := T2 Z [[3; 4]]%Z]}) "" tt)
      as [(sd' & Hload & Hmoved & Hkept) _].
    exists sd'. split; [exact Hload|].
    destruct (Hmoved "lm_head.weight" "lm_head.linear.weight" (T2 Z [[1; 2]]%Z))
      as [Hnew Hold]; [now left|apply lookup_insert_eq|].
    split; [exact Hnew|]. split; [exact Hold|].
    rewrite (Hkept "transformer.wte.weight").
    + rewrite lookup_insert_ne by discriminate. apply lookup_singleton_eq.
    + intros old new Hin. cbn in Hin.
      destruct Hin as [[= <- <-]|[[= <- <-]|[]]]; split; discriminate.
  - destruct (load_from_state_dict_old_names Z (fun t _ => tensor_map Z Z.opp t) unit
                Tiny.super_load_from_state_dict) as [_ Hattn].
    specialize (Hattn Tiny.attn Tiny.config
                  (<["attn.proj.bias" := T1 Z [5; 6]%Z]>
                     {["attn.attn.linear.weight" := T2 Z [[7; 8]]%Z]}) "attn." tt eq_refl).
    cbv zeta in Hattn. destruct Hattn as (Hsome & Hload & _).
    destruct Hsome as [sd' Hsd'].
    { rewrite lookup_insert_ne by discriminate. now apply lookup_singleton_ne. }
    destruct (Hload sd' Hsd') as (Hhook & _ & Hlegacy).
    exists sd'. split; [exact Hhook|].
    apply (Hlegacy "weight" (T2 Z [[7; 8]]%Z)); [now left|].
    rewrite lookup_insert_ne by discriminate. apply lookup_singleton_eq.
Defined.

Lemma gating_factor_layout_witness :
  get_config Z Tiny.attn = Ok Tiny.config /\
  exists sd',
    CausalSelfAttention_load_from_state_dict Z Tiny.qkv_reassemble unit
      Tiny.super_load_from_state_dict Tiny.attn
      {[ "attn.gating_factor" := old_gate Z [5; 7]%Z ]} "attn." tt
      = Ok (Tiny.super_load_from_state_dict CausalSelfAttention Tiny.attn sd' "attn." tt) /\
    sd' !! "attn.gating_factor" = Some (current_gate Z [5; 7]%Z).
Proof.
  split; [reflexivity|].
  pose proof (gating_factor_layout Z 0%Z Tiny.qkv_reassemble unit
                Tiny.super_load_from_state_dict Tiny.attn Tiny.config
                {[ "attn.gating_factor" := old_gate Z [5; 7]%Z ]} "attn." tt eq_refl)
    as H.
  cbv zeta in H. destruct H as (_ & _ & H & _).
  destruct (H [5; 7]%Z) as (_ & Hload & _).
  - cbn. lia.
  - reflexivity.
  - apply lookup_singleton_eq.
  - exact Hload.
Defined.

Lemma AdapterV2Linear_identity_wrapper_witness :
  (exists self',
     AdapterV2Linear_reset_parameters Z 0%Z 1%Z Tiny.wrapped = Ok self' /\
     AdapterV2Linear_forward Z 0%Z Z.add Z.mul self' (T2 Z [[1; 2; 3]]%Z)
       = Ok (T2 Z [[5; 6]]%Z) /\
     Linear_forward Z 0%Z Z.add Z.mul Tiny.linear (T2 Z [[1; 2; 3]]%Z)
       = Ok (T2 Z [[5; 6]]%Z)) /\
  (exists m g' linear,
     AdapterV2Linear_init SignedZero.F (SignedZero.Num 0) (SignedZero.Num 1) nat
       SignedZero.draw 1 1 false 0 = Ok (m, g') /\
     get_child SignedZero.F m "linear" = Ok linear /\
     AdapterV2Linear_forward SignedZero.F (SignedZero.Num 0) SignedZero.add SignedZero.mul
       m (T2 SignedZero.F [[SignedZero.Num 2]])
       = Linear_forward SignedZero.F (SignedZero.Num 0) SignedZero.add SignedZero.mul
           linear (T2 SignedZero.F [[SignedZero.Num 2]])).
Proof.
  split.
  - destruct (AdapterV2Linear_identity_wrapper Z 0%Z 1%Z Z.add Z.mul nat Tiny.draw)
      as (_ & Hreset & _).
    destruct (Hreset 2 Tiny.wrapped Tiny.linear [2; 3]%Z [10; 20]%Z Tiny_wrapped_wf)
      as (self' & H1 & _ & H3).
    exists self'. split; [exact H1|]. split; [|reflexivity].
    rewrite H3. reflexivity.
  - destruct (AdapterV2Linear_identity_wrapper SignedZero.F (SignedZero.Num 0)
                (SignedZero.Num 1) SignedZero.add SignedZero.mul nat SignedZero.draw)
      as (Hinit & _ & Hfixed & _).
    assert (E : exists m g',
               AdapterV2Linear_init SignedZero.F (SignedZero.Num 0) (SignedZero.Num 1)
                 nat SignedZero.draw 1 1 false 0 = Ok (m, g'))
      by (eexists _, _; vm_compute; reflexivity).
    destruct E as (m & g' & E).
    destruct (Hinit 1 1 false 0 m g' E) as (linear & Hlinear & Hforward).
    exists m, g', linear. split; [exact E|]. split; [exact Hlinear|].
    rewrite Hforward. injection E as <- _. injection Hlinear as <-.
    vm_compute. reflexivity.
Defined.

(** C8 as stated fails on floating-point scalars: after
    [reset_parameters], a wrapper around a projection with weight 1.0 and
    bias -0.0 returns +0.0 for the input -0.0, where the projection returns
    -0.0. *)
Lemma AdapterV2Linear_identity_wrapper_counterexample :
  exists self',
    AdapterV2Linear_reset_parameters SignedZero.F (SignedZero.Num 0) (SignedZero.Num 1)
      SignedZero.wrapped = Ok self' /\
    get_child SignedZero.F self' "linear" = Ok SignedZero.linear /\
    Linear_forward SignedZero.F (SignedZero.Num 0) SignedZero.add SignedZero.mul
      SignedZero.linear (T2 SignedZero.F [[SignedZero.NegZero]])
      = Ok (T2 SignedZero.F [[SignedZero.NegZero]]) /\
    AdapterV2Linear_forward SignedZero.F (SignedZero.Num 0) SignedZero.add SignedZero.mul
      self' (T2 SignedZero.F [[SignedZero.NegZero]])
      = Ok (T2 SignedZero.F [[SignedZero.Num 0]]) /\
    AdapterV2Linear_forward SignedZero.F (SignedZero.Num 0) SignedZero.add SignedZero.mul
      self' (T2 SignedZero.F [[SignedZero.NegZero]])
      <> Linear_forward SignedZero.F (SignedZero.Num 0) SignedZero.add SignedZero.mul
           SignedZero.linear (T2 SignedZero.F [[SignedZero.NegZero]]).
Proof.
  eexists. split; [vm_compute; reflexivity|].
  split; [reflexivity|]. split; [reflexivity|]. split; [reflexivity|].
  vm_compute. discriminate.
Qed.

Lemma GPT_forward_chunked_logits_witness :
  (exists ys,
     Tiny.forward [[0; 1; 2]]%Z None 0 Tiny.model
       = (Ok (inl (T3 Z [[[7; 33; 59]; [9; 43; 77]; [11; 53; 95]]]%Z)), Tiny.model) /\
     Tiny.forward [[0; 1; 2]]%Z None 2 Tiny.model = (Ok (inr ys), Tiny.model) /\
     length ys = 2 /\
     tensor_cat1 Z ys = Ok (T3 Z [[[7; 33; 59]; [9; 43; 77]; [11; 53; 95]]]%Z)) /\
  (exists ys,
     final_logit_softcapping Z Tiny.config_softcap = Some 2%Z /\
     Tiny.forward_softcap [[0; 1; 2]]%Z None 0 Tiny.model_softcap
       = (Ok (inl (T3 Z [[[2; 2; 2]; [2; 2; 2]; [2; 2; 2]]]%Z)), Tiny.model_softcap) /\
     Tiny.forward_softcap [[0; 1; 2]]%Z None 2 Tiny.model_softcap
       = (Ok (inr ys), Tiny.model_softcap) /\
     ys = [T3 Z [[[7; 33; 59]; [9; 43; 77]]]%Z; T3 Z [[[11; 53; 95]]]%Z] /\
     tensor_cat1 Z ys = Ok (T3 Z [[[7; 33; 59]; [9; 43; 77]; [11; 53; 95]]]%Z) /\
     tensor_cat1 Z ys <> Ok (T3 Z [[[2; 2; 2]; [2; 2; 2]; [2; 2; 2]]]%Z)).
Proof.
  split.
  - assert (Hwhole : Tiny.forward [[0; 1; 2]]%Z None 0 Tiny.model
              = (Ok (inl (T3 Z [[[7; 33; 59]; [9; 43; 77]; [11; 53; 95]]]%Z)), Tiny.model))
      by (vm_compute; reflexivity).
    destruct (GPT_forward_chunked_logits Z 0%Z Z.add Z.mul Z.div (fun v => v) Z.of_nat
                Tiny.Block_forward Tiny.norm_forward Tiny.model Tiny.model
                [[0; 1; 2]]%Z None 2 _ [[[7; 33; 59]; [9; 43; 77]; [11; 53; 95]]]%Z
                eq_refl Hwhole eq_refl)
      as (config & ys & b0 & Hcfg & Hchunked & Hlen & _ & _ & _ & Hiff).
    + repeat constructor.
    + exists ys. split; [exact Hwhole|]. split; [exact Hchunked|].
      split; [exact Hlen|]. apply Hiff.
      vm_compute in Hcfg. injection Hcfg as <-. exact I.
  - assert (Hwhole : Tiny.forward_softcap [[0; 1; 2]]%Z None 0 Tiny.model_softcap
              = (Ok (inl (T3 Z [[[2; 2; 2]; [2; 2; 2]; [2; 2; 2]]]%Z)),
                 Tiny.model_softcap))
      by (vm_compute; reflexivity).
    destruct (GPT_forward_chunked_logits Z 0%Z Z.add Z.mul Z.div Tiny.tanh Z.of_nat
                Tiny.Block_forward Tiny.norm_forward Tiny.model_softcap
                Tiny.model_softcap
                [[0; 1; 2]]%Z None 2 _ [[[2; 2; 2]; [2; 2; 2]; [2; 2; 2]]]%Z
                eq_refl Hwhole eq_refl)
      as (config & ys & b0 & Hcfg & Hchunked & _ & _ & Hcat & _ & Hiff).
    + repeat constructor.
    + exists ys. split; [reflexivity|]. split; [exact Hwhole|].
      split; [exact Hchunked|].
      assert (Hys : ys = [T3 Z [[[7; 33; 59]; [9; 43; 77]]]%Z; T3 Z [[[11; 53; 95]]]%Z]).
      { assert (E : Tiny.forward_softcap [[0; 1; 2]]%Z None 2 Tiny.model_softcap
                    = (Ok (inr [T3 Z [[[7; 33; 59]; [9; 43; 77]]]%Z;
                                T3 Z [[[11; 53; 95]]]%Z]), Tiny.model_softcap))
          by (vm_compute; reflexivity).
        unfold Tiny.forward_softcap in E. rewrite E in Hchunked.
        now injection Hchunked as <-. }
      split; [exact Hys|].
      assert (Hb0 : b0 = [[[7; 33; 59]; [9; 43; 77]; [11; 53; 95]]]%Z).
      { rewrite Hys in Hcat. vm_compute in Hcat. now injection Hcat as <-. }
      split; [rewrite Hcat, Hb0; reflexivity|].
      intros Heq. apply Hiff in Heq.
      vm_compute in Hcfg. injection Hcfg as <-. cbn [final_logit_softcapping
        Tiny.config_softcap] in Heq.
      rewrite Hb0 in Heq. apply Forall_inv in Heq. vm_compute in Heq. discriminate Heq.
Defined.

Lemma GPT_forward_guard_errors_witness :
  get_attr Z Tiny.model "max_seq_length" = Ok (ANat Z 4) /\
  Tiny.forward [[0; 1; 2; 0; 1]]%Z (Some [0%Z]) 0 Tiny.model
    = (Raise ValueError, Tiny.model).
Proof.
  split; [reflexivity|].
  pose proof (GPT_forward_guard_errors Z 0%Z Z.add Z.mul Z.div (fun v => v) Z.of_nat
                Tiny.Block_forward Tiny.norm_forward Tiny.model
                [[0; 1; 2; 0; 1]]%Z (Some [0%Z]) 0 4 eq_refl) as H.
  cbv zeta in H. destruct H as (_ & Hvalue & _ & _ & Hraise & _).
  apply Hraise. apply Hvalue. cbn. lia.
Defined.

(** C10 as stated fails: with [input_pos] given and [mask_cache] None,
    [forward] raises [ValueError] when the sequence is longer than
    [max_seq_length], and [IndexError] when [input_pos] is beyond the rope
    cache; neither is the [TypeError]. *)
Lemma GPT_forward_TypeError_counterexample :
  get_attr Z Tiny.model "mask_cache" = Ok (ANone Z) /\
  Tiny.forward [[0; 1; 2; 0; 1]]%Z (Some [0%Z]) 0 Tiny.model
    = (Raise ValueError, Tiny.model) /\
  Tiny.forward [[0]]%Z (Some [7%Z]) 0 Tiny.model = (Raise IndexError, Tiny.model).
Proof. repeat split; vm_compute; reflexivity. Qed.

(** ** Further instances *)

Lemma Tiny_model_norms_init :
  exists g', GPT_init Z 0%Z 1%Z nat Tiny.draw Tiny.rope_cache Tiny.config_norms 0
             = Ok (Tiny.model_norms, g').
Proof. eexists. vm_compute. reflexivity. Qed.

Lemma Tiny_gemma_init :
  exists g', LLaMAMLP_init Z 0%Z 1%Z nat Tiny.draw GemmaMLP Tiny.config 0
             = Ok (Tiny.gemma, g').
Proof. eexists. vm_compute. reflexivity. Qed.

Lemma mark_only_adapter_v2_as_trainable_by_name_witness :
  exists sub',
    get_submodule Z (mark_only_adapter_v2_as_trainable Z Tiny.model)
      ["transformer"; "h"; "1"; "attn"; "qkv"] = Ok sub' /\
    requires_grad Z <$> get_parameter Z sub' "adapter_scale" = Ok true.
Proof.
  assert (H : exists sub p,
             get_submodule Z Tiny.model ["transformer"; "h"; "1"; "attn"; "qkv"] = Ok sub /\
             get_parameter Z sub "adapter_scale" = Ok p).
  { eexists _, _. split; vm_compute; reflexivity. }
  destruct H as (sub & p & Hsub & Hp).
  destruct (mark_only_adapter_v2_as_trainable_by_name Z Tiny.model sub
              ["transformer"; "h"; "1"; "attn"; "qkv"] "adapter_scale" p Hsub Hp)
    as (sub' & Hsub' & Hp').
  exists sub'. split; [exact Hsub'|]. rewrite Hp'. reflexivity.
Defined.

Lemma mark_only_adapter_v2_as_trainable_norms_witness :
  trainable_at Z (mark_only_adapter_v2_as_trainable Z Tiny.model_norms)
    ["transformer"; "h"; "0"; "norm_1"] /\
  frozen_at Z (mark_only_adapter_v2_as_trainable Z Tiny.model_norms)
    ["transformer"; "h"; "0"; "post_attention_norm"].
Proof.
  destruct Tiny_model_norms_init as [g' Hinit].
  destruct (mark_only_adapter_v2_as_trainable_norms Z 0%Z 1%Z nat Tiny.draw
              Tiny.rope_cache Tiny.config_norms 0 g' Tiny.model_norms Hinit)
    as [_ Hblocks].
  destruct (Hblocks 0) as (Hn1 & _ & Hpan & _); [cbn; lia|].
  split; [exact Hn1|]. apply Hpan. reflexivity.
Defined.

Lemma GPT_forward_logits_chunks_witness :
  exists ys,
    GPT_forward_logits Z 0%Z Z.add Z.mul Z.div (fun v => v)
      (T3 Z [[[1; 2]; [3; 4]; [5; 6]]]%Z) 2 Tiny.model = (Ok (inr ys), Tiny.model) /\
    length ys = 2.
Proof.
  assert (H : exists ys,
             GPT_forward_logits Z 0%Z Z.add Z.mul Z.div (fun v => v)
               (T3 Z [[[1; 2]; [3; 4]; [5; 6]]]%Z) 2 Tiny.model
               = (Ok (inr ys), Tiny.model)).
  { eexists. vm_compute. reflexivity. }
  destruct H as (ys & H). exists ys. split; [exact H|].
  destruct (GPT_forward_logits_chunks Z 0%Z Z.add Z.mul Z.div (fun v => v) Tiny.model
              Tiny.model [[[1; 2]; [3; 4]; [5; 6]]]%Z 2 ys eq_refl H)
    as (lm_head & _ & _ & Hlen & _).
  exact Hlen.
Defined.

Lemma GPT_forward_logits_shape_witness :
  exists y,
    GPT_forward_logits Z 0%Z Z.add Z.mul Z.div (fun v => v)
      (T3 Z [[[1; 2]; [3; 4]]]%Z) 0 Tiny.model = (Ok (inl y), Tiny.model) /\
    last_dim Z 3 y.
Proof.
  destruct Tiny_model_init as [g' Hinit].
  destruct (GPT_forward_logits_shape Z 0%Z 1%Z Z.add Z.mul Z.div (fun v => v) nat
              Tiny.draw Tiny.rope_cache Tiny.config 0 g' Tiny.model Hinit)
    as (vocab & Hv & Hwhole & _).
  injection Hv as <-.
  destruct (Hwhole (T3 Z [[[1; 2]; [3; 4]]]%Z)) as (y & Hy & Hlast & _).
  { cbn. repeat constructor. }
  exists y. split; [exact Hy|exact Hlast].
Defined.

Lemma GPT_forward_token_out_of_range_witness :
  Tiny.forward [[0; 5]]%Z None 0 Tiny.model = (Raise IndexError, Tiny.model) /\
  (exists m g',
     GPT_init Z 0%Z 1%Z nat Tiny.draw Tiny.rope_cache
       (Tiny.config_with (Some 0) 2 true false None 1) 0 = Ok (m, g') /\
     Tiny.forward [[0]]%Z None 0 m = (Raise RuntimeError, m)).
Proof.
  split.
  - destruct Tiny_model_init as [g' Hinit].
    apply (GPT_forward_token_out_of_range Z 0%Z 1%Z Z.add Z.mul Z.div (fun v => v)
             Z.of_nat nat Tiny.draw Tiny.rope_cache Tiny.Block_forward Tiny.norm_forward
             Tiny.config 0 g' Tiny.model 3 [[0; 5]]%Z [0; 5]%Z 5%Z 0 Hinit).
    + reflexivity.
    + cbn. lia.
    + cbn. auto.
    + cbn. auto.
    + right. cbn. lia.
  - assert (Hinit : exists m g',
               GPT_init Z 0%Z 1%Z nat Tiny.draw Tiny.rope_cache
                 (Tiny.config_with (Some 0) 2 true false None 1) 0 = Ok (m, g'))
      by (eexists _, _; vm_compute; reflexivity).
    destruct Hinit as (m & g' & Hinit). exists m, g'. split; [exact Hinit|].
    apply (GPT_forward_token_out_of_range Z 0%Z 1%Z Z.add Z.mul Z.div (fun v => v)
             Z.of_nat nat Tiny.draw Tiny.rope_cache Tiny.Block_forward Tiny.norm_forward
             (Tiny.config_with (Some 0) 2 true false None 1) 0 g' m 0 [[0]]%Z [0]%Z 0%Z 0
             Hinit).
    + reflexivity.
    + cbn. lia.
    + cbn. auto.
    + cbn. auto.
    + right. cbn. lia.
Defined.

Lemma GemmaMLP_forward_shape_witness :
  exists y,
    GemmaMLP_forward Z 0%Z Z.add Z.mul Tiny.gelu Tiny.gelu_approximate Tiny.gemma
      (T2 Z [[1; 2]; [3; 4]]%Z) = Ok y /\
    last_dim Z 2 y /\
    GemmaMLP_forward Z 0%Z Z.add Z.mul Tiny.gelu Tiny.gelu_approximate Tiny.gemma
      (T2 Z [[1; 2; 3]]%Z) = Raise RuntimeError.
Proof.
  destruct Tiny_gemma_init as [g' Hinit].
  destruct (GemmaMLP_forward_shape Z 0%Z 1%Z Z.add Z.mul nat Tiny.draw Tiny.gelu
              Tiny.gelu_approximate Tiny.config 0 g' Tiny.gemma Hinit) as [Hok Hbad].
  destruct (Hok (T2 Z [[1; 2]; [3; 4]]%Z)) as (y & Hy & Hlast & _).
  { cbn. repeat constructor. }
  exists y. split; [exact Hy|]. split; [exact Hlast|].
  apply Hbad. cbn. intros H. inversion H as [|? ? Hlen _]. discriminate Hlen.
Defined.


Lemma GPT_forward_input_pos_out_of_range_witness :
  Tiny.forward [[0]]%Z (Some [1; 7]%Z) 0 Tiny.model = (Raise IndexError, Tiny.model) /\
  Tiny.forward [[0]]%Z (Some [1; 7]%Z) 0 Tiny.model_empty_rope
    = (Raise RuntimeError, Tiny.model_empty_rope).
Proof.
  split.
  - destruct (GPT_forward_input_pos_out_of_range Z 0%Z Z.add Z.mul Z.div (fun v => v)
                Z.of_nat Tiny.Block_forward Tiny.norm_forward Tiny.model [[0]]%Z
                [1; 7]%Z 7%Z 0 4 4 (T2 Z (repeat [1%Z] 4))) as [H _].
    + reflexivity.
    + cbn. lia.
    + reflexivity.
    + reflexivity.
    + cbn. auto.
    + right. cbn. lia.
    + exact H.
  - destruct (GPT_forward_input_pos_out_of_range Z 0%Z Z.add Z.mul Z.div (fun v => v)
                Z.of_nat Tiny.Block_forward Tiny.norm_forward Tiny.model_empty_rope
                [[0]]%Z [1; 7]%Z 7%Z 0 4 4 (T2 Z (repeat [] 4))) as [H _].
    + reflexivity.
    + cbn. lia.
    + reflexivity.
    + reflexivity.
    + cbn. auto.
    + right. cbn. lia.
    + exact H.
Defined.

Lemma GPT_init_linear_biases_witness :
  linear_bias_is Z false Tiny.model ["lm_head"] /\
  linear_bias_is Z true Tiny.model ["transformer"; "h"; "0"; "attn"; "qkv"].
Proof.
  destruct Tiny_model_init as [g' Hinit].
  destruct (GPT_init_linear_biases Z 0%Z 1%Z nat Tiny.draw Tiny.rope_cache
              Tiny.config 0 g' Tiny.model Hinit) as [Hlm Hblocks].
  split; [exact Hlm|].
  destruct (Hblocks 0) as [Hq _]; [cbn; lia|]. exact Hq.
Defined.

Lemma GPT_forward_input_pos_before_kv_cache_witness :
  (exists e, Tiny.forward [[0; 1]]%Z (Some [0; 1]%Z) 0 Tiny.model = (Raise e, Tiny.model) /\
             e = TypeError) /\
  (exists m g' e,
     GPT_init Z 0%Z 1%Z nat Tiny.draw (fun _ n => (T2 Z (repeat [] n), T2 Z (repeat [] n)))
       Tiny.config 0 = Ok (m, g') /\
     Tiny.forward [[0]]%Z (Some [7]%Z) 0 m = (Raise e, m) /\ e = RuntimeError /\
     exists name t, (name = "cos" \/ name = "sin") /\
                    get_buffer Z m name = Ok t /\ numel Z t = 0).
Proof.
  split.
  - destruct Tiny_model_init as [g' Hinit].
    destruct (GPT_forward_input_pos_before_kv_cache Z 0%Z 1%Z Z.add Z.mul Z.div
                (fun v => v) Z.of_nat nat Tiny.draw Tiny.rope_cache Tiny.Block_forward
                Tiny.norm_forward Tiny.config 0 g' Tiny.model [[0; 1]]%Z [0; 1]%Z 0 Hinit)
      as (e & He & _).
    exists e. split; [exact He|].
    assert (E : Tiny.forward [[0; 1]]%Z (Some [0; 1]%Z) 0 Tiny.model
                = (Raise TypeError, Tiny.model)) by (vm_compute; reflexivity).
    unfold Tiny.forward in E. rewrite E in He. now injection He as <-.
  - assert (Hinit : exists m g',
               GPT_init Z 0%Z 1%Z nat Tiny.draw
                 (fun _ n => (T2 Z (repeat [] n), T2 Z (repeat [] n)))
                 Tiny.config 0 = Ok (m, g'))
      by (eexists _, _; vm_compute; reflexivity).
    destruct Hinit as (m & g' & Hinit).
    destruct (GPT_forward_input_pos_before_kv_cache Z 0%Z 1%Z Z.add Z.mul Z.div
                (fun v => v) Z.of_nat nat Tiny.draw
                (fun _ n => (T2 Z (repeat [] n), T2 Z (repeat [] n)))
                Tiny.Block_forward Tiny.norm_forward Tiny.config 0 g' m [[0]]%Z [7]%Z 0
                Hinit)
      as (e & He & _ & Hempty).
    exists m, g', e. split; [exact Hinit|]. split; [exact He|].
    assert (E : e = RuntimeError).
    { vm_compute in Hinit. injection Hinit as <- _.
      vm_compute in He. now injection He as <-. }
    split; [exact E|]. exact (Hempty E).
Defined.

Lemma AdapterV2Linear_forward_shape_witness :
  (exists m g',
     AdapterV2Linear_init Z 0%Z 1%Z nat Tiny.draw 2 3 true 0 = Ok (m, g') /\
     (exists y, AdapterV2Linear_forward Z 0%Z Z.add Z.mul m (T3 Z [[[1; 2]; [3; 4]]]%Z)
                  = Ok y /\ last_dim Z 3 y) /\
     AdapterV2Linear_forward Z 0%Z Z.add Z.mul m (T2 Z [[1; 2; 3]]%Z)
       = Raise RuntimeError) /\
  (exists m g',
     AdapterV2Linear_init Z 0%Z 1%Z nat Tiny.draw 2 0 true 0 = Ok (m, g') /\
     (exists y, AdapterV2Linear_forward Z 0%Z Z.add Z.mul m (T2 Z [[1; 2]]%Z) = Ok y /\
                last_dim Z 0 y) /\
     AdapterV2Linear_forward Z 0%Z Z.add Z.mul m (T2 Z [[1; 2; 3]]%Z)
       = Raise RuntimeError).
Proof.
  destruct (AdapterV2Linear_forward_shape Z 0%Z 1%Z Z.add Z.mul nat Tiny.draw)
    as [Hdims Hshape].
  split.
  - assert (Hinit : exists m g',
               AdapterV2Linear_init Z 0%Z 1%Z nat Tiny.draw 2 3 true 0 = Ok (m, g')).
    { eexists _, _. vm_compute. reflexivity. }
    destruct Hinit as (m & g' & Hinit). exists m, g'. split; [exact Hinit|].
    destruct (Hshape 2 3 m (Hdims 2 3 true 0 m g' Hinit)) as [Hok Hbad].
    split.
    + destruct (Hok (T3 Z [[[1; 2]; [3; 4]]]%Z)) as (y & Hy & Hlast & _).
      { cbn. repeat constructor. }
      exists y. split; [exact Hy|exact Hlast].
    + apply Hbad. cbn. intros H. inversion H as [|? ? Hlen _]. discriminate Hlen.
  - assert (Hinit : exists m g',
               AdapterV2Linear_init Z 0%Z 1%Z nat Tiny.draw 2 0 true 0 = Ok (m, g')).
    { eexists _, _. vm_compute. reflexivity. }
    destruct Hinit as (m & g' & Hinit). exists m, g'. split; [exact Hinit|].
    destruct (Hshape 2 0 m (Hdims 2 0 true 0 m g' Hinit)) as [Hok Hbad].
    split.
    + destruct (Hok (T2 Z [[1; 2]]%Z)) as (y & Hy & Hlast & _).
      { cbn. repeat constructor. }
      exists y. split; [exact Hy|exact Hlast].
    + apply Hbad. cbn. intros H. inversion H as [|? ? Hlen _]. discriminate Hlen.
Defined.

Lemma Block_init_errors_witness :
  Block_init Z 0%Z 1%Z nat Tiny.draw (Tiny.config_with (Some 3) 2 false true None 1) 0 0
    = Raise NotImplementedError /\
  Block_init Z 0%Z 1%Z nat Tiny.draw (Tiny.config_with (Some 3) 2 true false (Some 8) 0) 1 0
    = Raise ZeroDivisionError /\
  exists block g',
    Block_init Z 0%Z 1%Z nat Tiny.draw (Tiny.config_with (Some 3) 2 true true (Some 8) 2) 1 0
      = Ok (block, g').
Proof.
  split; [|split].
  - apply (Block_init_errors Z 0%Z 1%Z nat Tiny.draw
             (Tiny.config_with (Some 3) 2 false true None 1) 0 0). now split.
  - apply (Block_init_errors Z 0%Z 1%Z nat Tiny.draw
             (Tiny.config_with (Some 3) 2 true false (Some 8) 0) 1 0).
    split; [reflexivity|]. split; [discriminate|reflexivity].
  - apply (Block_init_errors Z 0%Z 1%Z nat Tiny.draw
             (Tiny.config_with (Some 3) 2 true true (Some 8) 2) 1 0).
    split; [reflexivity|]. right. cbn. lia.
Defined.

Lemma GPT_init_errors_witness :
  GPT_init Z 0%Z 1%Z nat Tiny.draw Tiny.rope_cache
    (Tiny.config_with None 2 true false None 1) 0 = Raise AssertionError /\
  GPT_init Z 0%Z 1%Z nat Tiny.draw Tiny.rope_cache
    (Tiny.config_with (Some 3) 2 false true None 1) 0 = Raise NotImplementedError /\
  GPT_init Z 0%Z 1%Z nat Tiny.draw Tiny.rope_cache
    (Tiny.config_with (Some 3) 2 true false (Some 8) 0) 0 = Raise ZeroDivisionError /\
  exists model g',
    GPT_init Z 0%Z 1%Z nat Tiny.draw Tiny.rope_cache
      (Tiny.config_with (Some 3) 0 false true (Some 8) 0) 0 = Ok (model, g').
Proof.
  split; [|split; [|split]].
  - apply (GPT_init_errors Z 0%Z 1%Z nat Tiny.draw Tiny.rope_cache
             (Tiny.config_with None 2 true false None 1) 0). reflexivity.
  - apply (GPT_init_errors Z 0%Z 1%Z nat Tiny.draw Tiny.rope_cache
             (Tiny.config_with (Some 3) 2 false true None 1) 0).
    split; [discriminate|]. split; [cbn; lia|reflexivity].
  - apply (GPT_init_errors Z 0%Z 1%Z nat Tiny.draw Tiny.rope_cache
             (Tiny.config_with (Some 3) 2 true false (Some 8) 0) 0).
    split; [discriminate|]. split; [cbn; lia|]. split; reflexivity.
  - apply (GPT_init_errors Z 0%Z 1%Z nat Tiny.draw Tiny.rope_cache
             (Tiny.config_with (Some 3) 0 false true (Some 8) 0) 0).
    split; [discriminate|]. now left.
Defined.
